(** * Agent loops with tool calling: a shallow embedding

    This development embeds the tool-call extraction, the argument coercion
    and the two dispatch loops of

      - python_classes/ReAct_agent/agent.py          (module [ReAct])
      - python_classes/tool_calling_agent/agent.py   (module [ToolCalling])
      - python_classes/tool_calling_agent/decorators.py (module [Decorators])

    together with the part of the Python runtime these files rely on
    (module [Py]: values, errors, the builtin conversions, [str.strip],
    [json.loads], [json.dumps]) and the two regular expressions they use
    (module [Re]).

    Conventions of the embedding.
    - A Python [str] is a [string] whose characters are code points below 256.
    - A Python [dict] is an association list in insertion order; assigning to
      a key that is present replaces the value in place.
    - An object that the source mutates in place is threaded through the
      functions that mutate it: they return the object after the call.
    - A call that may raise returns an [outcome]; only errors (instances of
      [Exception]) are modelled.
    - [print] and the colour codes have no counterpart.
    - The limit of recent interpreters on the digits of an integer that is
      read or printed (4300 by default), and the escapes of JSON for code
      points above 255, are beyond the embedding: the statements that depend
      on them bound their inputs (module [ScopeProperties]). *)

From Stdlib Require Import ZArith List Bool Ascii String Lia.
From Stdlib Require Import Numbers.DecimalString Floats.SpecFloat.
From Stdlib Require Numbers.DecimalFacts Numbers.DecimalPos.
Import ListNotations.

Local Open Scope string_scope.
Local Open Scope list_scope.
Local Open Scope Z_scope.

(* ================================================================== *)
(** * The Python runtime *)
(* ================================================================== *)

Module Py.

(** ** Text *)

Definition chr (n : nat) : ascii := ascii_of_nat n.
Definition ord (c : ascii) : nat := nat_of_ascii c.

(** [str.isspace] on one character, for code points below 256. *)
Definition isspace (c : ascii) : bool :=
  let n := ord c in
  ((9 <=? n) && (n <=? 13) || (28 <=? n) && (n <=? 32)
   || (n =? 133) || (n =? 160))%nat.

Fixpoint lstrip (s : string) : string :=
  match s with
  | String c s' => if isspace c then lstrip s' else s
  | EmptyString => EmptyString
  end.

Fixpoint rstrip (s : string) : string :=
  match s with
  | EmptyString => EmptyString
  | String c s' =>
      match rstrip s' with
      | EmptyString => if isspace c then EmptyString else String c EmptyString
      | r => String c r
      end
  end.

(** [s.strip()] *)
Definition strip (s : string) : string := rstrip (lstrip s).

(** [Some r] when [s = pat ++ r]. *)
Fixpoint strip_prefix (pat s : string) : option string :=
  match pat with
  | EmptyString => Some s
  | String a pat' =>
      match s with
      | EmptyString => None
      | String b s' => if Ascii.eqb a b then strip_prefix pat' s' else None
      end
  end.

(** Splits [s] around the leftmost occurrence of [pat]. *)
Fixpoint find_split (pat s : string) {struct s} : option (string * string) :=
  match strip_prefix pat s with
  | Some rest => Some (EmptyString, rest)
  | None =>
      match s with
      | EmptyString => None
      | String c s' =>
          match find_split pat s' with
          | Some (before, rest) => Some (String c before, rest)
          | None => None
          end
      end
  end.

(** [sub in s] for two strings. *)
Definition contains (sub s : string) : bool :=
  match find_split sub s with Some _ => true | None => false end.

Fixpoint join (sep : string) (l : list string) : string :=
  match l with
  | [] => EmptyString
  | [x] => x
  | x :: l' => x ++ sep ++ join sep l'
  end.

Fixpoint repeat_string (n : nat) (s : string) : string :=
  match n with
  | O => EmptyString
  | S n' => s ++ repeat_string n' s
  end.

Definition string_of_Z (z : Z) : string := NilZero.string_of_int (Z.to_int z).

(** ** Values *)

#[local] Unset Elimination Schemes.
Inductive value : Type :=
| VNone
| VBool (b : bool)
| VInt (z : Z)
| VFloat (f : spec_float)
| VStr (s : string)
| VList (l : list value)
| VDict (d : list (string * value)).
#[local] Set Elimination Schemes.

Definition dict := list (string * value).

Section Dict.
Context {V : Type}.

Fixpoint dict_get (k : string) (d : list (string * V)) : option V :=
  match d with
  | [] => None
  | (k', v) :: d' => if String.eqb k k' then Some v else dict_get k d'
  end.

Definition dict_mem (k : string) (d : list (string * V)) : bool :=
  match dict_get k d with Some _ => true | None => false end.

(** [d[k] = v] *)
Fixpoint dict_set (k : string) (v : V) (d : list (string * V))
  : list (string * V) :=
  match d with
  | [] => [(k, v)]
  | (k', v') :: d' =>
      if String.eqb k k' then (k, v) :: d' else (k', v') :: dict_set k v d'
  end.

(** [dict(pairs)], also a dict comprehension over [pairs]. *)
Definition dict_of_pairs (pairs : list (string * V)) : list (string * V) :=
  fold_left (fun d kv => dict_set (fst kv) (snd kv) d) pairs [].

Definition keys (d : list (string * V)) : list string := map fst d.
Definition values (d : list (string * V)) : list V := map snd d.
End Dict.

(** ** Errors *)

Inductive exc_class : Type :=
| Exception
| ArithmeticError | OverflowError | ZeroDivisionError
| LookupError | KeyError | IndexError
| ValueError | JSONDecodeError
| TypeError | AttributeError | RuntimeError.

Definition exc_class_eqb (a b : exc_class) : bool :=
  match a, b with
  | Exception, Exception | ArithmeticError, ArithmeticError
  | OverflowError, OverflowError | ZeroDivisionError, ZeroDivisionError
  | LookupError, LookupError | KeyError, KeyError | IndexError, IndexError
  | ValueError, ValueError | JSONDecodeError, JSONDecodeError
  | TypeError, TypeError | AttributeError, AttributeError
  | RuntimeError, RuntimeError => true
  | _, _ => false
  end.

(** The direct base class. *)
Definition base (c : exc_class) : option exc_class :=
  match c with
  | Exception => None
  | OverflowError | ZeroDivisionError => Some ArithmeticError
  | KeyError | IndexError => Some LookupError
  | JSONDecodeError => Some ValueError
  | ArithmeticError | LookupError | ValueError | TypeError
  | AttributeError | RuntimeError => Some Exception
  end.

(** [issubclass c handler]; the hierarchy has depth three. *)
Definition issubclass (c handler : exc_class) : bool :=
  exc_class_eqb c handler
  || match base c with
     | Some b =>
         exc_class_eqb b handler
         || match base b with
            | Some b' => exc_class_eqb b' handler
            | None => false
            end
     | None => false
     end.

(** An error: its class and [str(e)]. *)
Record exn : Type := mkExn { exn_class : exc_class; exn_msg : string }.

(** [except (h1, h2, ...)] *)
Definition caught (handlers : list exc_class) (e : exn) : bool :=
  existsb (issubclass (exn_class e)) handlers.

Inductive outcome (A : Type) : Type :=
| Ret (a : A)
| Raise (e : exn).
Arguments Ret {A} a.
Arguments Raise {A} e.

Definition bind {A B} (m : outcome A) (k : A -> outcome B) : outcome B :=
  match m with
  | Ret a => k a
  | Raise e => Raise e
  end.

Definition raise {A} (c : exc_class) (msg : string) : outcome A :=
  Raise (mkExn c msg).

Notation "x <- m ;; k" := (bind m (fun x => k))
  (at level 61, m at next level, right associativity).

(** ** Numbers *)

Definition digit_of (c : ascii) : option Z :=
  let n := ord c in
  if ((48 <=? n) && (n <=? 57))%nat then Some (Z.of_nat (n - 48)) else None.

Definition is_digit (c : ascii) : bool :=
  match digit_of c with Some _ => true | None => false end.

(** Reads a run of decimal digits into [acc]; [n] counts the digits read.
    With [us], one underscore is accepted between two digits (the literals
    of [int()] and [float()]); an underscore elsewhere spoils the literal. *)
Fixpoint digit_run (us : bool) (s : string) (acc : Z) (n : nat)
  : option (Z * nat * string) :=
  match s with
  | EmptyString => Some (acc, n, s)
  | String c s' =>
      match digit_of c with
      | Some d => digit_run us s' (10 * acc + d) (S n)
      | None =>
          if us && Ascii.eqb c "_" then
            match n, s' with
            | S _, String c' _ =>
                if is_digit c' then digit_run us s' acc n else None
            | _, _ => None
            end
          else Some (acc, n, s)
      end
  end.

(** Splits a leading sign off. *)
Definition split_sign (s : string) : bool * string :=
  match s with
  | String "-" s' => (true, s')
  | String "+" s' => (false, s')
  | _ => (false, s)
  end.

(** The white space that [int()] and [float()] skip around a literal: the
    characters of C's [isspace] and, of the spaces above 127, NEL and the
    no-break space.  The separators U+001C to U+001F, which [str.strip]
    removes, are not skipped: [int] raises [ValueError] on a text that has
    one. *)
Definition is_literal_space (c : ascii) : bool :=
  let n := ord c in
  ((9 <=? n) && (n <=? 13) || (n =? 32) || (n =? 133) || (n =? 160))%nat.

Fixpoint skip_left (s : string) : string :=
  match s with
  | String c s' => if is_literal_space c then skip_left s' else s
  | EmptyString => EmptyString
  end.

Fixpoint skip_right (s : string) : string :=
  match s with
  | EmptyString => EmptyString
  | String c s' =>
      match skip_right s' with
      | EmptyString =>
          if is_literal_space c then EmptyString else String c EmptyString
      | r => String c r
      end
  end.

Definition literal_text (s : string) : string := skip_right (skip_left s).

(** The literal of [int(s)] in base 10, [None] for [ValueError].  The limit
    on the number of digits that recent interpreters enforce (4300 by
    default; [int] raises [ValueError] beyond it, and so does [str] of such
    an integer) is not part of the embedding: the statements that depend
    on it bound the digits of their inputs. *)
Definition parse_int (s : string) : option Z :=
  let (neg, body) := split_sign (literal_text s) in
  match digit_run true body 0 0%nat with
  | Some (z, S _, EmptyString) => Some (if neg then - z else z)
  | _ => None
  end.

Definition prec : Z := 53.
Definition emax : Z := 1024.

(** The binary64 number nearest to [(-1)^neg * m * 10^e], ties to even. *)
Definition float_of_decimal (neg : bool) (m e : Z) : spec_float :=
  if m <=? 0 then S754_zero neg
  else
    let nd := Z.of_nat (String.length (string_of_Z m)) in
    if 310 <? nd + e then S754_infinity neg
    else if nd + e <? -330 then S754_zero neg
    else if 0 <=? e then
      binary_normalize prec emax (cond_Zopp neg (m * 10 ^ e)) 0 neg
    else
      SFdiv prec emax
        (S754_finite neg (Z.to_pos m) 0)
        (S754_finite false (Z.to_pos (10 ^ (- e))) 0).

(** An unsigned decimal literal [digits [. digits] [e [sign] digits]] with
    at least one digit before the exponent, as mantissa and exponent of
    ten. *)
Definition parse_decimal (us : bool) (s : string) : option (Z * Z) :=
  match digit_run us s 0 0%nat with
  | None => None
  | Some (i, ni, r1) =>
      let frac :=
        match r1 with
        | String "." r2 => digit_run us r2 i 0%nat
        | _ => Some (i, 0%nat, r1)
        end in
      match frac with
      | None => None
      | Some (m, nf, r3) =>
          if (ni + nf =? 0)%nat then None
          else
            match r3 with
            | EmptyString => Some (m, - Z.of_nat nf)
            | String c r4 =>
                if Ascii.eqb c "e" || Ascii.eqb c "E" then
                  let (eneg, r5) := split_sign r4 in
                  match digit_run us r5 0 0%nat with
                  | Some (x, S _, EmptyString) =>
                      Some (m, (if eneg then - x else x) - Z.of_nat nf)
                  | _ => None
                  end
                else None
            end
      end
  end.

Definition lower_char (c : ascii) : ascii :=
  let n := ord c in
  if ((65 <=? n) && (n <=? 90))%nat then chr (n + 32) else c.

Fixpoint lower (s : string) : string :=
  match s with
  | EmptyString => EmptyString
  | String c s' => String (lower_char c) (lower s')
  end.

(** The literal of [float(s)], [None] for [ValueError]. *)
Definition parse_float (s : string) : option spec_float :=
  let (neg, body) := split_sign (literal_text s) in
  let l := lower body in
  if String.eqb l "inf" || String.eqb l "infinity" then Some (S754_infinity neg)
  else if String.eqb l "nan" then Some S754_nan
  else
    match parse_decimal true body with
    | Some (m, e) => Some (float_of_decimal neg m e)
    | None => None
    end.

(** [float(z)] for an [int]: nearest binary64, [None] for [OverflowError]. *)
Definition float_of_int (z : Z) : option spec_float :=
  match binary_normalize prec emax z 0 false with
  | S754_infinity _ => None
  | f => Some f
  end.

Definition float_is_zero (f : spec_float) : bool :=
  match f with S754_zero _ => true | _ => false end.

(** ** Type tests and truth *)

Inductive pytype : Type := TInt | TStr | TBool | TFloat.

(** [isinstance(v, t)]; [bool] is a subclass of [int]. *)
Definition isinstance (v : value) (t : pytype) : bool :=
  match t, v with
  | TInt, VInt _ | TInt, VBool _ => true
  | TStr, VStr _ => true
  | TBool, VBool _ => true
  | TFloat, VFloat _ => true
  | _, _ => false
  end.

(** [bool(v)] *)
Definition truthy (v : value) : bool :=
  match v with
  | VNone => false
  | VBool b => b
  | VInt z => negb (z =? 0)
  | VFloat f => negb (float_is_zero f)
  | VStr s => negb (String.eqb s EmptyString)
  | VList l => match l with [] => false | _ => true end
  | VDict d => match d with [] => false | _ => true end
  end.

(** [type(v).__name__] *)
Definition type_name (v : value) : string :=
  match v with
  | VNone => "NoneType"
  | VBool _ => "bool"
  | VInt _ => "int"
  | VFloat _ => "float"
  | VStr _ => "str"
  | VList _ => "list"
  | VDict _ => "dict"
  end.

(** ** Printing *)

Definition LF : string := String (chr 10) EmptyString.

Definition hex_digit (n : nat) : ascii :=
  if (n <? 10)%nat then chr (48 + n) else chr (87 + n).

Definition hex2 (n : nat) : string :=
  String (hex_digit (n / 16)) (String (hex_digit (n mod 16)) EmptyString).

Definition spec_float_eqb (x y : spec_float) : bool :=
  match x, y with
  | S754_zero a, S754_zero b => Bool.eqb a b
  | S754_infinity a, S754_infinity b => Bool.eqb a b
  | S754_nan, S754_nan => true
  | S754_finite a m e, S754_finite b m' e' =>
      Bool.eqb a b && Pos.eqb m m' && (e =? e')
  | _, _ => false
  end.

(** [num / den >= 10 ^ q], for positive [num] and [den]. *)
Definition ge_pow10 (num den q : Z) : bool :=
  if 0 <=? q then den * 10 ^ q <=? num else den <=? num * 10 ^ (- q).

Fixpoint adjust_down (fuel : nat) (num den q : Z) : Z :=
  match fuel with
  | O => q
  | S fuel' =>
      if ge_pow10 num den q then q else adjust_down fuel' num den (q - 1)
  end.

Fixpoint adjust_up (fuel : nat) (num den q : Z) : Z :=
  match fuel with
  | O => q
  | S fuel' =>
      if ge_pow10 num den (q + 1) then adjust_up fuel' num den (q + 1) else q
  end.

(** The decimal exponent of [num / den]: the largest [q] with
    [10 ^ q <= num / den]. *)
Definition floor_log10 (num den : Z) : Z :=
  let guess := (Z.log2 num - Z.log2 den) * 30103 / 100000 in
  adjust_up 4 num den (adjust_down 4 num den guess).

(** The [k]-digit decimals next to the positive float [x = num / den], kept
    when they read back as [x]; of two that do, the nearer one. *)
Definition candidate (x : spec_float) (num den e10 k : Z) : option (Z * Z) :=
  let p := e10 - (k - 1) in
  let lo := if 0 <=? p then num / (den * 10 ^ p) else num * 10 ^ (- p) / den in
  let hi := lo + 1 in
  let reads_back d := spec_float_eqb (float_of_decimal false d p) x in
  let side :=
    if 0 <=? p then 2 * num ?= (2 * lo + 1) * den * 10 ^ p
    else 2 * num * 10 ^ (- p) ?= (2 * lo + 1) * den in
  match reads_back lo, reads_back hi with
  | true, true =>
      match side with
      | Lt => Some (lo, p)
      | Gt => Some (hi, p)
      | Eq => Some (if Z.even lo then lo else hi, p)
      end
  | true, false => Some (lo, p)
  | false, true => Some (hi, p)
  | false, false => None
  end.

Fixpoint shortest (fuel : nat) (x : spec_float) (num den e10 k : Z)
  : Z * Z :=
  match fuel with
  | O => (num / den, 0)
  | S fuel' =>
      match candidate x num den e10 k with
      | Some r => r
      | None => shortest fuel' x num den e10 (k + 1)
      end
  end.

Fixpoint strip_zeros (fuel : nat) (d p : Z) : Z * Z :=
  match fuel with
  | O => (d, p)
  | S fuel' =>
      if (d mod 10 =? 0) && negb (d =? 0) then strip_zeros fuel' (d / 10) (p + 1)
      else (d, p)
  end.

Definition zeros (n : Z) : string := repeat_string (Z.to_nat n) "0".

(** The digits [ds] with the decimal point [decpt] places after their start,
    laid out as [repr] does: an exponent when [decpt <= -4] or
    [decpt > 16]. *)
Definition layout (ds : string) (decpt : Z) : string :=
  let n := Z.of_nat (String.length ds) in
  if (decpt <=? -4) || (16 <? decpt) then
    let x := decpt - 1 in
    let xs := string_of_Z (Z.abs x) in
    let mant :=
      match ds with
      | String c EmptyString => ds
      | String c rest => String c ("." ++ rest)
      | EmptyString => ds
      end in
    mant ++ "e" ++ (if x <? 0 then "-" else "+")
         ++ (if Z.abs x <? 10 then "0" else EmptyString) ++ xs
  else if decpt <=? 0 then "0." ++ zeros (- decpt) ++ ds
  else if n <=? decpt then ds ++ zeros (decpt - n) ++ ".0"
  else
    substring 0 (Z.to_nat decpt) ds ++ "."
      ++ substring (Z.to_nat decpt) (Z.to_nat (n - decpt)) ds.

(** [repr(x)] of a float: the shortest decimal that reads back as [x]. *)
Definition float_repr (x : spec_float) : string :=
  match x with
  | S754_nan => "nan"
  | S754_infinity s => if s then "-inf" else "inf"
  | S754_zero s => if s then "-0.0" else "0.0"
  | S754_finite s m e =>
      let num := if 0 <=? e then Zpos m * 2 ^ e else Zpos m in
      let den := if 0 <=? e then 1 else 2 ^ (- e) in
      let '(d0, p0) :=
        shortest 17 (S754_finite false m e) num den (floor_log10 num den) 1 in
      let '(d, p) := strip_zeros 400 d0 p0 in
      let ds := string_of_Z d in
      (if s then "-" else EmptyString)
        ++ layout ds (Z.of_nat (String.length ds) + p)
  end.

Definition needs_hex (n : nat) : bool :=
  ((n <? 32) || (n =? 127) || (128 <=? n) && (n <=? 160) || (n =? 173))%nat.

Fixpoint escape_repr (quote : ascii) (s : string) : string :=
  match s with
  | EmptyString => EmptyString
  | String c s' =>
      let n := ord c in
      (if Ascii.eqb c quote || Ascii.eqb c "\" then String "\" (String c EmptyString)
       else if (n =? 9)%nat then "\t"
       else if (n =? 10)%nat then "\n"
       else if (n =? 13)%nat then "\r"
       else if needs_hex n then "\x" ++ hex2 n
       else String c EmptyString)
      ++ escape_repr quote s'
  end.

(** [repr(s)] of a string. *)
Definition str_repr (s : string) : string :=
  let quote : ascii :=
    if contains "'" s && negb (contains (String (chr 34) EmptyString) s)
    then chr 34 else "'"%char in
  String quote (escape_repr quote s) ++ String quote EmptyString.

(** [repr(v)] *)
Fixpoint repr (v : value) : string :=
  match v with
  | VNone => "None"
  | VBool b => if b then "True" else "False"
  | VInt z => string_of_Z z
  | VFloat f => float_repr f
  | VStr s => str_repr s
  | VList l => "[" ++ join ", " (map repr l) ++ "]"
  | VDict d =>
      "{" ++ join ", " (map (fun '(k, x) => (str_repr k ++ ": " ++ repr x)%string) d)
          ++ "}"
  end.

(** [str(v)], also what an f-string prints for [{v}]. *)
Definition str (v : value) : string :=
  match v with
  | VStr s => s
  | _ => repr v
  end.

(** ** The builtin converters [int], [str], [bool], [float] *)

Definition int_of_float (f : spec_float) : outcome Z :=
  match f with
  | S754_nan => raise ValueError "cannot convert float NaN to integer"
  | S754_infinity _ =>
      raise OverflowError "cannot convert float infinity to integer"
  | S754_zero _ => Ret 0
  | S754_finite s m e =>
      let a := if 0 <=? e then Zpos m * 2 ^ e else Zpos m / 2 ^ (- e) in
      Ret (if s then - a else a)
  end.

Definition convert (t : pytype) (v : value) : outcome value :=
  match t with
  | TBool => Ret (VBool (truthy v))
  | TStr => Ret (VStr (str v))
  | TInt =>
      match v with
      | VInt z => Ret (VInt z)
      | VBool b => Ret (VInt (if b then 1 else 0))
      | VFloat f => z <- int_of_float f ;; Ret (VInt z)
      | VStr s =>
          match parse_int s with
          | Some z => Ret (VInt z)
          | None =>
              raise ValueError
                ("invalid literal for int() with base 10: "
                   ++ substring 0 200 (str_repr s))
          end
      | _ =>
          raise TypeError
            ("int() argument must be a string, a bytes-like object or a real number, not '"
               ++ type_name v ++ "'")
      end
  | TFloat =>
      match v with
      | VFloat f => Ret (VFloat f)
      | VInt z =>
          match float_of_int z with
          | Some f => Ret (VFloat f)
          | None => raise OverflowError "int too large to convert to float"
          end
      | VBool b => Ret (VFloat (float_of_decimal false (if b then 1 else 0) 0))
      | VStr s =>
          match parse_float s with
          | Some f => Ret (VFloat f)
          | None =>
              raise ValueError
                ("could not convert string to float: " ++ str_repr s)
          end
      | _ =>
          raise TypeError
            ("float() argument must be a string or a real number, not '"
               ++ type_name v ++ "'")
      end
  end.

(** ** [json.dumps] *)

Definition quote : ascii := chr 34.

Fixpoint escape_json (s : string) : string :=
  match s with
  | EmptyString => EmptyString
  | String c s' =>
      let n := ord c in
      (if Ascii.eqb c quote || Ascii.eqb c "\" then String "\" (String c EmptyString)
       else if (n =? 10)%nat then "\n"
       else if (n =? 13)%nat then "\r"
       else if (n =? 9)%nat then "\t"
       else if (n =? 8)%nat then "\b"
       else if (n =? 12)%nat then "\f"
       else if ((n <? 32) || (126 <? n))%nat then "\u00" ++ hex2 n
       else String c EmptyString)
      ++ escape_json s'
  end.

Definition json_string (s : string) : string :=
  String quote (escape_json s) ++ String quote EmptyString.

Definition json_float (f : spec_float) : string :=
  match f with
  | S754_nan => "NaN"
  | S754_infinity s => if s then "-Infinity" else "Infinity"
  | _ => float_repr f
  end.

(** [json.dumps(v)] *)
Fixpoint dumps (v : value) : string :=
  match v with
  | VNone => "null"
  | VBool b => if b then "true" else "false"
  | VInt z => string_of_Z z
  | VFloat f => json_float f
  | VStr s => json_string s
  | VList l => "[" ++ join ", " (map dumps l) ++ "]"
  | VDict d =>
      "{" ++ join ", "
               (map (fun '(k, x) => (json_string k ++ ": " ++ dumps x)%string) d)
          ++ "}"
  end.

Definition newline_indent (level : nat) : string :=
  LF ++ repeat_string level "  ".

(** [json.dumps(v, indent=2)], [level] containers deep. *)
Fixpoint dumps_indent (level : nat) (v : value) : string :=
  match v with
  | VList ((_ :: _) as l) =>
      "[" ++ newline_indent (S level)
          ++ join ("," ++ newline_indent (S level))
               (map (dumps_indent (S level)) l)
          ++ newline_indent level ++ "]"
  | VDict ((_ :: _) as d) =>
      "{" ++ newline_indent (S level)
          ++ join ("," ++ newline_indent (S level))
               (map (fun '(k, x) =>
                       (json_string k ++ ": " ++ dumps_indent (S level) x)%string)
                    d)
          ++ newline_indent level ++ "}"
  | _ => dumps v
  end.

(** ** [json.loads] *)

Inductive token : Type :=
| TLBrace | TRBrace | TLBracket | TRBracket | TComma | TColon
| TAtom (v : value).

Inductive lex_state : Type :=
| LDefault
| LWord (acc : list ascii)
| LString (acc : list ascii)
| LEscape (acc : list ascii)
| LUnicode (acc : list ascii) (code : nat) (read : nat).

Definition text (rev_acc : list ascii) : string :=
  string_of_list_ascii (rev rev_acc).

Definition is_json_space (c : ascii) : bool :=
  let n := ord c in ((n =? 32) || (n =? 9) || (n =? 10) || (n =? 13))%nat.

(** The characters of numbers and of the literal names. *)
Definition is_word_char (c : ascii) : bool :=
  let n := ord c in
  ((48 <=? n) && (n <=? 57) || (65 <=? n) && (n <=? 90)
   || (97 <=? n) && (n <=? 122) || (n =? 43) || (n =? 45) || (n =? 46))%nat.

Definition hex_value (c : ascii) : option nat :=
  let n := ord c in
  if ((48 <=? n) && (n <=? 57))%nat then Some (n - 48)%nat
  else if ((65 <=? n) && (n <=? 70))%nat then Some (n - 55)%nat
  else if ((97 <=? n) && (n <=? 102))%nat then Some (n - 87)%nat
  else None.

(** A JSON number: an optional minus, an integer part without a leading
    zero (or a single zero), an optional fraction of at least one digit, an
    optional exponent.  It is an [int] without fraction and exponent, a
    [float] with one.  As for [int], the limit on the digits of an integer
    is not part of the embedding ([json.loads] raises [ValueError], which
    is not a [JSONDecodeError], on an integer of more than 4300 digits). *)
Definition json_number (w : string) : option value :=
  let (neg, body) :=
    match w with
    | String "-" r => (true, r)
    | _ => (false, w)
    end in
  match digit_run false body 0 0%nat with
  | Some (i, S ni, r1) =>
      let leading_zero :=
        match body, ni with
        | String "0" _, S _ => true
        | _, _ => false
        end in
      let fraction_ok :=
        match r1 with
        | String "." (String c _) => is_digit c
        | String "." EmptyString => false
        | _ => true
        end in
      if leading_zero || negb fraction_ok then None
      else
        match r1 with
        | EmptyString => Some (VInt (if neg then - i else i))
        | _ =>
            match parse_decimal false body with
            | Some (m, e) => Some (VFloat (float_of_decimal neg m e))
            | None => None
            end
        end
  | _ => None
  end.

Definition word_value (w : string) : option value :=
  if String.eqb w "null" then Some VNone
  else if String.eqb w "true" then Some (VBool true)
  else if String.eqb w "false" then Some (VBool false)
  else if String.eqb w "NaN" then Some (VFloat S754_nan)
  else if String.eqb w "Infinity" then Some (VFloat (S754_infinity false))
  else if String.eqb w "-Infinity" then Some (VFloat (S754_infinity true))
  else json_number w.

(** What a character starts outside of any token. *)
Definition start (c : ascii) : option (lex_state * list token) :=
  if is_json_space c then Some (LDefault, [])
  else if Ascii.eqb c "{" then Some (LDefault, [TLBrace])
  else if Ascii.eqb c "}" then Some (LDefault, [TRBrace])
  else if Ascii.eqb c "[" then Some (LDefault, [TLBracket])
  else if Ascii.eqb c "]" then Some (LDefault, [TRBracket])
  else if Ascii.eqb c "," then Some (LDefault, [TComma])
  else if Ascii.eqb c ":" then Some (LDefault, [TColon])
  else if Ascii.eqb c quote then Some (LString [], [])
  else if is_word_char c then Some (LWord [c], [])
  else None.

Definition unescape (c : ascii) : option ascii :=
  if Ascii.eqb c quote || Ascii.eqb c "\" || Ascii.eqb c "/" then Some c
  else if Ascii.eqb c "b" then Some (chr 8)
  else if Ascii.eqb c "f" then Some (chr 12)
  else if Ascii.eqb c "n" then Some (chr 10)
  else if Ascii.eqb c "r" then Some (chr 13)
  else if Ascii.eqb c "t" then Some (chr 9)
  else None.

Definition emit (toks : list token) (rest : option (list token))
  : option (list token) :=
  match rest with
  | Some l => Some (toks ++ l)
  | None => None
  end.

(** The tokens of a JSON text.  Inside a string a control character is
    refused.  An escape for a code point above 255 has no character in
    this embedding and is refused too, where [json.loads] decodes it: the
    embedding covers the texts whose escapes stay below 256. *)
Fixpoint lex (st : lex_state) (s : string) : option (list token) :=
  match s with
  | EmptyString =>
      match st with
      | LDefault => Some []
      | LWord acc =>
          match word_value (text acc) with
          | Some v => Some [TAtom v]
          | None => None
          end
      | _ => None
      end
  | String c s' =>
      match st with
      | LDefault =>
          match start c with
          | Some (st', toks) => emit toks (lex st' s')
          | None => None
          end
      | LWord acc =>
          if is_word_char c then lex (LWord (c :: acc)) s'
          else
            match word_value (text acc), start c with
            | Some v, Some (st', toks) => emit (TAtom v :: toks) (lex st' s')
            | _, _ => None
            end
      | LString acc =>
          if Ascii.eqb c quote then
            emit [TAtom (VStr (text acc))] (lex LDefault s')
          else if Ascii.eqb c "\" then lex (LEscape acc) s'
          else if (ord c <? 32)%nat then None
          else lex (LString (c :: acc)) s'
      | LEscape acc =>
          if Ascii.eqb c "u" then lex (LUnicode acc 0 0) s'
          else
            match unescape c with
            | Some c' => lex (LString (c' :: acc)) s'
            | None => None
            end
      | LUnicode acc code read =>
          match hex_value c with
          | Some h =>
              let code' := (16 * code + h)%nat in
              if (read =? 3)%nat then
                if (code' <? 256)%nat then lex (LString (chr code' :: acc)) s'
                else None
              else lex (LUnicode acc code' (S read)) s'
          | None => None
          end
      end
  end.

(** A container under construction, its elements latest first. *)
Inductive frame : Type :=
| FList (items : list value)
| FDict (pairs : list (string * value)) (key : option string).

Inductive mode : Type :=
| MValue      (* a value *)
| MFirst      (* a value or the end of the list just opened *)
| MKeyFirst   (* a key or the end of the object just opened *)
| MKey        (* a key *)
| MColon      (* the colon after a key *)
| MNext       (* a comma or the end of the container *)
| MDone (v : value).

Definition push_value (v : value) (stack : list frame)
  : option (mode * list frame) :=
  match stack with
  | [] => Some (MDone v, [])
  | FList items :: st => Some (MNext, FList (v :: items) :: st)
  | FDict pairs (Some k) :: st => Some (MNext, FDict ((k, v) :: pairs) None :: st)
  | FDict _ None :: _ => None
  end.

Definition open_value (tok : token) (stack : list frame)
  : option (mode * list frame) :=
  match tok with
  | TAtom v => push_value v stack
  | TLBracket => Some (MFirst, FList [] :: stack)
  | TLBrace => Some (MKeyFirst, FDict [] None :: stack)
  | _ => None
  end.

Definition set_key (k : string) (stack : list frame)
  : option (mode * list frame) :=
  match stack with
  | FDict pairs None :: st => Some (MColon, FDict pairs (Some k) :: st)
  | _ => None
  end.

Definition step (m : mode) (stack : list frame) (tok : token)
  : option (mode * list frame) :=
  match m, tok, stack with
  | MValue, _, _ => open_value tok stack
  | MFirst, TRBracket, FList [] :: st => push_value (VList []) st
  | MFirst, _, _ => open_value tok stack
  | MKeyFirst, TRBrace, FDict [] None :: st => push_value (VDict []) st
  | MKeyFirst, TAtom (VStr k), _ => set_key k stack
  | MKey, TAtom (VStr k), _ => set_key k stack
  | MColon, TColon, _ => Some (MValue, stack)
  | MNext, TComma, FList _ :: _ => Some (MValue, stack)
  | MNext, TComma, FDict _ None :: _ => Some (MKey, stack)
  | MNext, TRBracket, FList items :: st => push_value (VList (rev items)) st
  | MNext, TRBrace, FDict pairs None :: st =>
      push_value (VDict (dict_of_pairs (rev pairs))) st
  | _, _, _ => None
  end.

Fixpoint parse (m : mode) (stack : list frame) (toks : list token)
  : option value :=
  match toks with
  | [] => match m with MDone v => Some v | _ => None end
  | tok :: toks' =>
      match step m stack tok with
      | Some (m', stack') => parse m' stack' toks'
      | None => None
      end
  end.

(** [json.loads(s)], [None] for [JSONDecodeError].  The resources of the
    interpreter (the depth of nesting it accepts, memory) are not part of
    the model. *)
Definition json_loads (s : string) : option value :=
  match lex LDefault s with
  | Some toks => parse MValue [] toks
  | None => None
  end.

(** The message of the [JSONDecodeError] describes the first error and
    its position in the text; the embedding does not compute it and carries
    the same text for all of them, so that an error of [loads] is known by
    its class only. *)
Definition loads (s : string) : outcome value :=
  match json_loads s with
  | Some v => Ret v
  | None => raise JSONDecodeError "Expecting value"
  end.

(** ** Operators and methods the agents use on parsed values *)

Definition is_str (k : string) (v : value) : bool :=
  match v with
  | VStr s => String.eqb s k
  | _ => false
  end.

(** [k in v] for a string [k] *)
Definition contains_key (k : string) (v : value) : outcome bool :=
  match v with
  | VDict d => Ret (dict_mem k d)
  | VList l => Ret (existsb (is_str k) l)
  | VStr s => Ret (contains k s)
  | _ =>
      raise TypeError
        ("argument of type '" ++ type_name v ++ "' is not iterable")
  end.

(** [v[k]] for a string [k] *)
Definition getitem (v : value) (k : string) : outcome value :=
  match v with
  | VDict d =>
      match dict_get k d with
      | Some x => Ret x
      | None => raise KeyError (str_repr k)
      end
  | VList _ => raise TypeError "list indices must be integers or slices, not str"
  | VStr _ => raise TypeError "string indices must be integers, not 'str'"
  | _ => raise TypeError ("'" ++ type_name v ++ "' object is not subscriptable")
  end.

Definition no_attribute {A} (v : value) (attr : string) : outcome A :=
  raise AttributeError
    ("'" ++ type_name v ++ "' object has no attribute '" ++ attr ++ "'").

(** [v.get(k, default)] *)
Definition get (v : value) (k : string) (default : value) : outcome value :=
  match v with
  | VDict d =>
      match dict_get k d with
      | Some x => Ret x
      | None => Ret default
      end
  | _ => no_attribute v "get"
  end.

(** [v.items()] *)
Definition items (v : value) : outcome (list (string * value)) :=
  match v with
  | VDict d => Ret d
  | _ => no_attribute v "items"
  end.

(** [v[k] = x] on a dict [v] *)
Definition setitem (v : value) (k : string) (x : value) : value :=
  match v with
  | VDict d => VDict (dict_set k x d)
  | _ => v
  end.

(** The hash a dict lookup takes of its key: lists and dicts have none. *)
Definition hashable (v : value) : outcome unit :=
  match v with
  | VList _ | VDict _ =>
      raise TypeError ("unhashable type: '" ++ type_name v ++ "'")
  | _ => Ret tt
  end.

(** [try: body  except handlers: handler] *)
Definition try_except {A} (body : outcome A) (handlers : list exc_class)
  (handler : exn -> outcome A) : outcome A :=
  match body with
  | Ret a => Ret a
  | Raise e => if caught handlers e then handler e else Raise e
  end.

End Py.

Import Py.

(* ================================================================== *)
(** * The two regular expressions *)
(* ================================================================== *)

Module Re.

(** A match of [open(.*?)close] under [re.DOTALL] that starts at the
    leftmost [open]: the group is the text up to the first [close] after
    it.  When no [close] follows the leftmost [open], none follows a later
    one, and the pattern has no match.  Returns the group and the text
    after the match. *)
Definition search_span (open close s : string) : option (string * string) :=
  match find_split open s with
  | Some (_, after_open) => find_split close after_open
  | None => None
  end.

(** [re.search(open(.*?)close, s, re.DOTALL)]: group 1 of the match. *)
Definition search (open close s : string) : option string :=
  match search_span open close s with
  | Some (group, _) => Some group
  | None => None
  end.

Fixpoint findall_from (fuel : nat) (open close s : string) : list string :=
  match fuel with
  | O => []
  | S fuel' =>
      match search_span open close s with
      | Some (group, rest) => group :: findall_from fuel' open close rest
      | None => []
      end
  end.

(** [re.findall(open(.*?)close, s, re.DOTALL)]: group 1 of the successive
    matches, each search resuming after the previous match. *)
Definition findall (open close s : string) : list string :=
  findall_from (S (String.length s)) open close s.

End Re.

(* ================================================================== *)
(** * python_classes/tool_calling_agent/decorators.py *)
(* ================================================================== *)

Module Decorators.

(** What an annotation evaluates to, as far as [param_type.__name__] can
    tell: [Class n] is an object that has a [__name__], which is [n] (a
    class; on recent interpreters also a generic alias of [typing]);
    [Instance t] is an object of type [t] that has none (a string, a
    number, a union written with a bar). *)
Inductive annotation : Type :=
| Class (name : string)
| Instance (of_type : string).

(** A function defined by [def]: its name, its documentation string, its
    parameters in order, each with its annotation when it has one, the
    annotation of its result, and what a call with keyword arguments does. *)
Record callable : Type := mkCallable {
  fn_name : string;
  fn_doc : option string;
  fn_params : list (string * option annotation);
  fn_return : option annotation;
  fn_call : dict -> outcome value
}.

(** [function.__annotations__]: the annotated parameters in order, then the
    entry ["return"] of an annotated result. *)
Definition annotations (f : callable) : list (string * annotation) :=
  flat_map (fun '(p, a) =>
              match a with
              | Some t => [(p, t)]
              | None => []
              end) (fn_params f)
  ++ match fn_return f with
     | Some t => [("return", t)]
     | None => []
     end.

(** [param_type.__name__] *)
Definition dunder_name (a : annotation) : outcome string :=
  match a with
  | Class n => Ret n
  | Instance t =>
      raise AttributeError
        ("'" ++ t ++ "' object has no attribute '__name__'")
  end.

(** The dict comprehension of [extract_function_metadata]. *)
Fixpoint parameter_types (items : list (string * annotation)) (acc : dict)
  : outcome dict :=
  match items with
  | [] => Ret acc
  | (param_name, param_type) :: items' =>
      if negb (String.eqb param_name "return") then
        n <- dunder_name param_type ;;
        parameter_types items'
          (dict_set param_name (VDict [("type", VStr n)]) acc)
      else parameter_types items' acc
  end.

Definition extract_function_metadata (function : callable) : outcome value :=
  types <- parameter_types (annotations function) [] ;;
  Ret (VDict
         [("name", VStr (fn_name function));
          ("description",
            match fn_doc function with
            | Some d => VStr d
            | None => VNone
            end);
          ("parameters", VDict [("properties", VDict types)])]).

(** The converters of [convert_argument_types] in this file. *)
Definition type_converters (tag : string) : option pytype :=
  if String.eqb tag "int" then Some TInt
  else if String.eqb tag "str" then Some TStr
  else if String.eqb tag "bool" then Some TBool
  else if String.eqb tag "float" then Some TFloat
  else None.

(** [type_converters[target_type]] *)
Definition converter_of (target_type : value) : outcome pytype :=
  _ <- hashable target_type ;;
  match target_type with
  | VStr tag =>
      match type_converters tag with
      | Some t => Ret t
      | None => raise KeyError (repr target_type)
      end
  | _ => raise KeyError (repr target_type)
  end.

(** The loop of [convert_argument_types] over the items of the argument
    dict; [args] is that dict as the assignments have left it. *)
Fixpoint convert_items (expected_params : value)
  (items : list (string * value)) (args : dict) : dict * outcome unit :=
  match items with
  | [] => (args, Ret tt)
  | (arg_name, arg_value) :: items' =>
      let converted :=
        entry <- getitem expected_params arg_name ;;
        target_type <- get entry "type" VNone ;;
        t <- converter_of target_type ;;
        if negb (isinstance arg_value t) then
          t' <- converter_of target_type ;;
          x <- convert t' arg_value ;;
          Ret (Some x)
        else Ret None in
      match converted with
      | Raise e => (args, Raise e)
      | Ret (Some x) =>
          convert_items expected_params items' (dict_set arg_name x args)
      | Ret None => convert_items expected_params items' args
      end
  end.

(** [convert_argument_types(tool_invocation, function_spec)]: the
    invocation after the call, and whether the call returned it. *)
Definition convert_argument_types (tool_invocation function_spec : value)
  : value * outcome unit :=
  match (parameters <- getitem function_spec "parameters" ;;
         getitem parameters "properties") with
  | Raise e => (tool_invocation, Raise e)
  | Ret expected_params =>
      match (arguments <- getitem tool_invocation "arguments" ;;
             items arguments) with
      | Raise e => (tool_invocation, Raise e)
      | Ret its =>
          let (args, r) := convert_items expected_params its its in
          (setitem tool_invocation "arguments" (VDict args), r)
      end
  end.

Record Tool : Type := mkTool {
  name : string;
  function : dict -> outcome value;
  specification : string
}.

(** [tool.execute], called with the keyword arguments [kwargs].  The
    method takes them after its receiver [self]: a keyword named [self]
    collides with the receiver and the call raises before the function is
    entered. *)
Definition execute (t : Tool) (kwargs : dict) : outcome value :=
  if dict_mem "self" kwargs then
    raise TypeError "Tool.execute() got multiple values for argument 'self'"
  else function t kwargs.

(** The decorator [tool].  The name it reads back from the metadata is
    [function.__name__] (lemma [metadata_name]). *)
Definition tool (function : callable) : outcome Tool :=
  metadata <- extract_function_metadata function ;;
  Ret (mkTool (fn_name function) (fn_call function) (dumps metadata)).

End Decorators.

(* ================================================================== *)
(** * Conversations and the completion capability *)
(* ================================================================== *)

Record message : Type := mkMessage { role : string; content : string }.

(** What a run does that its caller can observe: a completion call with
    the messages it sent and the text it received, and the dispatch of a
    tool call to [execute_tool]. *)
Inductive event : Type :=
| EvCompletion (messages : list message) (response : string)
| EvDispatch (tool_call : value).

(** The completion capability: the text of
    [llm(model, messages).choices[0].message.content], which may depend on
    everything that happened before the call. *)
Definition completion : Type := list event -> list message -> string.

Definition is_completion (e : event) : bool :=
  match e with EvCompletion _ _ => true | EvDispatch _ => false end.

Definition is_dispatch (e : event) : bool :=
  match e with EvDispatch _ => true | EvCompletion _ _ => false end.

Definition completions (tr : list event) : nat :=
  List.length (filter is_completion tr).

Definition dispatches (tr : list event) : list value :=
  flat_map (fun e => match e with EvDispatch c => [c] | _ => [] end) tr.

(* ================================================================== *)
(** * python_classes/ReAct_agent/agent.py *)
(* ================================================================== *)

Module ReAct.

(** The classes [Tool] and the decorator of this file are those of
    decorators.py, line for line. *)
Definition Tool : Type := Decorators.Tool.
Definition extract_function_metadata := Decorators.extract_function_metadata.
Definition tool := Decorators.tool.

Record agent : Type := mkAgent {
  llm : completion;
  system_prompt : string;
  tools : list (string * Tool);
  conversation_history : list message;
  max_iterations : Z
}.

(** [ReActAgent(llm, system_prompt, tools, max_iterations)] *)
Definition init (llm : completion) (system_prompt : string)
  (tools : list Tool) (max_iterations : Z) : agent :=
  {| llm := llm;
     system_prompt := system_prompt;
     tools := dict_of_pairs (map (fun t => (Decorators.name t, t)) tools);
     conversation_history := [];
     max_iterations := max_iterations |}.

Definition default_max_iterations : Z := 10.

Fixpoint load_specifications (ts : list Tool) : outcome (list value) :=
  match ts with
  | [] => Ret []
  | t :: ts' =>
      spec <- loads (Decorators.specification t) ;;
      rest <- load_specifications ts' ;;
      Ret (spec :: rest)
  end.

Definition format_tools_for_prompt (self : agent) : outcome string :=
  tools_json <- load_specifications (values (tools self)) ;;
  Ret ("<tools>" ++ LF ++ dumps_indent 0 (VList tools_json) ++ LF
         ++ "</tools>")%string.

(** The body of the loop of [extract_tool_calls] for one match: the call to
    append, if any. *)
Definition scan_match (m : string) : outcome (option value) :=
  try_except
    (tool_call <- loads (strip m) ;;
     has_name <- contains_key "name" tool_call ;;
     if has_name then
       has_arguments <- contains_key "arguments" tool_call ;;
       Ret (if has_arguments then Some tool_call else None)
     else Ret None)
    [JSONDecodeError]
    (fun _ => Ret None).

Fixpoint scan_matches (matches : list string) : outcome (list value) :=
  match matches with
  | [] => Ret []
  | m :: matches' =>
      found <- scan_match m ;;
      rest <- scan_matches matches' ;;
      Ret (match found with
           | Some tool_call => tool_call :: rest
           | None => rest
           end)
  end.

Definition extract_tool_calls (response : string) : outcome (list value) :=
  scan_matches (Re.findall "<tool_call>" "</tool_call>" response).

Definition extract_final_response (response : string) : option string :=
  match Re.search "<response>" "</response>" response with
  | Some group => Some (strip group)
  | None => None
  end.

Definition type_mapping (tag : string) : option pytype :=
  if String.eqb tag "int" then Some TInt
  else if String.eqb tag "str" then Some TStr
  else if String.eqb tag "bool" then Some TBool
  else if String.eqb tag "float" then Some TFloat
  else if String.eqb tag "integer" then Some TInt
  else if String.eqb tag "string" then Some TStr
  else if String.eqb tag "boolean" then Some TBool
  else if String.eqb tag "number" then Some TFloat
  else None.

(** [type_mapping[expected_type]] when [expected_type in type_mapping]. *)
Definition lookup_converter (expected_type : value) : outcome (option pytype) :=
  _ <- hashable expected_type ;;
  Ret (match expected_type with
       | VStr tag => type_mapping tag
       | _ => None
       end).

(** The [try] of [convert_argument_types]: the converted value to assign,
    if any. *)
Definition try_convert (converter : pytype) (arg_value : value)
  : outcome (option value) :=
  try_except
    (if negb (isinstance arg_value converter) then
       x <- convert converter arg_value ;;
       Ret (Some x)
     else Ret None)
    [ValueError; TypeError]
    (fun _ => Ret None).

(** One turn of the loop of [convert_argument_types]. *)
Definition convert_item (properties : value) (arg_name : string)
  (arg_value : value) : outcome (option value) :=
  declared <- contains_key arg_name properties ;;
  if declared then
    entry <- getitem properties arg_name ;;
    typed <- contains_key "type" entry ;;
    if typed then
      expected_type <- getitem entry "type" ;;
      converter <- lookup_converter expected_type ;;
      match converter with
      | Some c => try_convert c arg_value
      | None => Ret None
      end
    else Ret None
  else Ret None.

(** The loop over the items of the argument dict; [args] is that dict as
    the assignments have left it. *)
Fixpoint convert_items (properties : value) (items : list (string * value))
  (args : dict) : dict * outcome unit :=
  match items with
  | [] => (args, Ret tt)
  | (arg_name, arg_value) :: items' =>
      match convert_item properties arg_name arg_value with
      | Raise e => (args, Raise e)
      | Ret (Some x) => convert_items properties items' (dict_set arg_name x args)
      | Ret None => convert_items properties items' args
      end
  end.

(** Whether the specification has a [parameters.properties] section, and
    that section. *)
Definition properties_of (tool_spec : value) : outcome (option value) :=
  has_parameters <- contains_key "parameters" tool_spec ;;
  if has_parameters then
    parameters <- getitem tool_spec "parameters" ;;
    has_properties <- contains_key "properties" parameters ;;
    if has_properties then
      parameters' <- getitem tool_spec "parameters" ;;
      properties <- getitem parameters' "properties" ;;
      Ret (Some properties)
    else Ret None
  else Ret None.

(** [convert_argument_types(tool_call, tool_spec)]: the call after the
    assignments, and whether the method returned it or raised. *)
Definition convert_argument_types (tool_call tool_spec : value)
  : value * outcome unit :=
  match properties_of tool_spec with
  | Raise e => (tool_call, Raise e)
  | Ret None => (tool_call, Ret tt)
  | Ret (Some properties) =>
      match (arguments <- getitem tool_call "arguments" ;; items arguments) with
      | Raise e => (tool_call, Raise e)
      | Ret its =>
          let (args, r) := convert_items properties its its in
          (setitem tool_call "arguments" (VDict args), r)
      end
  end.

(** [tool.execute] called with the unpacking of [arguments].  Unpacking a
    value that is not a mapping raises [TypeError]; its message names the
    callee with the module its class was imported from, here the one the
    programs under tests/ use. *)
Definition call_tool (t : Tool) (arguments : value) : outcome value :=
  match arguments with
  | VDict kwargs => Decorators.execute t kwargs
  | _ =>
      raise TypeError
        ("python_classes.tool_calling_agent.decorators.Tool.execute() "
           ++ "argument after ** must be a mapping, not "
           ++ type_name arguments)
  end.

(** [tool_name not in self.tools], with the tool when it is there. *)
Definition find_tool (registry : list (string * Tool)) (tool_name : value)
  : outcome (option Tool) :=
  _ <- hashable tool_name ;;
  Ret (match tool_name with
       | VStr n => dict_get n registry
       | _ => None
       end).

(** The first [try] of [execute_tool]: the arguments as the coercion left
    them, whether it completed or not. *)
Definition validate (handlers : list exc_class) (t : Tool) (arguments : value)
  : value * outcome unit :=
  match loads (Decorators.specification t) with
  | Raise e => (arguments, if caught handlers e then Ret tt else Raise e)
  | Ret tool_spec =>
      let (wrapped, r) :=
        convert_argument_types (VDict [("arguments", arguments)]) tool_spec in
      let arguments' :=
        match wrapped with
        | VDict [(_, a)] => a
        | _ => arguments
        end in
      (arguments',
       match r with
       | Ret _ => Ret tt
       | Raise e => if caught handlers e then Ret tt else Raise e
       end)
  end.

(** [execute_tool(tool_call)]: the tool call after the call, whose argument
    dict the coercion updates in place, and the result. *)
Definition execute_tool (self : agent) (tool_call : value)
  : value * outcome value :=
  match (tool_name <- get tool_call "name" VNone ;;
         arguments <- get tool_call "arguments" (VDict []) ;;
         found <- find_tool (tools self) tool_name ;;
         Ret (tool_name, arguments, found)) with
  | Raise e => (tool_call, Raise e)
  | Ret (tool_name, arguments, None) =>
      (tool_call,
       Ret (VStr ("Error: Tool '" ++ str tool_name ++ "' not found")%string))
  | Ret (tool_name, arguments, Some t) =>
      let (arguments', validated) := validate [Exception] t arguments in
      let tool_call' :=
        match contains_key "arguments" tool_call with
        | Ret true => setitem tool_call "arguments" arguments'
        | _ => tool_call
        end in
      match validated with
      | Raise e => (tool_call', Raise e)
      | Ret _ =>
          (tool_call',
           try_except (call_tool t arguments') [Exception]
             (fun e =>
                Ret (VStr ("Error executing " ++ str tool_name ++ ": "
                             ++ exn_msg e)%string)))
      end
  end.

Record tool_result : Type := mkResult {
  res_tool : value;
  res_arguments : value;
  res_result : value
}.

(** The loop of [run] over the extracted tool calls, for the method
    [execute_tool] of an agent. *)
Fixpoint dispatch_with (execute_tool : value -> value * outcome value)
  (tool_calls : list value) (tr : list event)
  : list event * outcome (list tool_result) :=
  match tool_calls with
  | [] => (tr, Ret [])
  | tool_call :: tool_calls' =>
      let tr1 := tr ++ [EvDispatch tool_call] in
      let (tool_call', r) := execute_tool tool_call in
      match (result <- r ;;
             n <- get tool_call' "name" VNone ;;
             a <- get tool_call' "arguments" VNone ;;
             Ret (mkResult n a result)) with
      | Raise e => (tr1, Raise e)
      | Ret res =>
          let (tr2, rest) := dispatch_with execute_tool tool_calls' tr1 in
          (tr2, match rest with
                | Ret l => Ret (res :: l)
                | Raise e => Raise e
                end)
      end
  end.

Definition dispatch (self : agent) := dispatch_with (execute_tool self).

Definition result_str (result : value) : string :=
  match result with
  | VDict _ | VList _ => dumps_indent 0 result
  | _ => str result
  end.

Fixpoint format_results (results : list tool_result) (results_text : string)
  : string :=
  match results with
  | [] => results_text
  | res :: results' =>
      format_results results'
        (results_text ++ "- " ++ str (res_tool res)
           ++ dumps (res_arguments res) ++ ": "
           ++ result_str (res_result res) ++ LF)%string
  end.

Definition results_text (results : list tool_result) : string :=
  format_results results ("Tool results:" ++ LF)%string.

Definition sentinel : string :=
  "Max iterations reached without a final response.".

Definition remember (self : agent) (m : message) : agent :=
  {| llm := llm self;
     system_prompt := system_prompt self;
     tools := tools self;
     conversation_history := conversation_history self ++ [m];
     max_iterations := max_iterations self |}.

(** The [while] loop of [run]; [None] when [fuel] turns of the loop were
    not enough. *)
Fixpoint loop (fuel : nat) (self : agent) (tr : list event)
  (messages : list message) (iterations : Z)
  : option (agent * list event * outcome string) :=
  if iterations <? max_iterations self then
    match fuel with
    | O => None
    | S fuel' =>
        let iterations := iterations + 1 in
        let model_response := llm self tr messages in
        let tr := tr ++ [EvCompletion messages model_response] in
        match extract_final_response model_response with
        | Some final_response =>
            Some (remember self (mkMessage "assistant" model_response), tr,
                  Ret final_response)
        | None =>
            match extract_tool_calls model_response with
            | Raise e => Some (self, tr, Raise e)
            | Ret [] =>
                Some (remember self (mkMessage "assistant" model_response), tr,
                      Ret model_response)
            | Ret tool_calls =>
                match dispatch self tool_calls tr with
                | (tr, Raise e) => Some (self, tr, Raise e)
                | (tr, Ret tool_results) =>
                    loop fuel' self tr
                      (messages
                         ++ [mkMessage "assistant" model_response;
                             mkMessage "user" (results_text tool_results)])
                      iterations
                end
            end
        end
    end
  else Some (self, tr, Ret sentinel).

Definition copy_message (m : message) : message :=
  mkMessage (role m) (content m).

(** [run(user_input)] after the events [tr]: the agent and the events
    after the run, and what the run returned or raised. *)
Definition run (self : agent) (tr : list event) (user_input : string)
  : option (agent * list event * outcome string) :=
  let self := remember self (mkMessage "user" user_input) in
  match format_tools_for_prompt self with
  | Raise e => Some (self, tr, Raise e)
  | Ret tools_text =>
      let messages :=
        mkMessage "system"
          (system_prompt self ++ LF ++ LF ++ tools_text)%string
        :: map copy_message (conversation_history self) in
      loop (Z.to_nat (max_iterations self)) self tr messages 0
  end.

Definition reset_conversation (self : agent) : agent :=
  {| llm := llm self;
     system_prompt := system_prompt self;
     tools := tools self;
     conversation_history := [];
     max_iterations := max_iterations self |}.

End ReAct.

(* ================================================================== *)
(** * python_classes/tool_calling_agent/agent.py *)
(* ================================================================== *)

Module ToolCalling.

Definition Tool : Type := Decorators.Tool.

Record agent : Type := mkAgent {
  model : completion;
  system_prompt : string;
  tools : list (string * Tool);
  conversation_history : list message
}.

(** [ToolCallingAgent(llm, system_prompt, tools)] *)
Definition init (llm : completion) (system_prompt : string)
  (tools : list Tool) : agent :=
  {| model := llm;
     system_prompt := system_prompt;
     tools := dict_of_pairs (map (fun t => (Decorators.name t, t)) tools);
     conversation_history := [] |}.

(** The entry of one tool; a [Tool] has no [description] attribute.  The
    handlers of the source are [JSONDecodeError] and [AttributeError];
    [loads] raises nothing but the former (lemma [loads_raises]), so the
    second branch is the handler's. *)
Definition tool_json (t : Tool) : value :=
  match loads (Decorators.specification t) with
  | Ret spec => spec
  | Raise _ =>
      VDict [("name", VStr (Decorators.name t));
             ("description", VStr "No description available");
             ("parameters", VDict [("properties", VDict [])])]
  end.

Definition format_tools_for_prompt (self : agent) : string :=
  ("<tools>" ++ LF
     ++ dumps_indent 0 (VList (map tool_json (values (tools self))))
     ++ LF ++ "</tools>")%string.

(** [extract_tool_calls] and [convert_argument_types] are those of
    [ReActAgent], line for line. *)
Definition extract_tool_calls := ReAct.extract_tool_calls.
Definition convert_argument_types := ReAct.convert_argument_types.

(** [execute_tool(tool_call)]; every tool of the registry is a [Tool], which
    has a [specification] and an [execute] method. *)
Definition execute_tool (self : agent) (tool_call : value)
  : value * outcome value :=
  match (tool_name <- get tool_call "name" VNone ;;
         arguments <- get tool_call "arguments" (VDict []) ;;
         found <- ReAct.find_tool (tools self) tool_name ;;
         Ret (tool_name, arguments, found)) with
  | Raise e => (tool_call, Raise e)
  | Ret (tool_name, arguments, None) =>
      (tool_call,
       Ret (VStr ("Error: Tool '" ++ str tool_name ++ "' not found")%string))
  | Ret (tool_name, arguments, Some t) =>
      let (arguments', validated) :=
        ReAct.validate [JSONDecodeError; AttributeError; KeyError] t arguments in
      let tool_call' :=
        match contains_key "arguments" tool_call with
        | Ret true => setitem tool_call "arguments" arguments'
        | _ => tool_call
        end in
      match validated with
      | Raise e => (tool_call', Raise e)
      | Ret _ =>
          (tool_call',
           try_except (ReAct.call_tool t arguments') [Exception]
             (fun e =>
                Ret (VStr ("Error executing " ++ str tool_name ++ ": "
                             ++ exn_msg e)%string)))
      end
  end.

Definition dispatch (self : agent) := ReAct.dispatch_with (execute_tool self).

Definition remember (self : agent) (m : message) : agent :=
  {| model := model self;
     system_prompt := system_prompt self;
     tools := tools self;
     conversation_history := conversation_history self ++ [m] |}.

(** [run(user_input)] after the events [tr]: the agent and the events
    after the run, and what the run returned or raised. *)
Definition run (self : agent) (tr : list event) (user_input : string)
  : agent * list event * outcome string :=
  let self := remember self (mkMessage "user" user_input) in
  let messages :=
    mkMessage "system"
      (system_prompt self ++ LF ++ LF ++ format_tools_for_prompt self)%string
    :: map ReAct.copy_message (conversation_history self) in
  let model_response := model self tr messages in
  let tr := tr ++ [EvCompletion messages model_response] in
  match extract_tool_calls model_response with
  | Raise e => (self, tr, Raise e)
  | Ret [] =>
      (remember self (mkMessage "assistant" model_response), tr,
       Ret model_response)
  | Ret tool_calls =>
      match dispatch self tool_calls tr with
      | (tr, Raise e) => (self, tr, Raise e)
      | (tr, Ret tool_results) =>
          let messages :=
            messages
              ++ [mkMessage "assistant" model_response;
                  mkMessage "user" (ReAct.results_text tool_results)] in
          let final_response := model self tr messages in
          let tr := tr ++ [EvCompletion messages final_response] in
          (remember self (mkMessage "assistant" final_response), tr,
           Ret final_response)
      end
  end.

Definition reset_conversation (self : agent) : agent :=
  {| model := model self;
     system_prompt := system_prompt self;
     tools := tools self;
     conversation_history := [] |}.

End ToolCalling.

(* ================================================================== *)
(** * tests/react_agent.py: the tool [add_two_numbers] *)
(* ================================================================== *)

Module Tests.

Definition operand_error (op : string) (x y : value) : outcome value :=
  raise TypeError
    ("unsupported operand type(s) for " ++ op ++ ": '" ++ type_name x
       ++ "' and '" ++ type_name y ++ "'").

Definition concat_error (x y : value) : outcome value :=
  raise TypeError
    ("can only concatenate " ++ type_name x ++ " (not " ++ String quote EmptyString
       ++ type_name y ++ String quote EmptyString ++ ") to " ++ type_name x).

(** The number an [int] or a [bool] is. *)
Definition as_int (v : value) : option Z :=
  match v with
  | VInt z => Some z
  | VBool b => Some (if b then 1 else 0)
  | _ => None
  end.

Definition as_float (v : value) : option (outcome spec_float) :=
  match v with
  | VFloat f => Some (Ret f)
  | _ =>
      match as_int v with
      | Some z =>
          Some (match float_of_int z with
                | Some f => Ret f
                | None => raise OverflowError "int too large to convert to float"
                end)
      | None => None
      end
  end.

(** [x + y] *)
Definition add (x y : value) : outcome value :=
  match x, y with
  | VStr a, VStr b => Ret (VStr (a ++ b))
  | VStr _, _ => concat_error x y
  | VList a, VList b => Ret (VList (a ++ b))
  | VList _, _ => concat_error x y
  | _, _ =>
      match as_int x, as_int y with
      | Some a, Some b => Ret (VInt (a + b))
      | _, _ =>
          match as_float x, as_float y with
          | Some fx, Some fy =>
              a <- fx ;; b <- fy ;; Ret (VFloat (SFadd prec emax a b))
          | _, _ => operand_error "+" x y
          end
      end
  end.

(** The binding of keyword arguments to the parameters [a] and [b] of
    [add_two_numbers]: an unexpected keyword is reported first, then the
    missing parameters. *)
Definition bind_a_b (kwargs : dict) : outcome (value * value) :=
  match find (fun k => negb (String.eqb k "a" || String.eqb k "b"))
          (keys kwargs) with
  | Some k =>
      raise TypeError
        ("add_two_numbers() got an unexpected keyword argument '" ++ k ++ "'")
  | None =>
      match dict_get "a" kwargs, dict_get "b" kwargs with
      | Some a, Some b => Ret (a, b)
      | None, Some _ =>
          raise TypeError
            "add_two_numbers() missing 1 required positional argument: 'a'"
      | Some _, None =>
          raise TypeError
            "add_two_numbers() missing 1 required positional argument: 'b'"
      | None, None =>
          raise TypeError
            "add_two_numbers() missing 2 required positional arguments: 'a' and 'b'"
      end
  end.

Definition add_two_numbers : Decorators.callable :=
  {| Decorators.fn_name := "add_two_numbers";
     Decorators.fn_doc := Some "Used to add two numbers together";
     Decorators.fn_params :=
       [("a", Some (Decorators.Class "int"));
        ("b", Some (Decorators.Class "int"))];
     Decorators.fn_return := Some (Decorators.Class "int");
     Decorators.fn_call :=
       fun kwargs => ab <- bind_a_b kwargs ;; add (fst ab) (snd ab) |}.

(** The specification the decorator derives for [add_two_numbers]. *)
Definition add_tool_specification : string :=
  Eval vm_compute in
    match Decorators.extract_function_metadata add_two_numbers with
    | Ret metadata => dumps metadata
    | Raise _ => EmptyString
    end.

(** [add_two_numbers] once decorated. *)
Definition add_tool : Decorators.Tool :=
  Decorators.mkTool "add_two_numbers"
    (Decorators.fn_call add_two_numbers) add_tool_specification.

End Tests.

(* ================================================================== *)
(** * Vocabulary of the statements *)
(* ================================================================== *)

Module Vocabulary.

Import Decorators.

(** The tool [t] bears the name [n]. *)
Definition named (n : string) (t : Tool) : bool := String.eqb (name t) n.

(** The invariant of the registry. *)
Definition key_is_name (kt : string * Tool) : Prop := fst kt = name (snd kt).

Definition register (d : list (string * Tool)) (kt : string * Tool) :=
  dict_set (fst kt) (snd kt) d.

(** A ToolCall of the data model: a mapping with a string under ["name"] and
    a mapping under ["arguments"]. *)
Definition is_tool_call (c : value) : bool :=
  match c with
  | VDict d =>
      match dict_get "name" d, dict_get "arguments" d with
      | Some (VStr _), Some (VDict _) => true
      | _, _ => false
      end
  | _ => false
  end.

(** Every registered specification is a JSON text. *)
Definition specs_valid (registry : list (string * Tool)) : Prop :=
  Forall (fun t => json_loads (specification t) <> None) (values registry).

(** [s] contains a span [open ... close]. *)
Definition has_span (open close s : string) : Prop :=
  exists u v w, s = (u ++ open ++ v ++ close ++ w)%string.

(** [pre ++ open ++ inner ++ close ++ post] cuts [s] at its first span: no
    [open] starts before the end of [pre], and no [close] starts in the
    text after that [open] before the end of [inner]. *)
Definition first_span (open close s pre inner post : string) : Prop :=
  s = (pre ++ open ++ inner ++ close ++ post)%string
  /\ (forall u v, s = (u ++ open ++ v)%string ->
                  (String.length pre <= String.length u)%nat)
  /\ (forall u v, (inner ++ close ++ post)%string = (u ++ close ++ v)%string ->
                  (String.length inner <= String.length u)%nat).


Definition observe_tool_calling {A}
  (r : ToolCalling.agent * list event * outcome A)
  : list message * list event * outcome A :=
  let '(a, tr, o) := r in (ToolCalling.conversation_history a, tr, o).

(** The specification has no [parameters.properties] section: it is a
    mapping without ["parameters"], or its ["parameters"] is a mapping
    without ["properties"]. *)
Definition lacks_properties (tool_spec : value) : bool :=
  match tool_spec with
  | VDict spec =>
      match dict_get "parameters" spec with
      | None => true
      | Some (VDict parameters) => negb (dict_mem "properties" parameters)
      | Some _ => false
      end
  | _ => false
  end.

(** The [parameters.properties] section of a specification. *)
Definition properties_section (tool_spec : value) : option value :=
  match tool_spec with
  | VDict spec =>
      match dict_get "parameters" spec with
      | Some (VDict parameters) => dict_get "properties" parameters
      | _ => None
      end
  | _ => None
  end.

(** The argument [k] with the value [v] asks for no conversion: the
    properties do not mention [k], or they give it no type or a tag outside
    the table, or the tag is that of a type of which [v] is an instance. *)
Definition already_typed (properties : dict) (k : string) (v : value) : bool :=
  match dict_get k properties with
  | None => true
  | Some (VDict entry) =>
      match dict_get "type" entry with
      | None => true
      | Some (VStr tag) =>
          match ReAct.type_mapping tag with
          | Some t => isinstance v t
          | None => true
          end
      | Some _ => false
      end
  | Some _ => false
  end.

(** The properties declare the tag [tag] for the argument [k]. *)
Definition declares (properties : dict) (k tag : string) : bool :=
  match dict_get k properties with
  | Some (VDict entry) =>
      match dict_get "type" entry with
      | Some (VStr tag') => String.eqb tag' tag
      | _ => false
      end
  | _ => false
  end.

(** The names of the parameters of a function, and of those that carry an
    annotation. *)
Definition declared_names (f : callable) : list string :=
  map fst (fn_params f).

Definition annotated_names (f : callable) : list string :=
  flat_map (fun '(p, a) =>
              match a with
              | Some _ => [p]
              | None => []
              end) (fn_params f).

(** The annotated parameters with their annotations, and the entry of
    the properties that an annotated parameter gets. *)
Definition annotated (params : list (string * option annotation))
  : list (string * annotation) :=
  flat_map (fun '(p, a) =>
              match a with
              | Some t => [(p, t)]
              | None => []
              end) params.

Definition entry_of (pa : string * annotation) : string * value :=
  (fst pa,
   VDict [("type", VStr match snd pa with
                        | Class n => n
                        | Instance t => t
                        end)]).

(** The parameter names of a specification, and the type tag it gives to
    a parameter. *)
Definition parameter_names (metadata : value) : option (list string) :=
  match properties_section metadata with
  | Some (VDict props) => Some (keys props)
  | _ => None
  end.

Definition type_tag (metadata : value) (p : string) : option value :=
  match properties_section metadata with
  | Some (VDict props) =>
      match dict_get p props with
      | Some (VDict entry) => dict_get "type" entry
      | _ => None
      end
  | _ => None
  end.

(** A JSON text between double quotes. *)
Definition dq (s : string) : string := String quote s ++ String quote EmptyString.

End Vocabulary.

(* ================================================================== *)
(** * Completion capabilities and responses of the scenarios *)
(* ================================================================== *)

Module Scenarios.

Import Vocabulary.

(** A capability that always answers [r]. *)
Definition always (r : string) : completion := fun _ _ => r.

(** A capability that answers with the texts of [rs] in turn, then with
    [r]. *)
Definition scripted (rs : list string) (r : string) : completion :=
  fun tr _ => nth (completions tr) rs r.

Definition tool_call_span (payload : string) : string :=
  ("<tool_call>" ++ payload ++ "</tool_call>")%string.

(** A call of [add_two_numbers] with the strings ["10"] and ["20"]. *)
Definition call_add : string :=
  tool_call_span
    ("{" ++ dq "name" ++ ": " ++ dq "add_two_numbers" ++ ", "
         ++ dq "arguments" ++ ": {" ++ dq "a" ++ ": " ++ dq "10" ++ ", "
         ++ dq "b" ++ ": " ++ dq "20" ++ "}}")%string.




(** A call of [add_two_numbers] whose first argument is the number
    [1e999]. *)
Definition call_add_huge : string :=
  tool_call_span
    ("{" ++ dq "name" ++ ": " ++ dq "add_two_numbers" ++ ", "
         ++ dq "arguments" ++ ": {" ++ dq "a" ++ ": 1e999, "
         ++ dq "b" ++ ": 1}}")%string.

Definition final_42 : string := "<response>The answer is 42.</response>".

(** A response that holds a final answer, with white space around it,
    between some text and a tool call. *)
Definition padded_42 : string :=
  ("Sure. <response> The answer is 42." ++ LF ++ "</response> " ++ call_add)%string.

(** A specification that declares one tag for each of the given
    parameters. *)
Definition spec_of (declared : list (string * string)) : value :=
  VDict
    [("name", VStr "f");
     ("description", VNone);
     ("parameters",
       VDict
         [("properties",
            VDict (map (fun '(p, tag) => (p, VDict [("type", VStr tag)]))
                     declared))])].

(** A tool call, as the dispatcher wraps its arguments for the coercion. *)
Definition wrapped (arguments : dict) : value :=
  VDict [("arguments", VDict arguments)].

Definition infinity : value := VFloat (S754_infinity false).

(** A function whose first parameter carries no annotation:
    [def f(a, b: int) -> int]. *)
Definition half_annotated : Decorators.callable :=
  {| Decorators.fn_name := "f";
     Decorators.fn_doc := None;
     Decorators.fn_params :=
       [("a", None); ("b", Some (Decorators.Class "int"))];
     Decorators.fn_return := Some (Decorators.Class "int");
     Decorators.fn_call := fun _ => Ret VNone |}.

(** A function whose parameter is annotated with a string, as with
    [def f(a: "int")]. *)
Definition string_annotated : Decorators.callable :=
  {| Decorators.fn_name := "f";
     Decorators.fn_doc := None;
     Decorators.fn_params := [("a", Some (Decorators.Instance "str"))];
     Decorators.fn_return := None;
     Decorators.fn_call := fun _ => Ret VNone |}.


End Scenarios.

(* ================================================================== *)
(** * python_classes/reflection_agent/main.py *)
(* ================================================================== *)

Module Reflection.

(** The agent, with [self.client.chat.completions.create] as a completion
    capability for each model name.  [display_markdown] and the printing
    that [display_steps] switches on have no counterpart. *)
Record agent : Type := mkAgent {
  client : string -> completion;
  model : string;
  generator_prompts : list message;
  reflection_prompts : list message;
  generated_code : option string;
  reflection_feedback : option string;
  improved_code : option string;
  num_steps : Z
}.

(** [ReflectionAgent(generator_prompts, reflection_prompts, num_steps,
    model)] *)
Definition init (client : string -> completion)
  (generator_prompts reflection_prompts : list message) (num_steps : Z)
  (model : string) : agent :=
  {| client := client;
     model := model;
     generator_prompts := generator_prompts;
     reflection_prompts := reflection_prompts;
     generated_code := None;
     reflection_feedback := None;
     improved_code := None;
     num_steps := num_steps |}.

Definition default_num_steps : Z := 1.
Definition default_model : string := "gpt-4o".

(** What an f-string prints for an attribute that holds a text or [None]. *)
Definition shown (o : option string) : string :=
  str match o with
      | Some s => VStr s
      | None => VNone
      end.

Definition code_notice : string :=
  "Here is the code generated by the generator block: ".

Definition feedback_notice : string :=
  "Here is the feedback from the reflection block: ".

Definition generate_code (self : agent) (tr : list event)
  (user_prompt : string) : agent * list event * string :=
  let prompts := generator_prompts self ++ [mkMessage "user" user_prompt] in
  let response := client self (model self) tr prompts in
  ({| client := client self;
      model := model self;
      generator_prompts := prompts;
      reflection_prompts := reflection_prompts self;
      generated_code := Some response;
      reflection_feedback := reflection_feedback self;
      improved_code := improved_code self;
      num_steps := num_steps self |},
   tr ++ [EvCompletion prompts response], response).

Definition reflect_on_code (self : agent) (tr : list event)
  : agent * list event * string :=
  let prompts :=
    reflection_prompts self
      ++ [mkMessage "user" (code_notice ++ shown (generated_code self))] in
  let response := client self (model self) tr prompts in
  ({| client := client self;
      model := model self;
      generator_prompts := generator_prompts self;
      reflection_prompts := prompts;
      generated_code := generated_code self;
      reflection_feedback := Some response;
      improved_code := improved_code self;
      num_steps := num_steps self |},
   tr ++ [EvCompletion prompts response], response).

Definition improve_code (self : agent) (tr : list event)
  : agent * list event * string :=
  let prompts :=
    generator_prompts self
      ++ [mkMessage "user"
            (feedback_notice ++ shown (reflection_feedback self))] in
  let response := client self (model self) tr prompts in
  ({| client := client self;
      model := model self;
      generator_prompts := prompts;
      reflection_prompts := reflection_prompts self;
      generated_code := generated_code self;
      reflection_feedback := reflection_feedback self;
      improved_code := Some response;
      num_steps := num_steps self |},
   tr ++ [EvCompletion prompts response], response).

(** The assignment [self.generated_code = self.improved_code]. *)
Definition adopt_improved (self : agent) : agent :=
  {| client := client self;
     model := model self;
     generator_prompts := generator_prompts self;
     reflection_prompts := reflection_prompts self;
     generated_code := improved_code self;
     reflection_feedback := reflection_feedback self;
     improved_code := improved_code self;
     num_steps := num_steps self |}.

(** The [for] loop of [run] over [range(n)]. *)
Fixpoint steps (n : nat) (self : agent) (tr : list event)
  : agent * list event :=
  match n with
  | O => (self, tr)
  | S n' =>
      let '(self1, tr1, _) := reflect_on_code self tr in
      let '(self2, tr2, _) := improve_code self1 tr1 in
      steps n' (adopt_improved self2) tr2
  end.

(** [run(user_prompt)]: the agent and the events after the run, and the
    value of [self.improved_code] that it returns. *)
Definition run (self : agent) (tr : list event) (user_prompt : string)
  : agent * list event * option string :=
  let '(self1, tr1, _) := generate_code self tr user_prompt in
  let (self2, tr2) := steps (Z.to_nat (num_steps self1)) self1 tr1 in
  (self2, tr2, improved_code self2).

End Reflection.

(* ================================================================== *)
(** * Vocabulary of the further statements *)
(* ================================================================== *)

Module Properties.

Import Decorators Vocabulary.

(** The completion calls [evs] pass the latest text on: each call ends with
    a user message that quotes the response of the call before it, as code
    for the reflection block and as feedback for the generator in turn;
    [prev] is the response before the first call of [evs]. *)
Fixpoint relayed (prev : string) (to_reflection : bool) (evs : list event)
  : Prop :=
  match evs with
  | [] => True
  | EvCompletion msgs r :: evs' =>
      (exists before,
          msgs = before
                   ++ [mkMessage "user"
                         ((if to_reflection then Reflection.code_notice
                           else Reflection.feedback_notice) ++ prev)])
      /\ relayed r (negb to_reflection) evs'
  | EvDispatch _ :: _ => False
  end.

Definition from_user (m : message) : Prop := role m = "user".

End Properties.

(* ================================================================== *)
(** * Vocabulary of the statements on dispatch and runs *)
(* ================================================================== *)

Module RunProperties.

Import Decorators Vocabulary.

(** The calls of [calls] up to and including the first one on which
    [execute_tool] raises, with that error. *)
Fixpoint until_raise (exec : value -> value * outcome value)
  (calls : list value) : list value * option exn :=
  match calls with
  | [] => ([], None)
  | c :: cs =>
      match snd (exec c) with
      | Raise e => ([c], Some e)
      | Ret _ =>
          let (l, o) := until_raise exec cs in (c :: l, o)
      end
  end.

(** The results that [execute_tool] returns on [calls]. *)
Definition returned (exec : value -> value * outcome value)
  (calls : list value) : list value :=
  flat_map (fun c => match snd (exec c) with
                     | Ret v => [v]
                     | Raise _ => []
                     end) calls.


Definition is_unhashable (v : value) : bool :=
  match v with
  | VList _ | VDict _ => true
  | _ => false
  end.


(** How a run of the ReAct agent ends, for the history [before] the run,
    the user's message, the history [after] the run, the events [new] of
    the run and its outcome.  Either the run returns on the response [r] of
    its last completion call, and it has appended the user's message and
    [r]; or it runs out of turns, or raises, and the user's message is all
    it has appended. *)
Inductive react_ending (before : list message) (user_input : string)
  (after : list message) (new : list event) : outcome string -> Prop :=
| EndAnswered (pre : list event) (msgs : list message) (r : string)
    (o : outcome string) :
    new = pre ++ [EvCompletion msgs r] ->
    after = before ++ [mkMessage "user" user_input; mkMessage "assistant" r] ->
    o = Ret r
    \/ (exists t, ReAct.extract_final_response r = Some t /\ o = Ret t) ->
    react_ending before user_input after new o
| EndExhausted :
    after = before ++ [mkMessage "user" user_input] ->
    react_ending before user_input after new
      (Ret "Max iterations reached without a final response."%string)
| EndRaised (e : exn) :
    after = before ++ [mkMessage "user" user_input] ->
    react_ending before user_input after new (Raise e).

Definition starts_clean (s : string) : bool :=
  match s with
  | String c _ => negb (isspace c)
  | EmptyString => true
  end.

End RunProperties.

(* ================================================================== *)
(** * Vocabulary of the statements on registries *)
(* ================================================================== *)

Module RegistryProperties.

(** The names of [names] that are not in [seen], each at its first
    occurrence. *)
Fixpoint first_occurrences (seen names : list string) : list string :=
  match names with
  | [] => []
  | n :: names' =>
      if existsb (String.eqb n) seen then first_occurrences seen names'
      else n :: first_occurrences (seen ++ [n]) names'
  end.

End RegistryProperties.

(* ================================================================== *)
(** * Vocabulary of the statements on the coercion *)
(* ================================================================== *)

Module CoercionProperties.

Import Decorators.

(** The converter that the loop of [convert_argument_types] finds for the
    argument [arg_name]: the lookups of one turn, up to the [try]. *)
Definition converter_for (properties : value) (arg_name : string)
  : outcome (option pytype) :=
  declared <- contains_key arg_name properties ;;
  if declared then
    entry <- getitem properties arg_name ;;
    typed <- contains_key "type" entry ;;
    if typed then
      expected_type <- getitem entry "type" ;;
      ReAct.lookup_converter expected_type
    else Ret None
  else Ret None.

(** An argument as a completed coercion leaves it. *)
Definition coerced (properties : value) (kv : string * value)
  : string * value :=
  (fst kv,
   match ReAct.convert_item properties (fst kv) (snd kv) with
   | Ret (Some x) => x
   | _ => snd kv
   end).


End CoercionProperties.

(* ================================================================== *)
(** * Vocabulary of the statements on decorators.py *)
(* ================================================================== *)

Module DecoratorProperties.

Import Decorators.

(** One turn of the loop of the standalone [convert_argument_types]: the
    converted value to assign, if any. *)
Definition strict_item (expected_params : value) (arg_name : string)
  (arg_value : value) : outcome (option value) :=
  entry <- getitem expected_params arg_name ;;
  target_type <- get entry "type" VNone ;;
  t <- converter_of target_type ;;
  if negb (isinstance arg_value t) then
    t' <- converter_of target_type ;;
    x <- convert t' arg_value ;;
    Ret (Some x)
  else Ret None.

(** A parameter whose annotation is not a class. *)
Definition badly_annotated (f : callable) : Prop :=
  exists p t, In (p, Some (Instance t)) (fn_params f).

End DecoratorProperties.

(* ================================================================== *)
(** * Vocabulary of the statements on JSON texts *)
(* ================================================================== *)

Module JsonProperties.

Import Decorators.

Fixpoint distinct (l : list string) : bool :=
  match l with
  | [] => true
  | x :: l' => negb (existsb (String.eqb x) l') && distinct l'
  end.

(** The integers that [str] and [int] convert whatever the interpreter:
    those of at most 4300 digits, the default limit of recent ones. *)
Definition within_digit_limit (z : Z) : bool := Z.abs z <? 10 ^ 4300.

(** The values that [json.dumps] and [json.loads] carry without loss:
    built from [None], booleans, integers within the limit of digits,
    strings, lists and mappings with distinct keys. *)
Fixpoint plain (v : value) : bool :=
  match v with
  | VNone | VBool _ | VStr _ => true
  | VInt z => within_digit_limit z
  | VFloat _ => false
  | VList l => forallb plain l
  | VDict d => distinct (keys d) && forallb (fun '(_, x) => plain x) d
  end.

Fixpoint sep_concat (ls : list (list token)) : list token :=
  match ls with
  | [] => []
  | [x] => x
  | x :: ls' => x ++ TComma :: sep_concat ls'
  end.

(** The tokens of the text that [json.dumps] prints for a value. *)
Fixpoint tokens (v : value) : list token :=
  match v with
  | VList l => TLBracket :: sep_concat (map tokens l) ++ [TRBracket]
  | VDict d =>
      TLBrace
        :: sep_concat
             (map (fun '(k, x) => TAtom (VStr k) :: TColon :: tokens x) d)
        ++ [TRBrace]
  | _ => [TAtom v]
  end.

(** A text that cannot continue a number or a literal name. *)
Definition closes (rest : string) : bool :=
  match rest with
  | EmptyString => true
  | String c _ => negb (is_word_char c)
  end.

(** What it is for the parser to read the tokens of [v] as [v], in any
    place where a value may stand. *)
Definition parses (v : value) : Prop :=
  forall m stack rest,
    m = MValue \/ m = MFirst ->
    parse m stack (tokens v ++ rest)
    = match push_value v stack with
      | Some (m', stack') => parse m' stack' rest
      | None => None
      end.



End JsonProperties.

(* ================================================================== *)
(** * The texts and values within the reach of the embedding *)
(* ================================================================== *)

Module ScopeProperties.

Import Decorators RunProperties JsonProperties.

(** Every [\u] of the text is followed by [00]: the escapes of its JSON
    strings denote code points below 256, which the strings of this
    development hold. *)
Fixpoint low_escapes (s : string) : bool :=
  match s with
  | EmptyString => true
  | String _ s' =>
      match strip_prefix "\u" s with
      | Some rest =>
          match strip_prefix "00" rest with
          | Some _ => true
          | None => false
          end
      | None => true
      end
      && low_escapes s'
  end.

(** The default limit of recent interpreters on the digits of an integer
    that is read from, or printed as, a decimal text. *)
Definition digit_limit : nat := 4300.

(** No run of consecutive decimal digits of the text is longer than
    [limit]; [run] digits precede [s] in the run under way. *)
Fixpoint digit_runs_within (limit : nat) (s : string) (run : nat) : bool :=
  match s with
  | EmptyString => true
  | String c s' =>
      if is_digit c then
        (S run <=? limit)%nat && digit_runs_within limit s' (S run)
      else digit_runs_within limit s' 0
  end.

(** The texts on which [json_loads] is [json.loads]: no escape above
    255, no integer beyond the limit of digits. *)
Definition in_scope (s : string) : bool :=
  low_escapes s && digit_runs_within digit_limit s 0.


Fixpoint digit_count (s : string) : nat :=
  match s with
  | EmptyString => 0
  | String c s' => ((if is_digit c then 1 else 0) + digit_count s')%nat
  end.

(** The values on which the converters and [json.dumps] never meet the
    limit of digits: their integers have at most 4300 digits, and so have
    the integers that their strings may spell. *)
Fixpoint limit_free (v : value) : bool :=
  match v with
  | VInt z => within_digit_limit z
  | VStr s => (digit_count s <=? digit_limit)%nat
  | VList l => forallb limit_free l
  | VDict d => forallb (fun '(_, x) => limit_free x) d
  | VNone | VBool _ | VFloat _ => true
  end.


Fixpoint all_space (s : string) : bool :=
  match s with
  | EmptyString => true
  | String c s' => isspace c && all_space s'
  end.

Fixpoint ends_clean (s : string) : bool :=
  match s with
  | EmptyString => true
  | String c s' =>
      match s' with
      | EmptyString => negb (isspace c)
      | String _ _ => ends_clean s'
      end
  end.

(** [t] is [s] without its leading and trailing white space. *)
Definition trimmed (s t : string) : Prop :=
  exists l r,
    s = (l ++ t ++ r)%string
    /\ all_space l = true /\ all_space r = true
    /\ starts_clean t = true /\ ends_clean t = true.




End ScopeProperties.

(* ================================================================== *)
(** * Facts about text and dicts *)
(* ================================================================== *)

Section TextFacts.

Lemma strip_prefix_Some (pat s r : string) :
  strip_prefix pat s = Some r <-> s = (pat ++ r)%string.
Proof.
  revert s; induction pat as [|a pat IH]; intros s; simpl.
  - split; intros H; [now inversion H | now subst].
  - destruct s as [|b s]; [split; discriminate|].
    destruct (Ascii.eqb_spec a b) as [->|Hne].
    + rewrite IH. split; intros H; [now subst | now inversion H].
    + split; [discriminate | intros H; simpl in H; congruence].
Qed.

Lemma find_split_unfold (pat s : string) :
  find_split pat s =
  match strip_prefix pat s with
  | Some rest => Some (EmptyString, rest)
  | None =>
      match s with
      | EmptyString => None
      | String c s' =>
          match find_split pat s' with
          | Some (before, rest) => Some (String c before, rest)
          | None => None
          end
      end
  end.
Proof. destruct s; reflexivity. Qed.

Lemma find_split_sound (pat s b r : string) :
  find_split pat s = Some (b, r) -> s = (b ++ pat ++ r)%string.
Proof.
  revert b r; induction s as [|c s IH]; intros b r; rewrite find_split_unfold.
  - destruct (strip_prefix pat EmptyString) eqn:E; [|discriminate].
    intros H; inversion H; subst. now apply strip_prefix_Some in E.
  - destruct (strip_prefix pat (String c s)) eqn:E.
    + intros H; inversion H; subst. now apply strip_prefix_Some in E.
    + destruct (find_split pat s) as [[b' r']|] eqn:F; [|discriminate].
      intros H; inversion H; subst. simpl. f_equal. now apply IH.
Qed.

Lemma find_split_first (pat s b r : string) :
  find_split pat s = Some (b, r) ->
  forall u v, s = (u ++ pat ++ v)%string ->
              (String.length b <= String.length u)%nat.
Proof.
  revert b r; induction s as [|c s IH]; intros b r; rewrite find_split_unfold.
  - destruct (strip_prefix pat EmptyString) eqn:E; [|discriminate].
    intros H; inversion H; subst. intros; simpl; lia.
  - destruct (strip_prefix pat (String c s)) eqn:E.
    + intros H; inversion H; subst. intros; simpl; lia.
    + destruct (find_split pat s) as [[b' r']|] eqn:F; [|discriminate].
      intros H; inversion H; subst. intros u v Huv.
      destruct u as [|c' u].
      * simpl in Huv. apply strip_prefix_Some in Huv. congruence.
      * simpl in Huv. inversion Huv; subst. simpl.
        apply le_n_S. eapply IH; eauto.
Qed.

Lemma find_split_complete (pat s u v : string) :
  s = (u ++ pat ++ v)%string -> exists b r, find_split pat s = Some (b, r).
Proof.
  revert s; induction u as [|c u IH]; intros s ->; rewrite find_split_unfold.
  - simpl. destruct (strip_prefix pat (pat ++ v)) eqn:E; eauto.
    assert (H : strip_prefix pat (pat ++ v) = Some v)
      by now apply strip_prefix_Some.
    congruence.
  - simpl. destruct (strip_prefix pat (String c (u ++ pat ++ v))); eauto.
    destruct (IH _ eq_refl) as (b & r & ->). eauto.
Qed.

Lemma string_length_append (a b : string) :
  String.length (a ++ b) = (String.length a + String.length b)%nat.
Proof. induction a; simpl; auto. Qed.

Lemma dict_get_set_same {V} (k : string) (v : V) (d : list (string * V)) :
  dict_get k (dict_set k v d) = Some v.
Proof.
  induction d as [|[k' v'] d IH]; simpl.
  - now rewrite String.eqb_refl.
  - destruct (String.eqb k k') eqn:E; simpl; rewrite ?String.eqb_refl, ?E; auto.
Qed.

Lemma dict_get_set_other {V} (k k' : string) (v : V) (d : list (string * V)) :
  k <> k' -> dict_get k (dict_set k' v d) = dict_get k d.
Proof.
  intros Hne. induction d as [|[k'' v''] d IH]; simpl.
  - destruct (String.eqb_spec k k'); [contradiction | reflexivity].
  - destruct (String.eqb_spec k' k'') as [->|Hne']; simpl.
    + destruct (String.eqb_spec k k''); [contradiction | reflexivity].
    + destruct (String.eqb_spec k k''); auto.
Qed.

Lemma dict_set_unchanged {V} (k : string) (v : V) (d : list (string * V)) :
  dict_get k d = Some v -> dict_set k v d = d.
Proof.
  induction d as [|[k' v'] d IH]; simpl; [discriminate|].
  destruct (String.eqb_spec k k') as [->|Hne].
  - intros H; inversion H; reflexivity.
  - intros H. now rewrite IH.
Qed.

Lemma dict_get_In {V} (k : string) (v : V) (d : list (string * V)) :
  dict_get k d = Some v -> In (k, v) d.
Proof.
  induction d as [|[k' v'] d IH]; simpl; [discriminate|].
  destruct (String.eqb_spec k k') as [->|Hne].
  - intros H; inversion H; auto.
  - auto.
Qed.

Lemma dict_get_None {V} (k : string) (d : list (string * V)) :
  dict_get k d = None <-> ~ In k (keys d).
Proof.
  induction d as [|[k' v'] d IH]; simpl; [tauto|].
  destruct (String.eqb_spec k k') as [->|Hne].
  - split; [discriminate | intros H; exfalso; auto].
  - rewrite IH. split; intros H; [intros [E|E]; [congruence | auto] | auto].
Qed.

Lemma In_dict_get {V} (k : string) (v : V) (d : list (string * V)) :
  NoDup (keys d) -> In (k, v) d -> dict_get k d = Some v.
Proof.
  induction d as [|[k' v'] d IH]; simpl; [tauto|].
  intros Hnd [E|Hin].
  - inversion E; subst. now rewrite String.eqb_refl.
  - inversion Hnd; subst.
    destruct (String.eqb_spec k k') as [->|Hne]; auto.
    exfalso. apply H1. change (In k' (map fst d)).
    now apply (in_map fst) in Hin.
Qed.

Lemma keys_dict_set {V} (k : string) (v : V) (d : list (string * V)) :
  keys (dict_set k v d) = if dict_mem k d then keys d else keys d ++ [k].
Proof.
  unfold dict_mem. induction d as [|[k' v'] d IH]; simpl; auto.
  destruct (String.eqb_spec k k') as [->|Hne]; simpl; auto.
  rewrite IH. destruct (dict_get k d); auto.
Qed.

End TextFacts.

(* ================================================================== *)
(** * The registry *)
(* ================================================================== *)

Section Registry.

Import Decorators Vocabulary.

Lemma find_app {A} (p : A -> bool) (l1 l2 : list A) :
  find p (l1 ++ l2) =
  match find p l1 with Some x => Some x | None => find p l2 end.
Proof. induction l1 as [|a l1 IH]; simpl; auto. destruct (p a); auto. Qed.

Lemma registry_fold_get (ts : list Tool) (acc : list (string * Tool)) (n : string) :
  dict_get n (fold_left register (map (fun t => (name t, t)) ts) acc) =
  match find (named n) (rev ts) with
  | Some t => Some t
  | None => dict_get n acc
  end.
Proof.
  revert acc; induction ts as [|t ts IH]; intros acc; simpl; auto.
  rewrite IH, find_app. destruct (find (named n) (rev ts)); auto.
  simpl. unfold named, register; simpl.
  destruct (String.eqb_spec (name t) n) as [<-|Hne].
  - apply dict_get_set_same.
  - apply dict_get_set_other. congruence.
Qed.

Lemma registry_get (ts : list Tool) (n : string) :
  dict_get n (dict_of_pairs (map (fun t => (name t, t)) ts)) =
  find (named n) (rev ts).
Proof.
  unfold dict_of_pairs.
  change (fun d (kv : string * Tool) => dict_set (fst kv) (snd kv) d)
    with register.
  rewrite registry_fold_get. now destruct (find (named n) (rev ts)).
Qed.

Lemma dict_set_keeps (P : string * Tool -> Prop) k v (d : list (string * Tool)) :
  Forall P d -> P (k, v) -> Forall P (dict_set k v d).
Proof.
  intros Hd Hkv. induction Hd as [|[k' v'] d Hx Hd IH]; simpl; auto.
  destruct (String.eqb k k'); auto.
Qed.

Lemma registry_keys_are_names (ts : list Tool) :
  Forall key_is_name (dict_of_pairs (map (fun t => (name t, t)) ts)).
Proof.
  unfold dict_of_pairs.
  assert (G : forall acc, Forall key_is_name acc ->
            Forall key_is_name
              (fold_left (fun d (kv : string * Tool) =>
                            dict_set (fst kv) (snd kv) d)
                 (map (fun t => (name t, t)) ts) acc)).
  { induction ts as [|t ts IH]; intros acc Hacc; simpl; auto.
    apply IH. apply dict_set_keeps; auto. reflexivity. }
  apply G. constructor.
Qed.

End Registry.

(* ================================================================== *)
(** * Dispatch and the loop of the ReAct agent *)
(* ================================================================== *)

Section ReActFacts.

Import Decorators Vocabulary ReAct.

Lemma caught_Exception (e : exn) : caught [Exception] e = true.
Proof. destruct e as [[] m]; reflexivity. Qed.

(** The one error of [loads]. *)
Lemma loads_raises (s : string) (e : exn) :
  loads s = Raise e -> exn_class e = JSONDecodeError.
Proof.
  unfold loads. destruct (json_loads s); [discriminate|].
  intros H. now inversion H.
Qed.

#[local] Arguments caught : simpl never.

Lemma validate_all_caught (t : Tool) (arguments : value) :
  snd (validate [Exception] t arguments) = Ret tt.
Proof.
  unfold validate. destruct (loads (specification t)) as [spec|e]; simpl.
  - destruct (convert_argument_types _ spec) as [w [u|e]]; simpl; auto.
    now rewrite caught_Exception.
  - now rewrite caught_Exception.
Qed.

Lemma execute_tool_not_found (self : agent) (d : dict) (n : string) :
  dict_get "name" d = Some (VStr n) ->
  dict_get n (tools self) = None ->
  execute_tool self (VDict d) =
  (VDict d, Ret (VStr ("Error: Tool '" ++ n ++ "' not found")%string)).
Proof.
  intros Hn Ht. unfold execute_tool, get, find_tool. rewrite Hn. simpl.
  destruct (dict_get "arguments" d); simpl; now rewrite Ht.
Qed.

Lemma execute_tool_found (self : agent) (d : dict) (n : string)
  (arguments : value) (t : Tool) :
  dict_get "name" d = Some (VStr n) ->
  dict_get "arguments" d = Some arguments ->
  dict_get n (tools self) = Some t ->
  execute_tool self (VDict d) =
  (VDict (dict_set "arguments" (fst (validate [Exception] t arguments)) d),
   match call_tool t (fst (validate [Exception] t arguments)) with
   | Ret x => Ret x
   | Raise e =>
       Ret (VStr ("Error executing " ++ n ++ ": " ++ exn_msg e)%string)
   end).
Proof.
  intros Hn Ha Ht. unfold execute_tool, get, find_tool. rewrite Hn, Ha. simpl.
  rewrite Ht.
  pose proof (validate_all_caught t arguments) as Hv.
  destruct (validate [Exception] t arguments) as [a' v]. simpl in *. subst v.
  unfold dict_mem. rewrite Ha. unfold try_except.
  destruct (call_tool t a'); auto. now rewrite caught_Exception.
Qed.

Lemma execute_tool_returns (self : agent) (c : value) :
  is_tool_call c = true ->
  exists d' v, execute_tool self c = (VDict d', Ret v).
Proof.
  destruct c as [| | | | |l|d]; try discriminate. simpl.
  destruct (dict_get "name" d) as [[| | | |n| |]|] eqn:Hn; try discriminate.
  destruct (dict_get "arguments" d) as [a|] eqn:Ha; try discriminate.
  intros _. destruct (dict_get n (tools self)) as [t|] eqn:Ht.
  - rewrite (execute_tool_found self d n a t Hn Ha Ht).
    destruct (call_tool t _); eauto.
  - rewrite (execute_tool_not_found self d n Hn Ht). eauto.
Qed.

Lemma dispatch_with_returns (exec : value -> value * outcome value)
  (calls : list value) (tr : list event) :
  Forall (fun c => exists d' v, exec c = (VDict d', Ret v)) calls ->
  exists results,
    dispatch_with exec calls tr = (tr ++ map EvDispatch calls, Ret results)
    /\ List.length results = List.length calls.
Proof.
  intros H; revert tr; induction H as [|c calls (d' & v & Hc) _ IH];
    intros tr; simpl.
  - exists []. now rewrite app_nil_r.
  - rewrite Hc. simpl.
    destruct (dict_get "name" d'), (dict_get "arguments" d'); simpl;
      destruct (IH (tr ++ [EvDispatch c])) as (l & -> & Hl);
      rewrite <- app_assoc; simpl; eexists; split; eauto; simpl; now rewrite Hl.
Qed.

Lemma completions_app (tr tr' : list event) :
  completions (tr ++ tr') = (completions tr + completions tr')%nat.
Proof. unfold completions. now rewrite filter_app, length_app. Qed.

Lemma completions_dispatches (calls : list value) :
  completions (map EvDispatch calls) = 0%nat.
Proof. induction calls; auto. Qed.

Lemma dispatches_app (tr tr' : list event) :
  dispatches (tr ++ tr') = dispatches tr ++ dispatches tr'.
Proof. unfold dispatches. apply flat_map_app. Qed.

Lemma dispatches_map (calls : list value) :
  dispatches (map EvDispatch calls) = calls.
Proof. induction calls; simpl; auto. now f_equal. Qed.

Lemma loop_unfold (fuel : nat) (self : agent) (tr : list event)
  (messages : list message) (iterations : Z) :
  loop (S fuel) self tr messages iterations =
  if iterations <? max_iterations self then
    let model_response := llm self tr messages in
    let tr1 := tr ++ [EvCompletion messages model_response] in
    match extract_final_response model_response with
    | Some final_response =>
        Some (remember self (mkMessage "assistant" model_response), tr1,
              Ret final_response)
    | None =>
        match extract_tool_calls model_response with
        | Raise e => Some (self, tr1, Raise e)
        | Ret [] =>
            Some (remember self (mkMessage "assistant" model_response), tr1,
                  Ret model_response)
        | Ret tool_calls =>
            match dispatch self tool_calls tr1 with
            | (tr2, Raise e) => Some (self, tr2, Raise e)
            | (tr2, Ret tool_results) =>
                loop fuel self tr2
                  (messages
                     ++ [mkMessage "assistant" model_response;
                         mkMessage "user" (results_text tool_results)])
                  (iterations + 1)
            end
        end
    end
  else Some (self, tr, Ret sentinel).
Proof. reflexivity. Qed.

(** The loop ends within [max_iterations - iterations] turns, and leaves
    the registry as it found it. *)
Lemma loop_total (fuel : nat) (self : agent) (tr : list event)
  (messages : list message) (iterations : Z) :
  (Z.to_nat (max_iterations self - iterations) <= fuel)%nat ->
  exists self' tr' o,
    loop fuel self tr messages iterations = Some (self', tr', o)
    /\ tools self' = tools self.
Proof.
  revert tr messages iterations.
  induction fuel as [|fuel IH]; intros tr messages iterations Hfuel.
  - simpl. destruct (iterations <? max_iterations self) eqn:E.
    + apply Z.ltb_lt in E. lia.
    + eauto 6.
  - rewrite loop_unfold. destruct (iterations <? max_iterations self) eqn:E.
    2: eauto 6.
    apply Z.ltb_lt in E. cbv zeta.
    destruct (extract_final_response _); [eauto 6|].
    destruct (extract_tool_calls _) as [[|c cs]|e]; [eauto 6 | | eauto 6].
    destruct (dispatch self (c :: cs) _) as [tr2 [res|e]]; [|eauto 6].
    apply IH. lia.
Qed.

Lemma run_total (self : agent) (tr : list event) (user_input : string) :
  exists self' tr' o,
    run self tr user_input = Some (self', tr', o)
    /\ tools self' = tools self.
Proof.
  unfold run. destruct (format_tools_for_prompt _); [|eauto 6].
  destruct (loop_total
              (Z.to_nat (max_iterations
                           (remember self (mkMessage "user" user_input))))
              (remember self (mkMessage "user" user_input)) tr
              (mkMessage "system"
                 (system_prompt (remember self (mkMessage "user" user_input))
                    ++ LF ++ LF ++ a)%string
               :: map copy_message
                    (conversation_history
                       (remember self (mkMessage "user" user_input)))) 0)
    as (self' & tr' & o & H & Ht).
  - simpl. lia.
  - rewrite H. eauto 6.
Qed.

End ReActFacts.

(* ================================================================== *)
(** * C1: the iteration budget of the ReAct agent *)
(* ================================================================== *)

Section Budget.

Import Decorators Vocabulary Scenarios RunProperties ScopeProperties ReAct.







End Budget.

(* ================================================================== *)
(** * C10: the registry of an agent *)
(* ================================================================== *)

Section RegistryInvariant.

Import Decorators Vocabulary.

Lemma tool_calling_run_tools (self : ToolCalling.agent) (tr : list event)
  (user_input : string) :
  ToolCalling.tools (fst (fst (ToolCalling.run self tr user_input)))
  = ToolCalling.tools self.
Proof.
  unfold ToolCalling.run.
  destruct (ToolCalling.extract_tool_calls _) as [[|c cs]|e]; auto.
  destruct (ToolCalling.dispatch _ _ _) as [tr2 [res|e]]; auto.
Qed.

(** C10.  The registry an agent is constructed with maps every name to the
    last tool of the list that bears it, without any error for a name that
    occurs twice; every key of the registry is the name of the tool stored
    under it; and [run] and [reset_conversation], the operations that
    change an agent, leave the registry as it is. *)
Theorem registry_last_registration_wins (llm : completion) (prompt : string)
  (ts : list Tool) (budget : Z) :
  (forall n,
      dict_get n (ReAct.tools (ReAct.init llm prompt ts budget))
      = find (named n) (rev ts))
  /\ (forall n,
         dict_get n (ToolCalling.tools (ToolCalling.init llm prompt ts))
         = find (named n) (rev ts))
  /\ Forall key_is_name (ReAct.tools (ReAct.init llm prompt ts budget))
  /\ Forall key_is_name (ToolCalling.tools (ToolCalling.init llm prompt ts))
  /\ (forall self tr user_input,
         match ReAct.run self tr user_input with
         | Some (self', _, _) => ReAct.tools self' = ReAct.tools self
         | None => False
         end)
  /\ (forall self,
         ReAct.tools (ReAct.reset_conversation self) = ReAct.tools self)
  /\ (forall self tr user_input,
         ToolCalling.tools (fst (fst (ToolCalling.run self tr user_input)))
         = ToolCalling.tools self)
  /\ (forall self,
         ToolCalling.tools (ToolCalling.reset_conversation self)
         = ToolCalling.tools self).
Proof.
  repeat split.
  - intros n. apply registry_get.
  - intros n. apply registry_get.
  - apply registry_keys_are_names.
  - apply registry_keys_are_names.
  - intros self tr user_input.
    destruct (run_total self tr user_input) as (self' & tr' & o & -> & H).
    exact H.
  - intros. apply tool_calling_run_tools.
Qed.

End RegistryInvariant.

(* ================================================================== *)
(** * Argument coercion *)
(* ================================================================== *)

Section CoercionFacts.

Import Decorators Vocabulary Scenarios ReAct.

#[local] Arguments caught : simpl never.

Lemma properties_of_lacking (tool_spec : value) :
  lacks_properties tool_spec = true -> properties_of tool_spec = Ret None.
Proof.
  destruct tool_spec as [| | | | | |spec]; try discriminate.
  unfold lacks_properties, properties_of, contains_key, dict_mem, getitem.
  destruct (dict_get "parameters" spec) as [[| | | | | |p]|]; try discriminate;
    simpl; auto.
  destruct (dict_get "properties" p); simpl; [discriminate | auto].
Qed.

Lemma convert_item_declared (props : dict) (k tag : string) (v : value) :
  declares props k tag = true ->
  convert_item (VDict props) k v =
  match type_mapping tag with
  | Some t => try_convert t v
  | None => Ret None
  end.
Proof.
  unfold declares, convert_item, contains_key, dict_mem, getitem.
  destruct (dict_get k props) as [[| | | | | |entry]|]; try discriminate.
  simpl. destruct (dict_get "type" entry) as [[| | | |tag'| |]|];
    try discriminate.
  intros E. apply String.eqb_eq in E. subst. reflexivity.
Qed.

Lemma convert_item_already_typed (props : dict) (k : string) (v : value) :
  already_typed props k v = true -> convert_item (VDict props) k v = Ret None.
Proof.
  unfold already_typed, convert_item, contains_key, dict_mem, getitem.
  destruct (dict_get k props) as [[| | | | | |entry]|]; try discriminate; auto.
  simpl. destruct (dict_get "type" entry) as [[| | | |tag| |]|];
    try discriminate; auto.
  simpl. destruct (type_mapping tag) as [t|]; auto.
  intros E. unfold try_convert. now rewrite E.
Qed.

(** What the loop leaves under a key: the value it found there when the key
    is not an item or asks for no conversion, and the converted value when
    the loop completes. *)
Lemma convert_items_lookup (props : value) (k : string) :
  forall (its acc args' : dict) (r : outcome unit),
    NoDup (keys its) ->
    convert_items props its acc = (args', r) ->
    (~ In k (keys its) -> dict_get k args' = dict_get k acc)
    /\ (forall v, In (k, v) its -> convert_item props k v = Ret None ->
                  dict_get k args' = dict_get k acc)
    /\ (forall v x, In (k, v) its -> convert_item props k v = Ret (Some x) ->
                    r = Ret tt -> dict_get k args' = Some x).
Proof.
  unfold keys.
  induction its as [|[k0 v0] its IH]; intros acc args' r Hnd; simpl.
  - intros H; inversion H; subst. repeat split; auto; intros; contradiction.
  - inversion Hnd as [|? ? Hk0 Hnd']; subst.
    assert (Hin : forall v, In (k, v) its -> k <> k0).
    { intros v Hv ->. apply Hk0. now apply (in_map fst) in Hv. }
    destruct (convert_item props k0 v0) as [[x0|]|e] eqn:E.
    + intros H. destruct (IH _ _ _ Hnd' H) as (Ha & Hb & Hc).
      split; [|split].
      * intros Hk.
        assert (Hk1 : ~ In k (map fst its)) by (intros X; apply Hk; now right).
        assert (Hk2 : k <> k0) by (intros ->; apply Hk; now left).
        rewrite (Ha Hk1). now apply dict_get_set_other.
      * intros v [Hv|Hv] Hnone.
        -- inversion Hv; subst. congruence.
        -- rewrite (Hb v Hv Hnone). apply dict_get_set_other. eauto.
      * intros v x [Hv|Hv] Hsome Hr.
        -- inversion Hv; subst. rewrite Ha by exact Hk0.
           rewrite dict_get_set_same. congruence.
        -- eauto.
    + intros H. destruct (IH _ _ _ Hnd' H) as (Ha & Hb & Hc).
      split; [|split].
      * intros Hk. apply Ha. intros X; apply Hk; now right.
      * intros v [Hv|Hv] Hnone; eauto.
        inversion Hv; subst. now apply Ha.
      * intros v x [Hv|Hv] Hsome Hr; eauto.
        inversion Hv; subst. congruence.
    + intros H; inversion H; subst. repeat split; auto.
      intros; discriminate.
Qed.

Lemma convert_items_all_typed (props : dict) :
  forall (its acc : dict),
    (forall k v, In (k, v) its -> already_typed props k v = true) ->
    convert_items (VDict props) its acc = (acc, Ret tt).
Proof.
  induction its as [|[k v] its IH]; intros acc H; simpl; auto.
  rewrite convert_item_already_typed by (apply H; now left).
  apply IH. intros; apply H; now right.
Qed.

(** The call with a mapping of arguments, once the properties are found. *)
Lemma convert_argument_types_unfold (tc args : dict) (spec props : value) :
  dict_get "arguments" tc = Some (VDict args) ->
  properties_of spec = Ret (Some props) ->
  convert_argument_types (VDict tc) spec =
  (VDict (dict_set "arguments" (VDict (fst (convert_items props args args))) tc),
   snd (convert_items props args args)).
Proof.
  intros Ha Hp. unfold convert_argument_types, getitem. rewrite Hp, Ha.
  simpl. now destruct (convert_items props args args).
Qed.

Lemma properties_of_section (tool_spec props : value) :
  properties_section tool_spec = Some props ->
  properties_of tool_spec = Ret (Some props).
Proof.
  destruct tool_spec as [| | | | | |spec]; try discriminate.
  unfold properties_section, properties_of, contains_key, dict_mem, getitem.
  destruct (dict_get "parameters" spec) as [[| | | | | |p]|]; try discriminate.
  simpl. intros ->. reflexivity.
Qed.

(** A conversion that raises [ValueError] or [TypeError] assigns nothing. *)
Lemma try_convert_caught (t : pytype) (v : value) (e : exn) :
  isinstance v t = false ->
  convert t v = Raise e ->
  caught [ValueError; TypeError] e = true ->
  try_convert t v = Ret None.
Proof.
  intros Hi Hc He. unfold try_convert, try_except. rewrite Hi, Hc. simpl.
  now rewrite He.
Qed.

(** C8.  Coercion leaves alone every argument that needs no conversion.
    For a call whose arguments are a mapping: against a specification
    without a [parameters.properties] section the call is returned as it
    is; against one with such a section, an argument that the section does
    not mention, or whose value is already an instance of the declared
    type, has the same value after the coercion as before, whatever
    happens to the other arguments; and when this holds of all arguments
    the call is returned as it is.  The coercion of the tool-calling agent
    is the same function. *)
Theorem coercion_keeps_typed_arguments (tc args : dict) (tool_spec : value) :
  dict_get "arguments" tc = Some (VDict args) ->
  NoDup (keys args) ->
  ToolCalling.convert_argument_types = convert_argument_types
  /\ (lacks_properties tool_spec = true ->
      convert_argument_types (VDict tc) tool_spec = (VDict tc, Ret tt))
  /\ (forall props,
         properties_section tool_spec = Some (VDict props) ->
         (forall k v,
             dict_get k args = Some v ->
             already_typed props k v = true ->
             exists args',
               getitem (fst (convert_argument_types (VDict tc) tool_spec))
                 "arguments" = Ret (VDict args')
               /\ dict_get k args' = Some v)
         /\ ((forall k v, In (k, v) args -> already_typed props k v = true) ->
             convert_argument_types (VDict tc) tool_spec
             = (VDict tc, Ret tt))).
Proof.
  intros Ha Hnd. split; [reflexivity|]. split.
  - intros Hl. unfold convert_argument_types.
    now rewrite (properties_of_lacking _ Hl).
  - intros props Hp. apply properties_of_section in Hp.
    rewrite (convert_argument_types_unfold tc args _ _ Ha Hp). split.
    + intros k v Hk Ht.
      destruct (convert_items (VDict props) args args) as [args' r] eqn:E.
      exists args'. simpl. rewrite dict_get_set_same. split; auto.
      destruct (convert_items_lookup (VDict props) k _ _ _ _ Hnd E)
        as (_ & Hb & _).
      rewrite <- Hk. apply (Hb v).
      * now apply dict_get_In.
      * now apply convert_item_already_typed.
    + intros Hall. rewrite (convert_items_all_typed props args args Hall).
      simpl. now rewrite (dict_set_unchanged _ _ _ Ha).
Qed.

Lemma coercion_keeps_typed_arguments_witness :
  NoDup (keys [("a", VInt 10); ("flag", VBool true); ("extra", VStr "x")])
  /\ convert_argument_types
       (wrapped [("a", VInt 10); ("flag", VBool true); ("extra", VStr "x")])
       (spec_of [("a", "int"); ("flag", "int")])
     = (wrapped [("a", VInt 10); ("flag", VBool true); ("extra", VStr "x")],
        Ret tt).
Proof.
  assert (Hnd : NoDup
                  (keys [("a", VInt 10); ("flag", VBool true);
                         ("extra", VStr "x")])).
  { repeat constructor; simpl; intuition discriminate. }
  split; [exact Hnd|].
  destruct (coercion_keeps_typed_arguments
              [("arguments",
                 VDict [("a", VInt 10); ("flag", VBool true);
                        ("extra", VStr "x")])]
              [("a", VInt 10); ("flag", VBool true); ("extra", VStr "x")]
              (spec_of [("a", "int"); ("flag", "int")]) eq_refl Hnd)
    as (_ & _ & H).
  destruct (H _ eq_refl) as (_ & Hall). apply Hall.
  intros k v [E|[E|[E|[]]]]; inversion E; reflexivity.
Defined.

(** C9 (amended).  In the coercion of both agents an argument declared
    ["bool"] or ["boolean"] whose value is not a bool is replaced by its
    truth value: every non-empty string is true, ["false"], ["False"] and
    ["0"] included, and the values that become false are [None], [0], the
    zero floats, the empty string, the empty list and the empty mapping.
    In the standalone [convert_argument_types] of decorators.py this holds
    of the tag ["bool"]. *)
Theorem bool_coercion_is_truthiness (tc args props : dict)
  (tool_spec : value) (k tag : string) (v : value) :
  tag = "bool" \/ tag = "boolean" ->
  declares props k tag = true ->
  isinstance v TBool = false ->
  convert_item (VDict props) k v = Ret (Some (VBool (truthy v)))
  /\ ToolCalling.convert_argument_types = convert_argument_types
  /\ (properties_section tool_spec = Some (VDict props) ->
      dict_get "arguments" tc = Some (VDict args) ->
      NoDup (keys args) ->
      dict_get k args = Some v ->
      snd (convert_argument_types (VDict tc) tool_spec) = Ret tt ->
      exists args',
        getitem (fst (convert_argument_types (VDict tc) tool_spec))
          "arguments" = Ret (VDict args')
        /\ dict_get k args' = Some (VBool (truthy v)))
  /\ (tag = "bool" ->
      forall acc,
        Decorators.convert_items (VDict props) [(k, v)] acc
        = (dict_set k (VBool (truthy v)) acc, Ret tt))
  /\ (forall s, truthy (VStr s) = negb (String.eqb s EmptyString))
  /\ truthy (VStr "false") = true
  /\ truthy (VStr "False") = true
  /\ truthy (VStr "0") = true
  /\ (truthy v = false <->
      v = VNone \/ v = VInt 0 \/ (exists s, v = VFloat (S754_zero s))
      \/ v = VStr EmptyString \/ v = VList [] \/ v = VDict []).
Proof.
  intros Htag Hd Hi.
  assert (Hitem : convert_item (VDict props) k v
                  = Ret (Some (VBool (truthy v)))).
  { rewrite (convert_item_declared props k tag v Hd).
    assert (Hm : type_mapping tag = Some TBool)
      by (destruct Htag; subst; reflexivity).
    rewrite Hm. unfold try_convert. now rewrite Hi. }
  split; [exact Hitem|]. split; [reflexivity|]. split; [|split].
  - intros Hp Ha Hnd Hk Hr. apply properties_of_section in Hp.
    rewrite (convert_argument_types_unfold tc args _ _ Ha Hp) in *.
    destruct (convert_items (VDict props) args args) as [args' r] eqn:E.
    simpl in *. subst r. exists args'. rewrite dict_get_set_same.
    split; auto.
    destruct (convert_items_lookup (VDict props) k _ _ _ _ Hnd E)
      as (_ & _ & Hc).
    apply (Hc v); auto. now apply dict_get_In.
  - intros -> acc. unfold declares in Hd. simpl.
    unfold getitem, get.
    destruct (dict_get k props) as [[| | | | | |entry]|]; try discriminate.
    simpl.
    destruct (dict_get "type" entry) as [[| | | |tag'| |]|]; try discriminate.
    apply String.eqb_eq in Hd. subst tag'. simpl.
    destruct v; try discriminate; reflexivity.
  - repeat split; auto.
    + destruct v as [| b | z | f | s | l | d]; simpl; intros H;
        try discriminate; auto.
      * apply negb_false_iff, Z.eqb_eq in H. subst; auto.
      * destruct f; try discriminate. eauto 6.
      * apply negb_false_iff, String.eqb_eq in H. subst; auto 6.
      * destruct l; [auto 6 | discriminate].
      * destruct d; [auto 7 | discriminate].
    + intros [->|[->|[[s ->]|[->|[->| ->]]]]]; reflexivity.
Qed.

Lemma bool_coercion_is_truthiness_witness :
  declares [("flag", VDict [("type", VStr "boolean")])] "flag" "boolean" = true
  /\ isinstance (VStr "false") TBool = false
  /\ convert_item (VDict [("flag", VDict [("type", VStr "boolean")])]) "flag"
       (VStr "false")
     = Ret (Some (VBool (truthy (VStr "false")))).
Proof.
  split; [reflexivity|]. split; [reflexivity|].
  exact (proj1 (bool_coercion_is_truthiness [] []
                  [("flag", VDict [("type", VStr "boolean")])] VNone
                  "flag" "boolean" (VStr "false")
                  (or_intror eq_refl) eq_refl eq_refl)).
Defined.

(** C9 as stated fails on decorators.py: its table of converters has no
    entry ["boolean"], and the lookup raises [KeyError]. *)
Lemma bool_coercion_counterexample :
  Decorators.convert_argument_types
    (wrapped [("flag", VStr "false")]) (spec_of [("flag", "boolean")])
  = (wrapped [("flag", VStr "false")], Raise (mkExn KeyError "'boolean'")).
Proof. reflexivity. Qed.

(** C4, at the failing input: the conversion of an [int] too large for a
    [float] raises [OverflowError], which the coercion of neither agent
    catches; the call is left as it was and the argument [y], which comes
    after, is not converted. *)
Lemma coercion_overflow_escapes :
  convert TFloat (VInt (10 ^ 400))
  = Raise (mkExn OverflowError "int too large to convert to float")
  /\ caught [ValueError; TypeError]
       (mkExn OverflowError "int too large to convert to float") = false
  /\ convert_argument_types
       (wrapped [("x", VInt (10 ^ 400)); ("y", VStr "7")])
       (spec_of [("x", "float"); ("y", "int")])
     = (wrapped [("x", VInt (10 ^ 400)); ("y", VStr "7")],
        Raise (mkExn OverflowError "int too large to convert to float"))
  /\ ToolCalling.convert_argument_types
       (wrapped [("x", VInt (10 ^ 400)); ("y", VStr "7")])
       (spec_of [("x", "float"); ("y", "int")])
     = (wrapped [("x", VInt (10 ^ 400)); ("y", VStr "7")],
        Raise (mkExn OverflowError "int too large to convert to float"))
  /\ convert_argument_types
       (wrapped [("x", VStr "abc"); ("y", VStr "7")])
       (spec_of [("x", "float"); ("y", "int")])
     = (wrapped [("x", VStr "abc"); ("y", VInt 7)], Ret tt).
Proof. repeat split; vm_compute; reflexivity. Qed.

End CoercionFacts.

(* ================================================================== *)
(** * C3 and C7: dispatch in the tool-calling agent *)
(* ================================================================== *)

Section SingleRound.

Import Decorators Vocabulary Scenarios ScopeProperties ToolCalling.

#[local] Arguments caught : simpl never.

(** C3, at the failing input.  The call asks [add_two_numbers], whose
    parameter [a] is declared [int], for the sum of the float infinity and
    1.  The conversion [int(inf)] raises [OverflowError]; the coercion does
    not catch it, and neither does the [try] around the validation in the
    tool-calling agent, so [execute_tool] raises.  The [try] of the ReAct
    agent catches every error, and the tool is invoked. *)
Lemma tool_calling_execute_tool_raises :
  json_loads
    ("{" ++ dq "name" ++ ": " ++ dq "add_two_numbers" ++ ", "
         ++ dq "arguments" ++ ": {" ++ dq "a" ++ ": 1e999, "
         ++ dq "b" ++ ": 1}}")
  = Some (VDict [("name", VStr "add_two_numbers");
                 ("arguments", VDict [("a", infinity); ("b", VInt 1)])])
  /\ execute_tool (init (always EmptyString) EmptyString [Tests.add_tool])
       (VDict [("name", VStr "add_two_numbers");
               ("arguments", VDict [("a", infinity); ("b", VInt 1)])])
     = (VDict [("name", VStr "add_two_numbers");
               ("arguments", VDict [("a", infinity); ("b", VInt 1)])],
        Raise (mkExn OverflowError "cannot convert float infinity to integer"))
  /\ ReAct.execute_tool (ReAct.init (always EmptyString) EmptyString [Tests.add_tool] 10)
       (VDict [("name", VStr "add_two_numbers");
               ("arguments", VDict [("a", infinity); ("b", VInt 1)])])
     = (VDict [("name", VStr "add_two_numbers");
               ("arguments", VDict [("a", infinity); ("b", VInt 1)])],
        Ret infinity).
Proof. repeat split; vm_compute; reflexivity. Qed.

Lemma execute_tool_keeps_dict (self : agent) (c c' v : value) :
  execute_tool self c = (c', Ret v) -> exists d', c' = VDict d'.
Proof.
  destruct c as [| | | | | |d]; try (intros H; inversion H; fail).
  unfold execute_tool.
  destruct (tool_name <- get (VDict d) "name" VNone ;;
            arguments <- get (VDict d) "arguments" (VDict []) ;;
            found <- ReAct.find_tool (tools self) tool_name ;;
            Ret (tool_name, arguments, found))
    as [[[n a] [t|]]|e].
  - destruct (ReAct.validate _ t a) as [a' [u|e]].
    + destruct (contains_key "arguments" (VDict d)) as [[|]|e];
        intros H; inversion H; simpl; eauto.
    + intros H; inversion H.
  - intros H; inversion H; eauto.
  - intros H; inversion H.
Qed.

(** The single round, where no dispatch raises.  The run of the
    tool-calling agent issues one completion call.  When that response
    yields no tool call, it is returned as it is and appended to the
    history, and nothing is dispatched.  When it yields tool calls, and
    every dispatch returns, each call is dispatched once, in the order of
    extraction; then exactly one more completion call is issued, with the
    response and the block of tool results appended to the messages, and
    its text is returned and appended to the history. *)
Lemma tool_calling_run_single_round (self : agent) (tr : list event)
  (user_input : string) :
  let self1 := remember self (mkMessage "user" user_input) in
  let messages :=
    mkMessage "system"
      (system_prompt self1 ++ LF ++ LF ++ format_tools_for_prompt self1)%string
    :: map ReAct.copy_message (conversation_history self1) in
  let model_response := model self tr messages in
  let tr1 := tr ++ [EvCompletion messages model_response] in
  in_scope model_response = true ->
  (extract_tool_calls model_response = Ret [] ->
   run self tr user_input
   = (remember self1 (mkMessage "assistant" model_response), tr1,
      Ret model_response))
  /\ (forall calls,
         extract_tool_calls model_response = Ret calls ->
         calls <> [] ->
         Forall (fun c => exists c' v, execute_tool self1 c = (c', Ret v))
           calls ->
         exists results,
           dispatch self1 calls tr1
           = (tr1 ++ map EvDispatch calls, Ret results)
           /\ List.length results = List.length calls
           /\ let messages2 :=
                messages
                  ++ [mkMessage "assistant" model_response;
                      mkMessage "user" (ReAct.results_text results)] in
              let tr2 := tr1 ++ map EvDispatch calls in
              let final_response := model self tr2 messages2 in
              run self tr user_input
              = (remember self1 (mkMessage "assistant" final_response),
                 tr2 ++ [EvCompletion messages2 final_response],
                 Ret final_response)).
Proof.
  intros self1 messages model_response tr1 _. split.
  - intros H. unfold run. cbv zeta.
    change (model (remember self (mkMessage "user" user_input)))
      with (model self).
    subst tr1 model_response messages self1. now rewrite H.
  - intros calls H Hne Hall.
    destruct (dispatch_with_returns (execute_tool self1) calls tr1)
      as (results & Hd & Hl).
    { eapply Forall_impl; [|exact Hall].
      intros c (c' & v & Hc).
      destruct (execute_tool_keeps_dict _ _ _ _ Hc) as (d' & ->). eauto. }
    exists results. split; [exact Hd|]. split; [exact Hl|].
    unfold run. cbv zeta. unfold dispatch in *.
    change (model (remember self (mkMessage "user" user_input)))
      with (model self).
    subst tr1 model_response messages self1. rewrite H.
    destruct calls as [|c cs]; [contradiction|]. now rewrite Hd.
Qed.

(** C7, at the failing input.  The response asks [add_two_numbers], whose
    parameter [a] is declared [int], for the sum of the number [1e999] and
    1.  It yields one tool call, which is dispatched; the conversion
    [int(inf)] of the coercion raises [OverflowError], which nothing
    between the conversion and the caller of [run] catches (C3).  The run
    ends with that error: it has issued its first completion call and no
    second one, it returns no text, and the history holds the user's
    message alone. *)
Theorem tool_calling_run_raises_in_dispatch :
  extract_tool_calls call_add_huge
  = Ret [VDict [("name", VStr "add_two_numbers");
                ("arguments", VDict [("a", infinity); ("b", VInt 1)])]]
  /\ exists tr,
       observe_tool_calling
         (run (init (always call_add_huge) EmptyString [Tests.add_tool]) [] "hi")
       = ([mkMessage "user" "hi"], tr,
          Raise (mkExn OverflowError
                   "cannot convert float infinity to integer"))
       /\ completions tr = 1%nat
       /\ dispatches tr
          = [VDict [("name", VStr "add_two_numbers");
                    ("arguments", VDict [("a", infinity); ("b", VInt 1)])]].
Proof.
  split; [vm_compute; reflexivity|].
  eexists. split; [vm_compute; reflexivity|].
  split; reflexivity.
Qed.

End SingleRound.

(* ================================================================== *)
(** * C5: the specification derived from a function *)
(* ================================================================== *)

Section Metadata.

Import Decorators Vocabulary Scenarios.

Lemma dict_set_fresh {V} (k : string) (v : V) (d : list (string * V)) :
  ~ In k (keys d) -> dict_set k v d = d ++ [(k, v)].
Proof.
  unfold keys. induction d as [|[k' v'] d IH]; simpl; auto.
  intros H. destruct (String.eqb_spec k k') as [->|Hne].
  - exfalso. auto.
  - f_equal. apply IH. auto.
Qed.

Lemma parameter_types_classes (its : list (string * annotation)) :
  forall acc,
    NoDup (keys acc ++ keys its) ->
    ~ In "return" (keys its) ->
    (forall p a, In (p, a) its -> exists n, a = Class n) ->
    parameter_types its acc = Ret (acc ++ map entry_of its).
Proof.
  unfold keys.
  induction its as [|[p a] its IH]; intros acc Hnd Hret Hcls; simpl.
  - now rewrite app_nil_r.
  - destruct (String.eqb_spec p "return") as [->|Hne].
    { exfalso. apply Hret. now left. }
    destruct (Hcls p a) as (n & ->); [now left|]. simpl.
    rewrite dict_set_fresh.
    + rewrite IH.
      * now rewrite <- app_assoc.
      * unfold keys. rewrite map_app. simpl. rewrite <- app_assoc. exact Hnd.
      * intros H. apply Hret. now right.
      * intros; eapply Hcls; right; eauto.
    + unfold keys. simpl in Hnd. apply NoDup_remove_2 in Hnd.
      intros H. apply Hnd. apply in_or_app. now left.
Qed.

Lemma parameter_types_app (l1 l2 : list (string * annotation)) :
  forall acc,
    parameter_types (l1 ++ l2) acc
    = (acc' <- parameter_types l1 acc ;; parameter_types l2 acc').
Proof.
  induction l1 as [|[p a] l1 IH]; intros acc; simpl; auto.
  destruct (negb (String.eqb p "return")); auto.
  destruct (dunder_name a); simpl; auto.
Qed.

Lemma parameter_types_return (o : option annotation) (acc : dict) :
  parameter_types
    match o with
    | Some t => [("return", t)]
    | None => []
    end acc = Ret acc.
Proof. destruct o; reflexivity. Qed.

Lemma keys_annotated (params : list (string * option annotation)) :
  keys (annotated params)
  = flat_map (fun '(p, a) =>
                match a with
                | Some _ => [p]
                | None => []
                end) params.
Proof.
  unfold keys. induction params as [|[p [a|]] params IH]; simpl; auto.
  now f_equal.
Qed.

Lemma In_annotated (params : list (string * option annotation)) p a :
  In (p, a) (annotated params) <-> In (p, Some a) params.
Proof.
  induction params as [|[q [b|]] params IH]; simpl; [tauto| |].
  - rewrite IH. split; intros [E|H]; auto; left; congruence.
  - rewrite IH. split; [auto | intros [E|H]; [discriminate | auto]].
Qed.

Lemma annotated_keys_incl (params : list (string * option annotation)) p :
  In p (keys (annotated params)) -> In p (map fst params).
Proof.
  unfold keys. induction params as [|[q [b|]] params IH]; simpl; auto.
  intros [E|H]; auto.
Qed.

Lemma NoDup_annotated (params : list (string * option annotation)) :
  NoDup (map fst params) -> NoDup (keys (annotated params)).
Proof.
  induction params as [|[q [b|]] params IH]; simpl; intros H.
  - constructor.
  - inversion H; subst. constructor; auto.
    intros X. apply H2. now apply annotated_keys_incl.
  - inversion H; subst. auto.
Qed.

Lemma keys_map_entry_of (its : list (string * annotation)) :
  keys (map entry_of its) = keys its.
Proof. unfold keys. rewrite map_map. reflexivity. Qed.

(** C5 (amended).  For a function whose parameter names are distinct and
    whose annotations are classes, the metadata are derived without error,
    by either copy of [extract_function_metadata]; the parameter names of
    the derived specification are the names of the annotated parameters, in
    order, the annotation of the result left out; an annotated parameter
    is tagged with the name of its class; and a parameter without
    annotation does not occur in the specification, with no tag at all. *)
Theorem metadata_lists_annotated_parameters (f : callable) :
  NoDup (declared_names f) ->
  ~ In "return" (declared_names f) ->
  (forall p a, In (p, Some a) (fn_params f) -> exists n, a = Class n) ->
  exists metadata,
    extract_function_metadata f = Ret metadata
    /\ ReAct.extract_function_metadata f = Ret metadata
    /\ parameter_names metadata = Some (annotated_names f)
    /\ (forall p n,
           In (p, Some (Class n)) (fn_params f) ->
           type_tag metadata p = Some (VStr n))
    /\ (forall p,
           In (p, None) (fn_params f) ->
           type_tag metadata p = None /\ ~ In p (annotated_names f)).
Proof.
  intros Hnd Hret Hcls. unfold declared_names in *.
  assert (Hnd' : NoDup (keys (annotated (fn_params f))))
    by now apply NoDup_annotated.
  assert (Ht : parameter_types (annotations f) []
               = Ret (map entry_of (annotated (fn_params f)))).
  { unfold annotations. fold (annotated (fn_params f)).
    rewrite parameter_types_app, parameter_types_classes; simpl.
    - apply parameter_types_return.
    - exact Hnd'.
    - intros H. apply Hret. now apply annotated_keys_incl.
    - intros p a H. apply In_annotated in H. eauto. }
  unfold ReAct.extract_function_metadata, extract_function_metadata.
  rewrite Ht. simpl. eexists. split; [reflexivity|]. split; [reflexivity|].
  unfold parameter_names, type_tag, annotated_names. simpl.
  rewrite keys_map_entry_of, keys_annotated. split; [reflexivity|]. split.
  - intros p n H. apply In_annotated in H.
    rewrite (In_dict_get p (snd (entry_of (p, Class n)))).
    + reflexivity.
    + now rewrite keys_map_entry_of.
    + change (p, snd (entry_of (p, Class n))) with (entry_of (p, Class n)).
      now apply in_map.
  - intros p H.
    assert (Hp : ~ In p (keys (annotated (fn_params f)))).
    { clear - Hnd H. induction (fn_params f) as [|[q [b|]] l IH];
        simpl in *; [tauto| |].
      - inversion Hnd; subst. destruct H as [E|H]; [discriminate|].
        intros [E|X]; [subst; apply H2; now apply (in_map fst) in H|].
        now apply IH.
      - inversion Hnd; subst. destruct H as [E|H].
        + inversion E; subst. intros X. apply H2.
          now apply annotated_keys_incl.
        + now apply IH. }
    split.
    + replace (dict_get p (map entry_of (annotated (fn_params f))))
        with (@None value); auto.
      symmetry. apply dict_get_None. now rewrite keys_map_entry_of.
    + now rewrite <- keys_annotated.
Qed.

Lemma metadata_lists_annotated_parameters_witness :
  exists metadata,
    extract_function_metadata Tests.add_two_numbers = Ret metadata
    /\ ReAct.extract_function_metadata Tests.add_two_numbers = Ret metadata
    /\ parameter_names metadata = Some (annotated_names Tests.add_two_numbers)
    /\ (forall p n,
           In (p, Some (Class n)) (fn_params Tests.add_two_numbers) ->
           type_tag metadata p = Some (VStr n))
    /\ (forall p,
           In (p, None) (fn_params Tests.add_two_numbers) ->
           type_tag metadata p = None
           /\ ~ In p (annotated_names Tests.add_two_numbers)).
Proof.
  apply (metadata_lists_annotated_parameters Tests.add_two_numbers).
  - repeat constructor; simpl; intuition discriminate.
  - simpl. intuition discriminate.
  - intros p a [E|[E|[]]]; inversion E; eauto.
Defined.

(** C5 as stated fails: of the parameters of [def f(a, b: int) -> int] the
    derived specification lists [b] alone; [a], which has no declared type,
    is dropped, not kept with an absent type tag. *)
Lemma metadata_counterexample :
  exists metadata,
    extract_function_metadata half_annotated = Ret metadata
    /\ declared_names half_annotated = ["a"; "b"]
    /\ parameter_names metadata = Some ["b"]
    /\ dumps metadata
       = ("{" ++ dq "name" ++ ": " ++ dq "f" ++ ", " ++ dq "description"
              ++ ": null, " ++ dq "parameters" ++ ": {" ++ dq "properties"
              ++ ": {" ++ dq "b" ++ ": {" ++ dq "type" ++ ": " ++ dq "int"
              ++ "}}}}")%string.
Proof. eexists. repeat split. Qed.

End Metadata.

(* ================================================================== *)
(** * C6: the final answer *)
(* ================================================================== *)

Section FinalAnswer.

Import Decorators Vocabulary Scenarios RunProperties ScopeProperties ReAct.

Lemma append_assoc (a b c : string) :
  ((a ++ b) ++ c)%string = (a ++ b ++ c)%string.
Proof. induction a; simpl; congruence. Qed.

Lemma append_split (a b c d : string) :
  (a ++ b)%string = (c ++ d)%string ->
  (String.length a <= String.length c)%nat ->
  exists x, c = (a ++ x)%string /\ b = (x ++ d)%string.
Proof.
  revert c; induction a as [|h a IH]; intros c H Hlen; simpl in *.
  - exists c. auto.
  - destruct c as [|h' c]; simpl in *; [lia|].
    inversion H; subst.
    destruct (IH c H2) as (x & -> & ->); [lia|]. eauto.
Qed.

(** The search finds the first span of a text that has one. *)
Lemma search_first_span (open close s : string) :
  has_span open close s ->
  exists pre inner post,
    first_span open close s pre inner post
    /\ Re.search_span open close s = Some (inner, post).
Proof.
  intros (u & v & w & Hs). unfold Re.search_span.
  destruct (find_split_complete open s u (v ++ close ++ w) Hs)
    as (pre & rest & Hf).
  rewrite Hf.
  pose proof (find_split_sound _ _ _ _ Hf) as Hpre.
  pose proof (find_split_first _ _ _ _ Hf) as Hfirst.
  assert (Hrest : exists x, rest = (x ++ close ++ w)%string).
  { assert (E : ((pre ++ open) ++ rest)%string
                = ((u ++ open ++ v) ++ close ++ w)%string).
    { rewrite !append_assoc. congruence. }
    apply append_split in E.
    - destruct E as (x & _ & ->). eauto.
    - rewrite !string_length_append.
      specialize (Hfirst u _ Hs). lia. }
  destruct Hrest as (x & Hx).
  destruct (find_split_complete close rest x w Hx) as (inner & post & Hg).
  rewrite Hg. exists pre, inner, post. split; [|reflexivity].
  pose proof (find_split_sound _ _ _ _ Hg) as Hin.
  split; [congruence|]. split; [exact Hfirst|].
  intros u' v' E. apply (find_split_first _ _ _ _ Hg u' v'). congruence.
Qed.

Lemma lstrip_cut (s : string) :
  exists l,
    s = (l ++ lstrip s)%string
    /\ all_space l = true /\ starts_clean (lstrip s) = true.
Proof.
  induction s as [|c s (l & Hs & Hl & Hc)]; simpl.
  - exists EmptyString. auto.
  - destruct (isspace c) eqn:E.
    + exists (String c l). simpl. rewrite E, Hl. repeat split; auto.
      now f_equal.
    + exists EmptyString. simpl. now rewrite E.
Qed.

Lemma rstrip_cut (s : string) :
  exists r,
    s = (rstrip s ++ r)%string
    /\ all_space r = true /\ ends_clean (rstrip s) = true.
Proof.
  induction s as [|c s (r & Hs & Hr & Hc)]; simpl.
  - exists EmptyString. auto.
  - destruct (rstrip s) as [|c' t] eqn:E.
    + simpl in Hs. subst r. destruct (isspace c) eqn:Ec.
      * exists (String c s). simpl. now rewrite Ec, Hr.
      * exists s. simpl. now rewrite Ec.
    + exists r. simpl. repeat split; auto. now rewrite Hs at 1.
Qed.

Lemma rstrip_keeps_head (s : string) :
  starts_clean s = true -> starts_clean (rstrip s) = true.
Proof.
  destruct s as [|c s]; simpl; auto.
  intros H. destruct (rstrip s); simpl; auto.
  destruct (isspace c) eqn:E; [discriminate|]. simpl. now rewrite E.
Qed.

(** [strip] removes the white space at both ends, and nothing else. *)
Lemma strip_trimmed (s : string) : trimmed s (strip s).
Proof.
  unfold trimmed, strip.
  destruct (lstrip_cut s) as (l & Hs & Hl & Hc).
  destruct (rstrip_cut (lstrip s)) as (r & Ht & Hr & He).
  exists l, r. split; [|auto using rstrip_keeps_head].
  rewrite <- Ht. exact Hs.
Qed.

(** C6.  When the response of a turn of the loop contains a
    [<response>...</response>] span, the loop ends in that turn.  It
    returns the inner text of the first such span without the white space
    at its two ends.  The history of the agent it leaves is the history it
    found, followed by the whole response as the assistant's message.  The
    only event of the turn is the completion call, so that no tool call of
    the response is dispatched, whatever [<tool_call>] spans it
    contains. *)
Theorem final_response_ends_the_loop (self : agent) (tr : list event)
  (messages : list message) (iterations : Z) (fuel : nat) :
  iterations < max_iterations self ->
  has_span "<response>" "</response>" (llm self tr messages) ->
  exists pre inner post answer self',
    first_span "<response>" "</response>" (llm self tr messages)
      pre inner post
    /\ trimmed inner answer
    /\ extract_final_response (llm self tr messages) = Some answer
    /\ loop (S fuel) self tr messages iterations
       = Some (self',
               tr ++ [EvCompletion messages (llm self tr messages)],
               Ret answer)
    /\ conversation_history self'
       = conversation_history self
           ++ [mkMessage "assistant" (llm self tr messages)]
    /\ tools self' = tools self
    /\ dispatches (tr ++ [EvCompletion messages (llm self tr messages)])
       = dispatches tr.
Proof.
  intros Hit Hspan.
  destruct (search_first_span _ _ _ Hspan) as (pre & inner & post & Hf & Hs).
  exists pre, inner, post, (strip inner).
  assert (He : extract_final_response (llm self tr messages)
               = Some (strip inner)).
  { unfold extract_final_response, Re.search. now rewrite Hs. }
  eexists. split; [exact Hf|]. split; [apply strip_trimmed|].
  split; [exact He|]. split; [|split; [|split]].
  - rewrite loop_unfold. apply Z.ltb_lt in Hit. rewrite Hit. cbv zeta.
    rewrite He. reflexivity.
  - reflexivity.
  - reflexivity.
  - rewrite dispatches_app. simpl. now rewrite app_nil_r.
Qed.

Lemma final_response_ends_the_loop_witness :
  exists self',
    loop 1 (init (always padded_42) EmptyString [Tests.add_tool] 10)
      [] [mkMessage "user" "Hi"] 0
    = Some (self', [EvCompletion [mkMessage "user" "Hi"] padded_42],
            Ret "The answer is 42.")
    /\ conversation_history self' = [mkMessage "assistant" padded_42]
    /\ dispatches [EvCompletion [mkMessage "user" "Hi"] padded_42] = [].
Proof.
  destruct (final_response_ends_the_loop
              (init (always padded_42) EmptyString [Tests.add_tool] 10) []
              [mkMessage "user" "Hi"] 0 0)
    as (pre & inner & post & answer & self' & _ & _ & He & Hl & Hh & _ & Hd).
  - reflexivity.
  - exists "Sure. ", (" The answer is 42." ++ LF)%string,
      (" " ++ call_add)%string.
    reflexivity.
  - exists self'.
    assert (Ea : answer = "The answer is 42."%string).
    { change (extract_final_response
                (llm (init (always padded_42) EmptyString [Tests.add_tool] 10)
                   [] [mkMessage "user" "Hi"]))
        with (Some "The answer is 42."%string) in He.
      now inversion He. }
    subst answer. split; [exact Hl|]. split; [exact Hh|exact Hd].
Defined.

End FinalAnswer.

(* ================================================================== *)
(** * C2: the extraction of tool calls *)
(* ================================================================== *)

Section Extraction.

Import Decorators Vocabulary Scenarios ReAct.







(** C2, at the failing inputs.  The payload [5] is a JSON text but not an
    object: the membership test on it raises [TypeError], which the
    [except] clause does not catch, and the extraction raises.  The payload
    ["name arguments"] is a JSON string that contains both key names: it is
    returned as a tool call.  The extraction of the tool-calling agent is
    the same function. *)
Lemma extraction_of_non_object_payloads :
  extract_tool_calls (tool_call_span "5")
  = Raise (mkExn TypeError "argument of type 'int' is not iterable")
  /\ extract_tool_calls (tool_call_span (dq "name arguments"))
     = Ret [VStr "name arguments"]
  /\ ToolCalling.extract_tool_calls = extract_tool_calls
  /\ extract_tool_calls
       (call_add ++ tool_call_span "not json" ++ tool_call_span "{}")
     = Ret [VDict [("name", VStr "add_two_numbers");
                   ("arguments", VDict [("a", VStr "10"); ("b", VStr "20")])]].
Proof. repeat split; vm_compute; reflexivity. Qed.

End Extraction.

(* ================================================================== *)
(** * The reflection agent *)
(* ================================================================== *)

Section ReflectionFacts.

Import Vocabulary Properties Reflection.

(** The loop of [run]: [n] rounds of reflection and improvement. *)
Lemma steps_spec (n : nat) :
  forall (self : agent) (tr : list event) (prev : string),
    generated_code self = Some prev ->
    exists new gen_new refl_new,
      snd (steps n self tr) = tr ++ new
      /\ completions new = (2 * n)%nat
      /\ dispatches new = []
      /\ relayed prev true new
      /\ generator_prompts (fst (steps n self tr))
         = generator_prompts self ++ gen_new
      /\ List.length gen_new = n
      /\ Forall from_user gen_new
      /\ reflection_prompts (fst (steps n self tr))
         = reflection_prompts self ++ refl_new
      /\ List.length refl_new = n
      /\ Forall from_user refl_new
      /\ num_steps (fst (steps n self tr)) = num_steps self
      /\ (n = O -> fst (steps n self tr) = self)
      /\ ((0 < n)%nat ->
          exists pre msgs r,
            new = pre ++ [EvCompletion msgs r]
            /\ improved_code (fst (steps n self tr)) = Some r
            /\ generated_code (fst (steps n self tr)) = Some r).
Proof.
  induction n as [|n IH]; intros self tr prev Hprev.
  - exists [], [], []. simpl. rewrite !app_nil_r.
    repeat split; auto. lia.
  - simpl.
    set (p1 := reflection_prompts self
                 ++ [mkMessage "user" (code_notice ++ shown (generated_code self))]).
    set (r1 := client self (model self) tr p1).
    set (p2 := generator_prompts self
                 ++ [mkMessage "user" (feedback_notice ++ shown (Some r1))]).
    set (r2 := client self (model self) (tr ++ [EvCompletion p1 r1]) p2).
    match goal with
    | |- context [steps n ?s ?t] =>
        destruct (IH s t r2 eq_refl)
          as (new & gen_new & refl_new & Ht & Hc & Hd & Hr & Hg & Hgl & Hgu
                & Hf & Hfl & Hfu & Hn & H0 & Hpos)
    end.
    exists (EvCompletion p1 r1 :: EvCompletion p2 r2 :: new),
      (mkMessage "user" (feedback_notice ++ shown (Some r1)) :: gen_new),
      (mkMessage "user" (code_notice ++ shown (generated_code self))
         :: refl_new).
    rewrite Ht, Hg, Hf, Hn. simpl.
    repeat split.
    + now rewrite <- !app_assoc.
    + change (completions (EvCompletion p1 r1 :: EvCompletion p2 r2 :: new))
        with (S (S (completions new))). lia.
    + exact Hd.
    + exists (reflection_prompts self). unfold p1. now rewrite Hprev.
    + exists (generator_prompts self). reflexivity.
    + exact Hr.
    + unfold p2. now rewrite <- app_assoc.
    + now rewrite Hgl.
    + constructor; [reflexivity | exact Hgu].
    + unfold p1. now rewrite <- app_assoc.
    + now rewrite Hfl.
    + constructor; [reflexivity | exact Hfu].
    + discriminate.
    + intros _. destruct n as [|n].
      * rewrite (H0 eq_refl).
        assert (Hnew : new = []).
        { simpl in Ht. eapply app_inv_head. rewrite app_nil_r.
          symmetry. exact Ht. }
        subst new. exists [EvCompletion p1 r1], p2, r2. repeat split.
      * destruct Hpos as (pre & msgs & r & -> & Hi & Hgc); [lia|].
        exists (EvCompletion p1 r1 :: EvCompletion p2 r2 :: pre), msgs, r.
        repeat split; auto.
Qed.

(** X1.  The run of the reflection agent issues one completion call to generate
    and two for each step, none when [num_steps] is not positive, and
    dispatches nothing. *)
Theorem reflection_run_calls (self : agent) (tr : list event)
  (user_prompt : string) :
  exists new,
    snd (fst (run self tr user_prompt)) = tr ++ new
    /\ completions new = (1 + 2 * Z.to_nat (num_steps self))%nat
    /\ dispatches new = []
    /\ num_steps (fst (fst (run self tr user_prompt))) = num_steps self.
Proof.
  unfold run, generate_code. cbv zeta.
  match goal with
  | |- context [steps ?n ?s ?t] =>
      destruct (steps_spec n s t _ eq_refl)
        as (new & gen_new & refl_new & Ht & Hc & Hd & Hr & Hg & Hgl & Hgu
              & Hf & Hfl & Hfu & Hn & H0 & Hpos);
      destruct (steps n s t) as [self2 tr2] eqn:E
  end.
  cbn [fst snd num_steps] in *. subst tr2.
  eexists. split; [now rewrite <- app_assoc|]. split; [|split]; auto.
  rewrite completions_app, Hc. simpl. lia.
Qed.

(** X2.  What the run returns is [self.improved_code]: with a positive
    [num_steps], the response of the last completion call, which is then
    also [generated_code]; otherwise the value [improved_code] had before
    the run, which is [None] for an agent that has not run; the code that
    the run has just generated is kept in [generated_code], not returned. *)
Theorem reflection_run_result (self : agent) (tr : list event)
  (user_prompt : string) :
  (0 < num_steps self ->
   exists pre msgs r,
     snd (fst (run self tr user_prompt)) = pre ++ [EvCompletion msgs r]
     /\ snd (run self tr user_prompt) = Some r
     /\ improved_code (fst (fst (run self tr user_prompt))) = Some r
     /\ generated_code (fst (fst (run self tr user_prompt))) = Some r)
  /\ (num_steps self <= 0 ->
      snd (run self tr user_prompt) = improved_code self
      /\ improved_code (fst (fst (run self tr user_prompt)))
         = improved_code self
      /\ exists msgs r,
           snd (fst (run self tr user_prompt)) = tr ++ [EvCompletion msgs r]
           /\ generated_code (fst (fst (run self tr user_prompt))) = Some r).
Proof.
  unfold run, generate_code. cbv zeta.
  match goal with
  | |- context [steps ?n ?s ?t] =>
      destruct (steps_spec n s t _ eq_refl)
        as (new & gen_new & refl_new & Ht & Hc & Hd & Hr & Hg & Hgl & Hgu
              & Hf & Hfl & Hfu & Hn & H0 & Hpos);
      destruct (steps n s t) as [self2 tr2] eqn:E
  end.
  simpl in *. subst tr2. split.
  - intros Hp. destruct Hpos as (pre & msgs & r & -> & Hi & Hgc); [lia|].
    eexists. exists msgs, r. split; [|auto].
    rewrite app_assoc. reflexivity.
  - intros Hp. assert (Hz : Z.to_nat (num_steps self) = O) by lia.
    rewrite Hz in *. rewrite (H0 eq_refl). simpl.
    assert (Hnew : new = []).
    { simpl in E. inversion E; subst. eapply app_inv_head.
      rewrite app_nil_r. symmetry. eassumption. }
    subst new. rewrite app_nil_r. eauto 6.
Qed.

(** X3.  The prompts only grow.  A run appends to the generator prompts the
    user's prompt and one user message for each step, and to the
    reflection prompts one user message for each step; what they held
    before the run stays in front, so that a second run sends the
    messages of the first again. *)
Theorem reflection_prompts_grow (self : agent) (tr : list event)
  (user_prompt : string) :
  exists gen_new refl_new,
    generator_prompts (fst (fst (run self tr user_prompt)))
    = generator_prompts self ++ mkMessage "user" user_prompt :: gen_new
    /\ reflection_prompts (fst (fst (run self tr user_prompt)))
       = reflection_prompts self ++ refl_new
    /\ List.length gen_new = Z.to_nat (num_steps self)
    /\ List.length refl_new = Z.to_nat (num_steps self)
    /\ Forall from_user gen_new
    /\ Forall from_user refl_new.
Proof.
  unfold run, generate_code. cbv zeta.
  match goal with
  | |- context [steps ?n ?s ?t] =>
      destruct (steps_spec n s t _ eq_refl)
        as (new & gen_new & refl_new & Ht & Hc & Hd & Hr & Hg & Hgl & Hgu
              & Hf & Hfl & Hfu & Hn & H0 & Hpos);
      destruct (steps n s t) as [self2 tr2] eqn:E
  end.
  simpl in *. exists gen_new, refl_new.
  rewrite Hg, Hf, <- app_assoc. auto 7.
Qed.

(** X4.  The two blocks are fed each other's latest output.  The first call of a
    run sends the generator prompts with the user's prompt; every later
    call ends with a user message that quotes the response of the call
    just before it, as code to the reflection block and as feedback to the
    generator, in turn. *)
Theorem reflection_run_relays (self : agent) (tr : list event)
  (user_prompt : string) :
  exists r0 rest,
    snd (fst (run self tr user_prompt))
    = tr ++ EvCompletion
              (generator_prompts self ++ [mkMessage "user" user_prompt]) r0
            :: rest
    /\ relayed r0 true rest.
Proof.
  unfold run, generate_code. cbv zeta.
  match goal with
  | |- context [steps ?n ?s ?t] =>
      destruct (steps_spec n s t _ eq_refl)
        as (new & gen_new & refl_new & Ht & Hc & Hd & Hr & Hg & Hgl & Hgu
              & Hf & Hfl & Hfu & Hn & H0 & Hpos);
      destruct (steps n s t) as [self2 tr2] eqn:E
  end.
  simpl in *. subst tr2. eexists. exists new. split; [|exact Hr].
  now rewrite <- app_assoc.
Qed.

End ReflectionFacts.

(* ================================================================== *)
(** * Spans, final answers and plain text *)
(* ================================================================== *)

Section SpanFacts.

Import Decorators Vocabulary Scenarios Properties RunProperties ReAct.

Lemma search_span_sound (open close s group rest : string) :
  Re.search_span open close s = Some (group, rest) ->
  exists pre, s = (pre ++ open ++ group ++ close ++ rest)%string.
Proof.
  unfold Re.search_span.
  destruct (find_split open s) as [[pre after]|] eqn:E; [|discriminate].
  intros F. apply find_split_sound in E, F. subst. eauto.
Qed.

Lemma search_span_None (open close s : string) :
  Re.search_span open close s = None <-> ~ has_span open close s.
Proof.
  split.
  - intros H Hs. destruct (search_first_span _ _ _ Hs) as (? & ? & ? & _ & E).
    congruence.
  - intros H. destruct (Re.search_span open close s) as [[g r]|] eqn:E; auto.
    exfalso. apply H. destruct (search_span_sound _ _ _ _ _ E) as (pre & ->).
    exists pre, g, r. reflexivity.
Qed.

(** X5.  A final answer is found exactly in the texts that contain
    [<response>] with [</response>] somewhere after it. *)
Theorem final_response_iff_span (response : string) :
  (extract_final_response response = None
   <-> ~ has_span "<response>" "</response>" response)
  /\ ((exists t, extract_final_response response = Some t)
      <-> has_span "<response>" "</response>" response).
Proof.
  unfold extract_final_response, Re.search.
  pose proof (search_span_None "<response>" "</response>" response) as H.
  destruct (Re.search_span "<response>" "</response>" response)
    as [[g r]|] eqn:E.
  - destruct (search_span_sound _ _ _ _ _ E) as (pre & Hs).
    assert (Hspan : has_span "<response>" "</response>" response)
      by (exists pre, g, r; exact Hs).
    split; split; intros X; try discriminate; eauto.
    exfalso. now apply X.
  - assert (Hn : ~ has_span "<response>" "</response>" response)
      by now apply H.
    split; split; intros X; auto.
    + destruct X; discriminate.
    + contradiction.
Qed.

(** X6.  A text without a [<tool_call>] that a [</tool_call>] follows yields no
    tool call and no error, in both agents: so the empty text, a text
    without tags, and a text whose tag is never closed. *)
Theorem no_span_no_tool_calls (response : string) :
  ~ has_span "<tool_call>" "</tool_call>" response ->
  extract_tool_calls response = Ret []
  /\ ToolCalling.extract_tool_calls response = Ret [].
Proof.
  intros H. apply search_span_None in H.
  unfold ToolCalling.extract_tool_calls, extract_tool_calls, Re.findall.
  simpl. rewrite H. auto.
Qed.

Lemma no_span_no_tool_calls_witness :
  ~ has_span "<tool_call>" "</tool_call>" "Let me think. <tool_call>{"
  /\ extract_tool_calls "Let me think. <tool_call>{" = Ret []
  /\ ToolCalling.extract_tool_calls "Let me think. <tool_call>{" = Ret [].
Proof.
  assert (H : ~ has_span "<tool_call>" "</tool_call>"
                  "Let me think. <tool_call>{")
    by (apply search_span_None; reflexivity).
  split; [exact H|]. exact (no_span_no_tool_calls _ H).
Defined.

(** X7.  When the response of a turn contains neither a final answer nor a tool
    call, the loop of the ReAct agent ends in that turn: it returns the
    response as it is; the history of the agent it leaves is the history
    it found followed by the response as the assistant's message; the
    completion call is the only event, so nothing is dispatched; and the
    registry and the budget are as they were. *)
Theorem plain_text_ends_the_loop (self : agent) (tr : list event)
  (messages : list message) (iterations : Z) (fuel : nat) :
  iterations < max_iterations self ->
  ~ has_span "<response>" "</response>" (llm self tr messages) ->
  ~ has_span "<tool_call>" "</tool_call>" (llm self tr messages) ->
  exists self',
    loop (S fuel) self tr messages iterations
    = Some (self',
            tr ++ [EvCompletion messages (llm self tr messages)],
            Ret (llm self tr messages))
    /\ conversation_history self'
       = conversation_history self
           ++ [mkMessage "assistant" (llm self tr messages)]
    /\ tools self' = tools self
    /\ max_iterations self' = max_iterations self.
Proof.
  intros Hit Hr Hc. rewrite loop_unfold. apply Z.ltb_lt in Hit.
  rewrite Hit. cbv zeta.
  apply search_span_None in Hr, Hc.
  unfold extract_final_response, Re.search. rewrite Hr.
  unfold extract_tool_calls, Re.findall. simpl. rewrite Hc.
  eexists. split; [reflexivity|]. repeat split.
Qed.

Lemma plain_text_ends_the_loop_witness :
  exists self',
    loop 1 (init (always "Hello.") EmptyString [Tests.add_tool] 10)
      [] [mkMessage "user" "Hi"] 0
    = Some (self',
            [EvCompletion [mkMessage "user" "Hi"] "Hello."], Ret "Hello.")
    /\ conversation_history self' = [mkMessage "assistant" "Hello."]
    /\ tools self' = [("add_two_numbers", Tests.add_tool)]
    /\ max_iterations self' = 10.
Proof.
  apply (plain_text_ends_the_loop
           (init (always "Hello.") EmptyString [Tests.add_tool] 10) []
           [mkMessage "user" "Hi"] 0 0).
  - reflexivity.
  - apply search_span_None. reflexivity.
  - apply search_span_None. reflexivity.
Defined.

Lemma lstrip_clean (s : string) : starts_clean (lstrip s) = true.
Proof.
  induction s as [|c s IH]; simpl; auto.
  destruct (isspace c) eqn:E; auto. simpl. now rewrite E.
Qed.

Lemma lstrip_fixed (s : string) : starts_clean s = true -> lstrip s = s.
Proof.
  destruct s as [|c s]; simpl; auto.
  destruct (isspace c); [discriminate | auto].
Qed.

Lemma rstrip_clean (s : string) :
  starts_clean s = true -> starts_clean (rstrip s) = true.
Proof.
  destruct s as [|c s]; simpl; auto.
  intros H. destruct (rstrip s); simpl; auto.
  destruct (isspace c) eqn:E; [discriminate|]. simpl. now rewrite E.
Qed.

Lemma rstrip_rstrip (s : string) : rstrip (rstrip s) = rstrip s.
Proof.
  induction s as [|c s IH]; simpl; auto.
  destruct (rstrip s) as [|c' r] eqn:E.
  - destruct (isspace c) eqn:Ec; simpl; auto. now rewrite Ec.
  - change (rstrip (String c (String c' r)))
      with (match rstrip (String c' r) with
            | EmptyString =>
                if isspace c then EmptyString else String c EmptyString
            | x => String c x
            end).
    now rewrite IH.
Qed.

Lemma strip_strip (s : string) : strip (strip s) = strip s.
Proof.
  unfold strip.
  rewrite (lstrip_fixed (rstrip (lstrip s))).
  - apply rstrip_rstrip.
  - apply rstrip_clean, lstrip_clean.
Qed.

(** X8.  The final answer carries no white space at either end: stripping it
    again changes nothing. *)
Theorem final_response_is_stripped (response t : string) :
  extract_final_response response = Some t ->
  strip t = t /\ lstrip t = t /\ rstrip t = t.
Proof.
  unfold extract_final_response.
  destruct (Re.search _ _ response) as [g|]; [|discriminate].
  intros H; inversion H; subst. split; [apply strip_strip|]. split.
  - apply lstrip_fixed. unfold strip. apply rstrip_clean, lstrip_clean.
  - unfold strip. apply rstrip_rstrip.
Qed.

Lemma final_response_is_stripped_witness :
  extract_final_response final_42 = Some "The answer is 42."
  /\ strip "The answer is 42." = "The answer is 42."
  /\ lstrip "The answer is 42." = "The answer is 42."
  /\ rstrip "The answer is 42." = "The answer is 42.".
Proof.
  split; [reflexivity|].
  exact (final_response_is_stripped final_42 "The answer is 42." eq_refl).
Defined.

End SpanFacts.

(* ================================================================== *)
(** * Dispatch, and the shape of a run *)
(* ================================================================== *)

Section RunFacts.

Import Decorators Vocabulary Scenarios Properties RunProperties.

#[local] Arguments caught : simpl never.

Lemma react_execute_tool_keeps_dict (self : ReAct.agent) (c c' v : value) :
  ReAct.execute_tool self c = (c', Ret v) -> exists d', c' = VDict d'.
Proof.
  destruct c as [| | | | | |d]; try (intros H; inversion H; fail).
  unfold ReAct.execute_tool.
  destruct (tool_name <- get (VDict d) "name" VNone ;;
            arguments <- get (VDict d) "arguments" (VDict []) ;;
            found <- ReAct.find_tool (ReAct.tools self) tool_name ;;
            Ret (tool_name, arguments, found))
    as [[[n a] [t|]]|e].
  - destruct (ReAct.validate _ t a) as [a' [u|e]].
    + destruct (contains_key "arguments" (VDict d)) as [[|]|e];
        intros H; inversion H; simpl; eauto.
    + intros H; inversion H.
  - intros H; inversion H; eauto.
  - intros H; inversion H.
Qed.

Lemma dispatch_with_until_raise (exec : value -> value * outcome value) :
  (forall c c' v, exec c = (c', Ret v) -> exists d, c' = VDict d) ->
  forall (calls : list value) (tr : list event),
    fst (ReAct.dispatch_with exec calls tr)
    = tr ++ map EvDispatch (fst (until_raise exec calls))
    /\ match snd (until_raise exec calls) with
       | Some e => snd (ReAct.dispatch_with exec calls tr) = Raise e
       | None =>
           exists results,
             snd (ReAct.dispatch_with exec calls tr) = Ret results
             /\ map ReAct.res_result results = returned exec calls
             /\ fst (until_raise exec calls) = calls
       end.
Proof.
  intros Hexec. induction calls as [|c cs IH]; intros tr; simpl.
  - rewrite app_nil_r. split; auto. exists []. auto.
  - unfold returned; simpl. fold (returned exec cs).
    destruct (exec c) as [c' [v|e]] eqn:E; simpl.
    + destruct (Hexec _ _ _ E) as (d & ->). simpl.
      specialize (IH (tr ++ [EvDispatch c])).
      destruct (ReAct.dispatch_with exec cs (tr ++ [EvDispatch c]))
        as [tr2 rest].
      destruct (until_raise exec cs) as [l o]. simpl in *.
      destruct IH as (-> & IH).
      destruct (dict_get "name" d), (dict_get "arguments" d); simpl;
        (split; [now rewrite <- app_assoc|]);
        (destruct o as [e|];
         [now rewrite IH
         |destruct IH as (results & -> & Hr & Hl); subst l;
          eexists; split; [reflexivity|]; simpl; now rewrite Hr]).
    + split; auto.
Qed.

(** X9.  The tool calls of a response are dispatched in the order of their
    extraction, and the dispatch stops at the first call on which
    [execute_tool] raises: the calls dispatched are those up to and
    including that one, and the error is that of the dispatch; when none
    raises, every call is dispatched once and the results are those that
    [execute_tool] returned, in order.  This holds of both agents. *)
Theorem dispatch_stops_at_first_error (calls : list value) (tr : list event) :
  (forall self : ReAct.agent,
      fst (ReAct.dispatch self calls tr)
      = tr ++ map EvDispatch
                (fst (until_raise (ReAct.execute_tool self) calls))
      /\ match snd (until_raise (ReAct.execute_tool self) calls) with
         | Some e => snd (ReAct.dispatch self calls tr) = Raise e
         | None =>
             exists results,
               snd (ReAct.dispatch self calls tr) = Ret results
               /\ map ReAct.res_result results
                  = returned (ReAct.execute_tool self) calls
               /\ fst (until_raise (ReAct.execute_tool self) calls) = calls
         end)
  /\ (forall self : ToolCalling.agent,
         fst (ToolCalling.dispatch self calls tr)
         = tr ++ map EvDispatch
                   (fst (until_raise (ToolCalling.execute_tool self) calls))
         /\ match snd (until_raise (ToolCalling.execute_tool self) calls) with
            | Some e => snd (ToolCalling.dispatch self calls tr) = Raise e
            | None =>
                exists results,
                  snd (ToolCalling.dispatch self calls tr) = Ret results
                  /\ map ReAct.res_result results
                     = returned (ToolCalling.execute_tool self) calls
                  /\ fst (until_raise (ToolCalling.execute_tool self) calls)
                     = calls
            end).
Proof.
  split; intros self.
  - apply dispatch_with_until_raise. apply react_execute_tool_keeps_dict.
  - apply dispatch_with_until_raise. apply execute_tool_keeps_dict.
Qed.

Lemma completions_cons_dispatches (e : event) (l : list value) :
  completions (e :: map EvDispatch l)
  = if is_completion e then 1%nat else 0%nat.
Proof.
  change (e :: map EvDispatch l) with ([e] ++ map EvDispatch l).
  rewrite completions_app, completions_dispatches.
  unfold completions. simpl. destruct (is_completion e); reflexivity.
Qed.

Lemma loop_shape (before : list message) (user_input : string) (fuel : nat) :
  forall (self : ReAct.agent) (tr : list event) (messages : list message)
         (iterations : Z),
    ReAct.conversation_history self
    = before ++ [mkMessage "user" user_input] ->
    (Z.to_nat (ReAct.max_iterations self - iterations) <= fuel)%nat ->
    exists self' new o,
      ReAct.loop fuel self tr messages iterations = Some (self', tr ++ new, o)
      /\ (completions new
          <= Z.to_nat (ReAct.max_iterations self - iterations))%nat
      /\ react_ending before user_input (ReAct.conversation_history self')
           new o
      /\ ReAct.tools self' = ReAct.tools self.
Proof.
  induction fuel as [|fuel IH]; intros self tr messages iterations Hh Hfuel.
  - simpl. destruct (iterations <? ReAct.max_iterations self) eqn:E.
    + apply Z.ltb_lt in E. lia.
    + exists self, [], (Ret ReAct.sentinel). rewrite app_nil_r.
      split; auto. split; [unfold completions; simpl; lia|].
      split; [now constructor|reflexivity].
  - rewrite loop_unfold.
    destruct (iterations <? ReAct.max_iterations self) eqn:E.
    2: { exists self, [], (Ret ReAct.sentinel). rewrite app_nil_r.
         split; auto. split; [unfold completions; simpl; lia|].
         split; [now constructor|reflexivity]. }
    apply Z.ltb_lt in E. cbv zeta.
    set (r := ReAct.llm self tr messages).
    assert (H1 : (completions [EvCompletion messages r]
                  <= Z.to_nat (ReAct.max_iterations self - iterations))%nat).
    { change (completions [EvCompletion messages r]) with 1%nat. lia. }
    assert (Ha : ReAct.conversation_history
                   (ReAct.remember self (mkMessage "assistant" r))
                 = before ++ [mkMessage "user" user_input;
                              mkMessage "assistant" r]).
    { simpl. rewrite Hh, <- app_assoc. reflexivity. }
    destruct (ReAct.extract_final_response r) as [t|] eqn:Ef.
    { eexists. exists [EvCompletion messages r]. eexists.
      split; [reflexivity|]. split; [exact H1|].
      split; [|reflexivity].
      apply (EndAnswered _ _ _ _ [] messages r); eauto. }
    destruct (ReAct.extract_tool_calls r) as [[|c cs]|e] eqn:Ec.
    + eexists. exists [EvCompletion messages r]. eexists.
      split; [reflexivity|]. split; [exact H1|].
      split; [|reflexivity].
      apply (EndAnswered _ _ _ _ [] messages r); eauto.
    + destruct (dispatch_with_until_raise (ReAct.execute_tool self)
                  (react_execute_tool_keeps_dict self) (c :: cs)
                  (tr ++ [EvCompletion messages r])) as (Ht & Ho).
      unfold ReAct.dispatch.
      destruct (ReAct.dispatch_with (ReAct.execute_tool self) (c :: cs)
                  (tr ++ [EvCompletion messages r])) as [tr2 [res|e]].
      * simpl in Ht. subst tr2.
        match goal with
        | |- exists _ _ _, ReAct.loop fuel self ?t ?m ?i = _ /\ _ =>
            destruct (IH self t m i Hh)
              as (self' & new & o & Hl & Hc & He & Hts); [lia|]
        end.
        rewrite Hl.
        exists self',
          (EvCompletion messages r
             :: map EvDispatch
                  (fst (until_raise (ReAct.execute_tool self) (c :: cs)))
             ++ new), o.
        split; [now rewrite <- !app_assoc|]. split; [|split; [|exact Hts]].
        -- change (EvCompletion messages r :: ?l ++ new)
             with ((EvCompletion messages r :: l) ++ new).
           rewrite completions_app, completions_cons_dispatches. simpl.
           lia.
        -- destruct He as [pre msgs r' o Hn Hs Hr| Hs | e Hs].
           ++ apply (EndAnswered _ _ _ _
                       (EvCompletion messages r
                          :: map EvDispatch
                               (fst (until_raise (ReAct.execute_tool self)
                                       (c :: cs))) ++ pre) msgs r'); auto.
              rewrite Hn. simpl. now rewrite <- !app_assoc.
           ++ now constructor.
           ++ now constructor.
      * simpl in Ht. subst tr2.
        exists self,
          (EvCompletion messages r
             :: map EvDispatch
                  (fst (until_raise (ReAct.execute_tool self) (c :: cs)))),
          (Raise e).
        split; [now rewrite <- !app_assoc|]. split; [|split].
        -- rewrite completions_cons_dispatches. simpl. lia.
        -- now constructor.
        -- reflexivity.
    + exists self, [EvCompletion messages r], (Raise e).
      split; [reflexivity|]. split; [exact H1|].
      split; [now constructor|reflexivity].
Qed.

(** X10.  Every run of the ReAct agent ends, whatever the model answers.  It
    issues at most [max_iterations] completion calls.  The history it
    leaves is the history it found, followed by the user's message and,
    when the run ends with a response of the model, by that response as
    the model gave it; the responses that asked for tools and the tool
    results of the run are never stored in the history.  When the run
    ends by exhaustion or with an error, the user's message is all it has
    appended.  The registry is as it was. *)
Theorem react_run_shape (self : ReAct.agent) (tr : list event)
  (user_input : string) :
  exists self' new o,
    ReAct.run self tr user_input = Some (self', tr ++ new, o)
    /\ (completions new <= Z.to_nat (ReAct.max_iterations self))%nat
    /\ react_ending (ReAct.conversation_history self) user_input
         (ReAct.conversation_history self') new o
    /\ ReAct.tools self' = ReAct.tools self.
Proof.
  unfold ReAct.run.
  destruct (ReAct.format_tools_for_prompt _) as [text|e].
  - match goal with
    | |- exists _ _ _, ReAct.loop ?f ?s ?t ?m ?i = _ /\ _ =>
        destruct (loop_shape (ReAct.conversation_history self) user_input
                    f s t m i eq_refl)
          as (self' & new & o & Hl & Hc & He & Hts)
    end.
    + simpl. lia.
    + exists self', new, o. split; [exact Hl|]. split; [|split].
      * simpl in Hc. rewrite Z.sub_0_r in Hc. exact Hc.
      * exact He.
      * exact Hts.
  - eexists. exists [], (Raise e). rewrite app_nil_r.
    split; [reflexivity|]. split; [unfold completions; simpl; lia|].
    split; [now constructor|reflexivity].
Qed.


End RunFacts.

(* ================================================================== *)
(** * The dispatcher, the tools block and the order of the registry *)
(* ================================================================== *)

Section DispatcherFacts.

Import Decorators Vocabulary Scenarios Properties RunProperties
  RegistryProperties ScopeProperties.

#[local] Arguments caught : simpl never.

Lemma hashable_cases (v : value) :
  (is_unhashable v = true /\ exists e, hashable v = Raise e
                                       /\ exn_class e = TypeError)
  \/ (is_unhashable v = false /\ hashable v = Ret tt).
Proof.
  destruct v; simpl; unfold raise;
    first [ right; split; reflexivity
          | left; split; [reflexivity|]; eexists; split; reflexivity ].
Qed.



Lemma load_specifications_valid (ts : list Tool) :
  Forall (fun t => json_loads (specification t) <> None) ts ->
  ReAct.load_specifications ts = Ret (map ToolCalling.tool_json ts).
Proof.
  induction 1 as [|t ts Ht _ IH]; simpl; auto.
  unfold ToolCalling.tool_json, loads.
  destruct (json_loads (specification t)); [|contradiction].
  simpl. now rewrite IH.
Qed.






Lemma existsb_eqb_In (k : string) (l : list string) :
  existsb (String.eqb k) l = true <-> In k l.
Proof.
  rewrite existsb_exists. split.
  - intros (x & Hx & E). apply String.eqb_eq in E. now subst.
  - intros H. exists k. split; auto. apply String.eqb_refl.
Qed.

Lemma dict_mem_existsb {V} (k : string) (d : list (string * V)) :
  dict_mem k d = existsb (String.eqb k) (keys d).
Proof.
  unfold dict_mem, keys. induction d as [|[k' v] d IH]; simpl; auto.
  destruct (String.eqb k k'); auto.
Qed.

Lemma registry_fold_keys (ts : list Tool) :
  forall acc : list (string * Tool),
    keys (fold_left register (map (fun t => (name t, t)) ts) acc)
    = keys acc ++ first_occurrences (keys acc) (map name ts).
Proof.
  induction ts as [|t ts IH]; intros acc; simpl.
  - now rewrite app_nil_r.
  - rewrite IH.
    change (register acc (name t, t)) with (dict_set (name t) t acc).
    rewrite keys_dict_set, dict_mem_existsb.
    destruct (existsb (String.eqb (name t)) (keys acc)); auto.
    now rewrite <- app_assoc.
Qed.

Lemma first_occurrences_NoDup (names : list string) :
  forall seen,
    NoDup seen -> NoDup (seen ++ first_occurrences seen names).
Proof.
  induction names as [|n names IH]; intros seen Hs; simpl.
  - now rewrite app_nil_r.
  - destruct (existsb (String.eqb n) seen) eqn:E; auto.
    change (n :: first_occurrences (seen ++ [n]) names)
      with ([n] ++ first_occurrences (seen ++ [n]) names).
    rewrite app_assoc. apply IH.
    apply NoDup_app; auto.
    + repeat constructor. intros [].
    + intros x Hx [<-|[]].
      apply existsb_eqb_In in Hx. congruence.
Qed.

Lemma first_occurrences_In (names : list string) :
  forall seen n,
    In n (seen ++ first_occurrences seen names) <-> In n seen \/ In n names.
Proof.
  induction names as [|x names IH]; intros seen n; simpl.
  - rewrite app_nil_r. tauto.
  - destruct (existsb (String.eqb x) seen) eqn:E.
    + rewrite IH. apply existsb_eqb_In in E.
      split; [tauto|]. intros [H|[H|H]]; subst; auto.
    + change (x :: first_occurrences (seen ++ [x]) names)
        with ([x] ++ first_occurrences (seen ++ [x]) names).
      rewrite app_assoc, IH, in_app_iff. simpl. tauto.
Qed.

(** X15.  The keys of the registry are the names of the tools, each once, in the
    order in which they first occur in the list: a tool that bears the name
    of an earlier one takes its place, not a new one.  This is the order of
    the tools in the prompt.  It is the same in both agents. *)
Theorem registry_keeps_first_positions (llm : completion) (prompt : string)
  (ts : list Tool) (budget : Z) :
  keys (ReAct.tools (ReAct.init llm prompt ts budget))
  = first_occurrences [] (map name ts)
  /\ ToolCalling.tools (ToolCalling.init llm prompt ts)
     = ReAct.tools (ReAct.init llm prompt ts budget)
  /\ NoDup (keys (ReAct.tools (ReAct.init llm prompt ts budget)))
  /\ (forall n,
         In n (keys (ReAct.tools (ReAct.init llm prompt ts budget)))
         <-> In n (map name ts))
  /\ (List.length (ReAct.tools (ReAct.init llm prompt ts budget))
      <= List.length ts)%nat.
Proof.
  assert (K : keys (ReAct.tools (ReAct.init llm prompt ts budget))
              = first_occurrences [] (map name ts)).
  { simpl. unfold dict_of_pairs.
    change (fun d (kv : string * Tool) => dict_set (fst kv) (snd kv) d)
      with register.
    now rewrite registry_fold_keys. }
  split; [exact K|]. split; [reflexivity|]. split; [|split].
  - rewrite K. apply (first_occurrences_NoDup (map name ts) []). constructor.
  - intros n. rewrite K.
    rewrite <- (app_nil_l (first_occurrences [] (map name ts))).
    rewrite first_occurrences_In. simpl. tauto.
  - assert (L : List.length (ReAct.tools (ReAct.init llm prompt ts budget))
                = List.length
                    (keys (ReAct.tools (ReAct.init llm prompt ts budget))))
      by (unfold keys; now rewrite length_map).
    rewrite L, K. rewrite <- (length_map name ts).
    generalize (map name ts) as names. generalize (@nil string) as seen.
    intros seen names; revert seen.
    induction names as [|n names IH]; intros seen; simpl; auto.
    destruct (existsb (String.eqb n) seen); simpl.
    + specialize (IH seen). lia.
    + specialize (IH (seen ++ [n])). lia.
Qed.

End DispatcherFacts.

(* ================================================================== *)
(** * The coercion as a whole *)
(* ================================================================== *)

Section CoercionShape.

Import Decorators Vocabulary Scenarios CoercionProperties ScopeProperties
  ReAct.

#[local] Arguments caught : simpl never.

Lemma convert_item_converter (props : value) (k : string) (v : value) :
  convert_item props k v =
  match converter_for props k with
  | Raise e => Raise e
  | Ret None => Ret None
  | Ret (Some c) => try_convert c v
  end.
Proof.
  unfold convert_item, converter_for.
  destruct (contains_key k props) as [[]|]; simpl; try reflexivity.
  destruct (getitem props k) as [entry|]; simpl; try reflexivity.
  destruct (contains_key "type" entry) as [[]|]; simpl; try reflexivity.
  destruct (getitem entry "type") as [ty|]; reflexivity.
Qed.

Lemma try_convert_cases (c : pytype) (v : value) :
  try_convert c v =
  if isinstance v c then Ret None
  else match convert c v with
       | Ret x => Ret (Some x)
       | Raise e => if caught [ValueError; TypeError] e then Ret None
                    else Raise e
       end.
Proof.
  unfold try_convert, try_except.
  destruct (isinstance v c); simpl; auto.
  destruct (convert c v); simpl; auto.
Qed.

Lemma convert_isinstance (t : pytype) (v x : value) :
  convert t v = Ret x -> isinstance x t = true.
Proof.
  destruct t, v; simpl; unfold raise, bind; intros H;
    try discriminate; try (inversion H; subst; reflexivity);
    repeat match type of H with
           | context [match ?m with _ => _ end] =>
               destruct m; simpl in H; unfold raise in H
           end;
    try discriminate; inversion H; reflexivity.
Qed.


Lemma convert_item_stable (props : value) (k : string) (v x : value) :
  convert_item props k v = Ret (Some x) -> convert_item props k x = Ret None.
Proof.
  rewrite !convert_item_converter.
  destruct (converter_for props k) as [[c|]|]; try discriminate.
  rewrite !try_convert_cases.
  destruct (isinstance v c); [discriminate|].
  destruct (convert c v) as [y|e] eqn:E.
  - intros H; inversion H; subst. now rewrite (convert_isinstance _ _ _ E).
  - destruct (caught _ e); discriminate.
Qed.

Lemma convert_items_none (props : value) :
  forall its acc : dict,
    (forall k v, In (k, v) its -> convert_item props k v = Ret None) ->
    convert_items props its acc = (acc, Ret tt).
Proof.
  induction its as [|[k v] its IH]; intros acc H; simpl; auto.
  rewrite (H k v) by (left; reflexivity).
  apply IH. intros k' v' Hin. apply H. now right.
Qed.

Lemma dict_set_app_fresh {V} (k : string) (x v : V) :
  forall pre rest : list (string * V),
    ~ In k (keys pre) ->
    dict_set k x (pre ++ (k, v) :: rest) = pre ++ (k, x) :: rest.
Proof.
  induction pre as [|[k' v'] pre IH]; intros rest Hn; simpl.
  - now rewrite String.eqb_refl.
  - destruct (String.eqb_spec k k') as [->|Hne].
    + exfalso. apply Hn. now left.
    + rewrite IH; auto. intros Hin. apply Hn. now right.
Qed.

Lemma keys_app {V} (a b : list (string * V)) :
  keys (a ++ b) = keys a ++ keys b.
Proof. unfold keys. apply map_app. Qed.

Lemma convert_items_closed (props : value) :
  forall its pre : dict,
    NoDup (keys (pre ++ its)) ->
    snd (convert_items props its (pre ++ its)) = Ret tt ->
    fst (convert_items props its (pre ++ its))
    = pre ++ map (coerced props) its.
Proof.
  induction its as [|[k v] its IH]; intros pre Hnd Hr; simpl in *; auto.
  assert (Hk : ~ In k (keys pre)).
  { rewrite keys_app in Hnd. simpl in Hnd.
    apply NoDup_remove_2 in Hnd. intros Hin. apply Hnd.
    apply in_or_app. now left. }
  unfold coerced at 1. simpl.
  destruct (convert_item props k v) as [[x|]|e] eqn:E.
  - rewrite (dict_set_app_fresh k x v pre its Hk) in *.
    change (pre ++ (k, x) :: its) with (pre ++ [(k, x)] ++ its) in *.
    rewrite app_assoc in *. rewrite IH; auto.
    + now rewrite <- app_assoc.
    + rewrite !keys_app in *. simpl in *. now rewrite <- app_assoc.
  - change (pre ++ (k, v) :: its) with (pre ++ [(k, v)] ++ its) in *.
    rewrite app_assoc in *. rewrite IH; auto.
    now rewrite <- app_assoc.
  - discriminate.
Qed.

Lemma keys_coerced (props : value) (its : dict) :
  keys (map (coerced props) its) = keys its.
Proof.
  unfold keys. rewrite map_map. apply map_ext. now intros [k v].
Qed.

Lemma keys_convert_items (props : value) :
  forall its acc : dict,
    (forall k, In k (keys its) -> In k (keys acc)) ->
    keys (fst (convert_items props its acc)) = keys acc.
Proof.
  induction its as [|[k v] its IH]; intros acc H; simpl; auto.
  destruct (convert_item props k v) as [[x|]|e]; simpl; auto.
  - assert (K : keys (dict_set k x acc) = keys acc).
    { rewrite keys_dict_set, dict_mem_existsb.
      assert (In k (keys acc)) as Hin by (apply H; now left).
      apply existsb_eqb_In in Hin. now rewrite Hin. }
    rewrite IH; auto. intros k' Hin. rewrite K. apply H. now right.
  - apply IH. intros k' Hin. apply H. now right.
Qed.


Lemma convert_items_ret_each (props : value) :
  forall its acc : dict,
    snd (convert_items props its acc) = Ret tt ->
    forall k v, In (k, v) its -> exists o, convert_item props k v = Ret o.
Proof.
  induction its as [|[k0 v0] its IH]; intros acc H k v Hin; simpl in *;
    [contradiction|].
  destruct (convert_item props k0 v0) as [[x|]|e0] eqn:E;
    try (simpl in H; discriminate);
    (destruct Hin as [Heq|Hin]; [inversion Heq; subst; eauto|eauto]).
Qed.


(** X16.  The coercion never adds, drops, renames or reorders an argument, and
    touches nothing else in the call: whatever the specification, and
    whether it returns or raises, the call it leaves is the call it was
    given with, under ["arguments"], a mapping with the same keys in the
    same order. *)
Theorem coercion_keeps_argument_names (tc args : dict) (tool_spec : value) :
  dict_get "arguments" tc = Some (VDict args) ->
  exists args',
    fst (convert_argument_types (VDict tc) tool_spec)
    = VDict (dict_set "arguments" (VDict args') tc)
    /\ keys args' = keys args
    /\ keys (dict_set "arguments" (VDict args') tc) = keys tc.
Proof.
  intros Ha.
  assert (Hk : forall a, keys (dict_set "arguments" a tc) = keys tc).
  { intros a. rewrite keys_dict_set. unfold dict_mem. now rewrite Ha. }
  unfold convert_argument_types.
  destruct (properties_of tool_spec) as [[props|]|e]; simpl.
  - rewrite Ha. simpl.
    destruct (convert_items props args args) as [args' r] eqn:E. simpl.
    exists args'. split; [reflexivity|]. split; auto.
    change args' with (fst (args', r)). rewrite <- E.
    apply keys_convert_items. auto.
  - exists args. rewrite (dict_set_unchanged _ _ _ Ha). auto.
  - exists args. rewrite (dict_set_unchanged _ _ _ Ha). auto.
Qed.

Lemma coercion_keeps_argument_names_witness :
  exists args',
    fst (convert_argument_types
           (VDict [("name", VStr "f");
                   ("arguments", VDict [("x", VStr "1"); ("y", VStr "z")])])
           (spec_of [("y", "int"); ("x", "int")]))
    = VDict (dict_set "arguments" (VDict args')
               [("name", VStr "f");
                ("arguments", VDict [("x", VStr "1"); ("y", VStr "z")])])
    /\ keys args' = keys [("x", VStr "1"); ("y", VStr "z")]
    /\ keys (dict_set "arguments" (VDict args')
               [("name", VStr "f");
                ("arguments", VDict [("x", VStr "1"); ("y", VStr "z")])])
       = keys [("name", VStr "f");
               ("arguments", VDict [("x", VStr "1"); ("y", VStr "z")])].
Proof.
  apply (coercion_keeps_argument_names
           [("name", VStr "f");
            ("arguments", VDict [("x", VStr "1"); ("y", VStr "z")])]
           [("x", VStr "1"); ("y", VStr "z")]
           (spec_of [("y", "int"); ("x", "int")])).
  reflexivity.
Defined.

(** X17.  When the coercion returns, every argument that the specification
    declares with a tag of the table either is an instance of the declared
    type, or is the value it was, whose conversion raised [ValueError] or
    [TypeError]; the arguments are otherwise those of the call, one by
    one.  The arguments are taken within the limit of digits, beyond
    which the interpreter refuses conversions that the embedding performs. *)
Theorem coerced_arguments_have_declared_types (tc args props : dict)
  (tool_spec : value) :
  dict_get "arguments" tc = Some (VDict args) ->
  NoDup (keys args) ->
  limit_free (VDict args) = true ->
  properties_section tool_spec = Some (VDict props) ->
  snd (convert_argument_types (VDict tc) tool_spec) = Ret tt ->
  fst (convert_argument_types (VDict tc) tool_spec)
  = VDict (dict_set "arguments"
             (VDict (map (coerced (VDict props)) args)) tc)
  /\ forall k v tag t,
       In (k, v) args ->
       declares props k tag = true ->
       type_mapping tag = Some t ->
       exists x,
         dict_get k (map (coerced (VDict props)) args) = Some x
         /\ (isinstance x t = true
             \/ (x = v
                 /\ exists e,
                      convert t v = Raise e
                      /\ caught [ValueError; TypeError] e = true)).
Proof.
  intros Ha Hnd _ Hs Hr.
  pose proof (properties_of_section _ _ Hs) as Hp.
  rewrite (convert_argument_types_unfold tc args tool_spec _ Ha Hp) in *.
  simpl in Hr. simpl fst.
  pose proof (convert_items_closed (VDict props) args [] Hnd Hr) as Hc.
  simpl in Hc. rewrite Hc. split; [reflexivity|].
  intros k v tag t Hin Hd Ht.
  assert (Hget : dict_get k (map (coerced (VDict props)) args)
                 = Some (snd (coerced (VDict props) (k, v)))).
  { apply In_dict_get; [now rewrite keys_coerced|].
    change (k, snd (coerced (VDict props) (k, v)))
      with (coerced (VDict props) (k, v)).
    now apply in_map. }
  rewrite Hget. eexists. split; [reflexivity|].
  unfold coerced. simpl.
  rewrite (convert_item_declared props k tag v Hd), Ht, try_convert_cases.
  destruct (isinstance v t) eqn:Ei; [now left|].
  destruct (convert t v) as [y|e] eqn:Ec.
  - left. eapply convert_isinstance; eauto.
  - destruct (caught [ValueError; TypeError] e) eqn:Eca.
    + right. split; eauto.
    + exfalso.
      destruct (convert_items_ret_each _ _ _ Hr k v Hin) as (o & Ho).
      rewrite (convert_item_declared props k tag v Hd), Ht,
        try_convert_cases, Ei, Ec, Eca in Ho. discriminate.
Qed.

Lemma coerced_arguments_have_declared_types_witness :
  fst (convert_argument_types
         (wrapped [("x", VStr "abc"); ("y", VStr "7");
                   ("z", VStr (String (chr 28) "5")); ("w", VInt 3)])
         (spec_of [("x", "float"); ("y", "int"); ("z", "int");
                   ("w", "string")]))
  = wrapped [("x", VStr "abc"); ("y", VInt 7);
             ("z", VStr (String (chr 28) "5")); ("w", VStr "3")].
Proof.
  refine (eq_trans
            (proj1 (coerced_arguments_have_declared_types
                      [("arguments",
                         VDict [("x", VStr "abc"); ("y", VStr "7");
                                ("z", VStr (String (chr 28) "5"));
                                ("w", VInt 3)])]
                      [("x", VStr "abc"); ("y", VStr "7");
                       ("z", VStr (String (chr 28) "5")); ("w", VInt 3)]
                      [("x", VDict [("type", VStr "float")]);
                       ("y", VDict [("type", VStr "int")]);
                       ("z", VDict [("type", VStr "int")]);
                       ("w", VDict [("type", VStr "string")])]
                      (spec_of [("x", "float"); ("y", "int"); ("z", "int");
                                ("w", "string")])
                      eq_refl _ eq_refl eq_refl _)) _).
  - repeat constructor; simpl; intuition discriminate.
  - vm_compute. reflexivity.
  - vm_compute. reflexivity.
Defined.

(** X18.  Coercing twice is coercing once: on the call that a coercion has
    returned, a second coercion against the same specification changes
    nothing and returns. *)
Theorem coercion_is_idempotent (tc args : dict) (tool_spec : value) :
  dict_get "arguments" tc = Some (VDict args) ->
  NoDup (keys args) ->
  snd (convert_argument_types (VDict tc) tool_spec) = Ret tt ->
  convert_argument_types
    (fst (convert_argument_types (VDict tc) tool_spec)) tool_spec
  = (fst (convert_argument_types (VDict tc) tool_spec), Ret tt).
Proof.
  intros Ha Hnd Hr.
  destruct (properties_of tool_spec) as [[props|]|e] eqn:Hp.
  - rewrite (convert_argument_types_unfold tc args tool_spec _ Ha Hp) in *.
    simpl in Hr. simpl fst.
    pose proof (convert_items_closed props args [] Hnd Hr) as Hc.
    simpl in Hc. rewrite Hc.
    rewrite (convert_argument_types_unfold
               (dict_set "arguments" (VDict (map (coerced props) args)) tc)
               (map (coerced props) args) tool_spec props
               (dict_get_set_same _ _ _) Hp).
    assert (Hn : convert_items props (map (coerced props) args)
                   (map (coerced props) args)
                 = (map (coerced props) args, Ret tt)).
    { apply convert_items_none. intros k x Hin.
      apply in_map_iff in Hin. destruct Hin as ([k' v] & Heq & Hin).
      unfold coerced in Heq. simpl in Heq. inversion Heq; subst k'.
      destruct (convert_items_ret_each _ _ _ Hr k v Hin) as ([y|] & Ho);
        rewrite Ho in *; subst x; auto.
      eapply convert_item_stable; eauto. }
    rewrite Hn. simpl.
    now rewrite (dict_set_unchanged _ _ _ (dict_get_set_same _ _ _)).
  - unfold convert_argument_types. rewrite Hp. simpl. rewrite ?Hp.
    reflexivity.
  - unfold convert_argument_types in Hr. rewrite Hp in Hr. discriminate.
Qed.

Lemma coercion_is_idempotent_witness :
  convert_argument_types
    (fst (convert_argument_types
            (wrapped [("x", VStr "abc"); ("y", VStr "7")])
            (spec_of [("x", "float"); ("y", "int")])))
    (spec_of [("x", "float"); ("y", "int")])
  = (fst (convert_argument_types
            (wrapped [("x", VStr "abc"); ("y", VStr "7")])
            (spec_of [("x", "float"); ("y", "int")])),
     Ret tt).
Proof.
  refine (coercion_is_idempotent
            [("arguments", VDict [("x", VStr "abc"); ("y", VStr "7")])]
            [("x", VStr "abc"); ("y", VStr "7")]
            (spec_of [("x", "float"); ("y", "int")])
            eq_refl _ _).
  - repeat constructor; simpl; intuition discriminate.
  - vm_compute. reflexivity.
Defined.



End CoercionShape.

(* ================================================================== *)
(** * What the dispatcher of the ReAct agent answers *)
(* ================================================================== *)

Section DispatcherAnswers.

Import Decorators Vocabulary Scenarios RunProperties CoercionProperties
  ScopeProperties.

#[local] Arguments caught : simpl never.










End DispatcherAnswers.

(* ================================================================== *)
(** * The decorator and the standalone coercion *)
(* ================================================================== *)

Section DecoratorFacts.

Import Decorators Vocabulary Scenarios CoercionProperties
  DecoratorProperties.

#[local] Arguments caught : simpl never.

Lemma parameter_types_raise (its : list (string * annotation)) (e : exn) :
  forall acc,
    parameter_types its acc = Raise e ->
    exn_class e = AttributeError
    /\ exists p t, In (p, Instance t) its /\ p <> "return"%string.
Proof.
  induction its as [|[p a] its IH]; intros acc H; simpl in H;
    [discriminate|].
  destruct (String.eqb_spec p "return") as [->|Hne]; simpl in H.
  - destruct (IH _ H) as (Hc & q & t & Hin & Hq). split; auto.
    exists q, t. split; auto. now right.
  - destruct a as [n|t]; simpl in H.
    + destruct (IH _ H) as (Hc & q & t & Hin & Hq). split; auto.
      exists q, t. split; auto. now right.
    + cbv [dunder_name raise bind] in H. inversion H; subst. split; auto.
      exists p, t. split; auto. now left.
Qed.

Lemma parameter_types_ret (its : list (string * annotation)) :
  forall acc d,
    parameter_types its acc = Ret d ->
    forall p t, In (p, Instance t) its -> p = "return"%string.
Proof.
  induction its as [|[p a] its IH]; intros acc d H q t Hin; simpl in *;
    [contradiction|].
  destruct (String.eqb_spec p "return") as [->|Hne]; simpl in H.
  - destruct Hin as [Heq|Hin]; [now inversion Heq|eauto].
  - destruct a as [n|t']; cbv [dunder_name raise bind] in H;
      [|discriminate].
    destruct Hin as [Heq|Hin]; [discriminate|eauto].
Qed.

Lemma In_annotations (f : callable) (p : string) (t : annotation) :
  ~ In "return"%string (declared_names f) ->
  (In (p, t) (annotations f) /\ p <> "return"%string)
  <-> In (p, Some t) (fn_params f).
Proof.
  intros Hr. unfold annotations.
  change (flat_map _ (fn_params f)) with (annotated (fn_params f)).
  rewrite in_app_iff, In_annotated. split.
  - intros [[H|H] Hp]; auto.
    destruct (fn_return f); simpl in H; [|contradiction].
    destruct H as [H|[]]. inversion H; subst. congruence.
  - intros H. split; auto. intros ->. apply Hr.
    unfold declared_names. apply in_map_iff. now exists ("return"%string, Some t).
Qed.

(** X20.  The decorator fails exactly on a function that has a parameter whose
    annotation has no [__name__], and then with [AttributeError], raised by
    [extract_function_metadata]; the annotation of the result is never
    looked at.  The tool it returns otherwise bears the name of the
    function, wraps the function itself, and carries the JSON text of the
    metadata; its [execute] is a call of the function for every set of
    keywords but those that have a keyword [self], on which it raises
    [TypeError] without calling. *)
Theorem decorator_needs_named_annotations (f : callable) :
  ~ In "return"%string (declared_names f) ->
  (badly_annotated f <-> exists e, tool f = Raise e)
  /\ (forall e, tool f = Raise e ->
                exn_class e = AttributeError
                /\ extract_function_metadata f = Raise e
                /\ ReAct.tool f = Raise e)
  /\ (forall t, tool f = Ret t ->
                name t = fn_name f
                /\ function t = fn_call f
                /\ (forall kwargs,
                      dict_mem "self" kwargs = false ->
                      execute t kwargs = fn_call f kwargs)
                /\ (forall kwargs,
                      dict_mem "self" kwargs = true ->
                      exists e, execute t kwargs = Raise e
                                /\ exn_class e = TypeError)
                /\ exists metadata,
                     extract_function_metadata f = Ret metadata
                     /\ specification t = dumps metadata).
Proof.
  intros Hr. unfold tool, extract_function_metadata, badly_annotated.
  destruct (parameter_types (annotations f) []) as [types|e] eqn:E; simpl.
  - split; [split|split].
    + intros (p & t & Hin). exfalso.
      apply (In_annotations f p (Instance t) Hr) in Hin.
      destruct Hin as (Hin & Hp). apply Hp.
      eapply parameter_types_ret; eauto.
    + intros (e & He). discriminate.
    + discriminate.
    + intros t Ht. inversion Ht; subst; simpl.
      split; [reflexivity|]. split; [reflexivity|].
      split; [|split].
      * intros kwargs Hk. unfold execute. now rewrite Hk.
      * intros kwargs Hk. unfold execute. rewrite Hk.
        eexists. split; reflexivity.
      * eexists. split; reflexivity.
  - destruct (parameter_types_raise _ _ _ E) as (Hc & p & t & Hin & Hp).
    split; [split|split].
    + eauto.
    + intros _. exists p, t. now apply (In_annotations f p (Instance t) Hr).
    + intros e' He. inversion He; subst. repeat split; auto.
      unfold ReAct.tool, tool, extract_function_metadata. now rewrite E.
    + discriminate.
Qed.

Lemma decorator_needs_named_annotations_witness :
  (badly_annotated string_annotated
   /\ exists e, tool string_annotated = Raise e
                /\ exn_class e = AttributeError)
  /\ name Tests.add_tool = "add_two_numbers"%string
  /\ execute Tests.add_tool [("a", VInt 1); ("b", VInt 2)] = Ret (VInt 3)
  /\ (exists e, execute Tests.add_tool [("self", VInt 1)] = Raise e
                /\ exn_class e = TypeError)
  /\ json_loads (specification Tests.add_tool)
     = Some (VDict
               [("name", VStr "add_two_numbers");
                ("description", VStr "Used to add two numbers together");
                ("parameters",
                  VDict [("properties",
                           VDict [("a", VDict [("type", VStr "int")]);
                                  ("b", VDict [("type", VStr "int")])])])]).
Proof.
  assert (Hs : ~ In "return"%string (declared_names string_annotated)).
  { simpl. intuition discriminate. }
  assert (Hr : ~ In "return"%string (declared_names Tests.add_two_numbers)).
  { simpl. intuition discriminate. }
  assert (Ht : tool Tests.add_two_numbers = Ret Tests.add_tool).
  { reflexivity. }
  destruct (decorator_needs_named_annotations string_annotated Hs)
    as (Hbad & Herr & _).
  destruct (decorator_needs_named_annotations Tests.add_two_numbers Hr)
    as (_ & _ & Hok).
  destruct (Hok Tests.add_tool Ht) as (Hn & _ & Hcall & Hself & m & Hm & Hspec).
  assert (B : badly_annotated string_annotated).
  { exists "a"%string, "str"%string. simpl. auto. }
  split; [split; [exact B|]|].
  - destruct (proj1 Hbad B) as (e & He). exists e. split; [exact He|].
    exact (proj1 (Herr e He)).
  - split; [exact Hn|]. split.
    + rewrite (Hcall [("a", VInt 1); ("b", VInt 2)] eq_refl). reflexivity.
    + split; [exact (Hself [("self", VInt 1)] eq_refl)|].
      rewrite Hspec. inversion Hm; subst. reflexivity.
Defined.

Lemma convert_items_strict_unfold (props : value) (k : string) (v : value)
  (its acc : dict) :
  Decorators.convert_items props ((k, v) :: its) acc =
  match strict_item props k v with
  | Raise e => (acc, Raise e)
  | Ret (Some x) => Decorators.convert_items props its (dict_set k x acc)
  | Ret None => Decorators.convert_items props its acc
  end.
Proof. reflexivity. Qed.

Lemma type_converters_mapping (tag : string) (t : pytype) :
  type_converters tag = Some t -> ReAct.type_mapping tag = Some t.
Proof.
  unfold type_converters, ReAct.type_mapping.
  destruct (String.eqb tag "int"); auto.
  destruct (String.eqb tag "str"); auto.
  destruct (String.eqb tag "bool"); auto.
  destruct (String.eqb tag "float"); auto. discriminate.
Qed.

Lemma strict_item_ret (props : value) (k : string) (v : value)
  (o : option value) :
  strict_item props k v = Ret o ->
  ReAct.convert_item props k v = Ret o
  /\ exists pd tag t,
       props = VDict pd
       /\ declares pd k tag = true
       /\ type_converters tag = Some t
       /\ isinstance match o with Some x => x | None => v end t = true.
Proof.
  unfold strict_item. intros H.
  destruct props as [| | | | | |pd];
    try (cbv [getitem raise bind] in H; discriminate).
  cbn [getitem] in H.
  destruct (dict_get k pd) as [entry|] eqn:Hk;
    [|cbv [raise bind] in H; discriminate].
  cbn [bind] in H.
  destruct entry as [| | | | | |en];
    try (cbv [get no_attribute raise bind] in H; discriminate).
  cbn [get] in H.
  assert (Hty : exists tag, dict_get "type" en = Some (VStr tag)).
  { destruct (dict_get "type" en) as [ty|]; cbn [bind] in H;
      [destruct ty; try (cbv [converter_of hashable raise bind] in H;
                         discriminate); eauto
      |cbv [converter_of hashable raise bind] in H; discriminate]. }
  destruct Hty as (tag & Hty). rewrite Hty in H. cbn [bind] in H.
  unfold converter_of in H. cbn [hashable bind] in H.
  destruct (type_converters tag) as [t|] eqn:Ht;
    [|cbv [raise bind] in H; discriminate].
  cbn [bind] in H.
  assert (Hd : declares pd k tag = true).
  { unfold declares. rewrite Hk, Hty. apply String.eqb_refl. }
  rewrite (convert_item_declared pd k tag v Hd),
    (type_converters_mapping _ _ Ht), try_convert_cases.
  destruct (isinstance v t) eqn:Ei; cbn [negb bind] in H.
  - inversion H; subst. split; auto. exists pd, tag, t. auto.
  - destruct (convert t v) as [x|e] eqn:Ec; cbn [bind] in H;
      [|discriminate].
    inversion H; subst. split; auto. exists pd, tag, t.
    repeat split; auto. eapply convert_isinstance; eauto.
Qed.

Lemma strict_items_ret (props : value) :
  forall its acc a,
    Decorators.convert_items props its acc = (a, Ret tt) ->
    ReAct.convert_items props its acc = (a, Ret tt)
    /\ forall k v, In (k, v) its ->
                   exists o, strict_item props k v = Ret o.
Proof.
  induction its as [|[k v] its IH]; intros acc a H.
  - simpl in *. split; auto. intros k v [].
  - rewrite convert_items_strict_unfold in H. simpl.
    destruct (strict_item props k v) as [o|e] eqn:E; [|discriminate].
    destruct (strict_item_ret _ _ _ _ E) as (Hc & _). rewrite Hc.
    destruct o as [x|]; destruct (IH _ _ H) as (Hi & Hall); split; auto;
      intros k' v' [Heq|Hin]; try (inversion Heq; subst; eauto); eauto.
Qed.

(** X21.  The standalone coercion of decorators.py is the strict one.  It
    returns only when every argument of the call is declared with one of
    the tags [int], [str], [bool] and [float]; every argument is then an
    instance of its declared type, and the coercion of the agents, given
    the same call and specification, does the same to it. *)
Theorem standalone_coercion_is_strict (tc args : dict) (function_spec : value) :
  dict_get "arguments" tc = Some (VDict args) ->
  NoDup (keys args) ->
  snd (Decorators.convert_argument_types (VDict tc) function_spec) = Ret tt ->
  ReAct.convert_argument_types (VDict tc) function_spec
  = Decorators.convert_argument_types (VDict tc) function_spec
  /\ exists props args',
       properties_section function_spec = Some props
       /\ fst (Decorators.convert_argument_types (VDict tc) function_spec)
          = VDict (dict_set "arguments" (VDict args') tc)
       /\ keys args' = keys args
       /\ forall k v,
            In (k, v) args ->
            exists pd tag t x,
              props = VDict pd
              /\ declares pd k tag = true
              /\ type_converters tag = Some t
              /\ dict_get k args' = Some x
              /\ isinstance x t = true.
Proof.
  intros Ha Hnd Hr.
  assert (Hsec : exists props,
             properties_section function_spec = Some props
             /\ ReAct.properties_of function_spec = Ret (Some props)
             /\ Decorators.convert_argument_types (VDict tc) function_spec
                = (VDict (dict_set "arguments"
                            (VDict (fst (Decorators.convert_items
                                           props args args))) tc),
                   snd (Decorators.convert_items props args args))).
  { unfold Decorators.convert_argument_types in *.
    destruct function_spec as [| | | | | |spec]; try discriminate.
    simpl in *.
    destruct (dict_get "parameters" spec) as [parameters|] eqn:Hp;
      [|discriminate].
    simpl in *.
    destruct parameters as [| | | | | |ps]; try discriminate. simpl in *.
    destruct (dict_get "properties" ps) as [props|] eqn:Hps; [|discriminate].
    exists props. split; [reflexivity|]. split.
    - unfold ReAct.properties_of. simpl. unfold dict_mem.
      rewrite Hp. simpl. unfold dict_mem. now rewrite Hps.
    - simpl. rewrite Ha. simpl.
      now destruct (Decorators.convert_items props args args). }
  destruct Hsec as (props & Hsec & Hpo & Hd). rewrite Hd in *. simpl in Hr.
  destruct (Decorators.convert_items props args args) as [args' r] eqn:E.
  simpl in Hr. subst r. simpl.
  destruct (strict_items_ret _ _ _ _ E) as (Hagree & Hall).
  rewrite (convert_argument_types_unfold tc args function_spec props
             Ha Hpo), Hagree. simpl.
  split; [reflexivity|].
  exists props, args'. split; auto. split; auto.
  assert (Hcl : args' = map (coerced props) args).
  { pose proof (convert_items_closed props args [] Hnd) as Hc.
    simpl in Hc. rewrite Hagree in Hc. simpl in Hc. now apply Hc. }
  split; [rewrite Hcl; apply keys_coerced|].
  intros k v Hin.
  destruct (Hall k v Hin) as (o & Ho).
  destruct (strict_item_ret _ _ _ _ Ho) as (Hc & pd & tag & t & -> & Hdecl
                                           & Ht & Hi).
  exists pd, tag, t, (snd (coerced (VDict pd) (k, v))).
  repeat split; auto.
  - rewrite Hcl. apply In_dict_get; [now rewrite keys_coerced|].
    change (k, snd (coerced (VDict pd) (k, v)))
      with (coerced (VDict pd) (k, v)).
    now apply in_map.
  - unfold coerced. simpl. rewrite Hc. now destruct o.
Qed.

Lemma standalone_coercion_is_strict_witness :
  ReAct.convert_argument_types
    (wrapped [("a", VStr "10"); ("b", VInt 20)])
    (spec_of [("a", "int"); ("b", "int")])
  = Decorators.convert_argument_types
      (wrapped [("a", VStr "10"); ("b", VInt 20)])
      (spec_of [("a", "int"); ("b", "int")]).
Proof.
  refine (proj1 (standalone_coercion_is_strict
                   [("arguments", VDict [("a", VStr "10"); ("b", VInt 20)])]
                   [("a", VStr "10"); ("b", VInt 20)]
                   (spec_of [("a", "int"); ("b", "int")])
                   eq_refl _ _)).
  - repeat constructor; simpl; intuition discriminate.
  - vm_compute. reflexivity.
Defined.

End DecoratorFacts.

(* ================================================================== *)
(** * Round trips: JSON texts, specifications and rendered calls *)
(* ================================================================== *)

Section JsonFacts.

Import Decorators Vocabulary Scenarios JsonProperties.

Lemma value_induction (P : value -> Prop) :
  P VNone ->
  (forall b, P (VBool b)) ->
  (forall z, P (VInt z)) ->
  (forall f, P (VFloat f)) ->
  (forall s, P (VStr s)) ->
  (forall l, Forall P l -> P (VList l)) ->
  (forall d, Forall (fun kv => P (snd kv)) d -> P (VDict d)) ->
  forall v, P v.
Proof.
  intros HN HB HI HF HS HL HD. fix IH 1.
  intros [|b|z|f|s|l|d].
  - exact HN.
  - apply HB.
  - apply HI.
  - apply HF.
  - apply HS.
  - apply HL. induction l as [|x l IHl]; constructor; [apply IH|exact IHl].
  - apply HD. induction d as [|[k x] d IHd]; constructor;
      [apply IH|exact IHd].
Qed.

Lemma emit_nil (r : option (list token)) : emit [] r = r.
Proof. now destruct r. Qed.

Lemma emit_emit (a b : list token) (r : option (list token)) :
  emit a (emit b r) = emit (a ++ b) r.
Proof. destruct r; simpl; auto. now rewrite app_assoc. Qed.

Lemma lex_escaped (c : ascii) (s : string) (acc : list ascii)
  (rest : string) :
  lex (LString acc) (escape_json (String c s) ++ rest)
  = lex (LString (c :: acc)) (escape_json s ++ rest).
Proof. destruct c as [[] [] [] [] [] [] [] []]; reflexivity. Qed.

Lemma text_cons (c : ascii) (acc : list ascii) (s : string) :
  (text (c :: acc) ++ s)%string = (text acc ++ String c s)%string.
Proof.
  unfold text. simpl. generalize (rev acc) as l.
  induction l as [|a l IH]; simpl; auto. now rewrite IH.
Qed.

Lemma append_empty (s : string) : (s ++ EmptyString)%string = s.
Proof. induction s; simpl; congruence. Qed.

Lemma lex_string_body (s : string) :
  forall acc rest,
    lex (LString acc) (escape_json s ++ String quote rest)
    = emit [TAtom (VStr (text acc ++ s))] (lex LDefault rest).
Proof.
  induction s as [|c s IH]; intros acc rest.
  - simpl. now rewrite append_empty.
  - rewrite lex_escaped, IH, text_cons. reflexivity.
Qed.

Lemma lex_json_string (s rest : string) :
  lex LDefault (json_string s ++ rest)
  = emit [TAtom (VStr s)] (lex LDefault rest).
Proof.
  unfold json_string. simpl. rewrite emit_nil, append_assoc. simpl.
  now rewrite lex_string_body.
Qed.

Lemma lex_word_close (acc : list ascii) (v : value) (rest : string) :
  word_value (text acc) = Some v ->
  closes rest = true ->
  lex (LWord acc) rest = emit [TAtom v] (lex LDefault rest).
Proof.
  intros Hw Hc. destruct rest as [|c r]; simpl in *.
  - now rewrite Hw.
  - apply negb_true_iff in Hc. rewrite Hc, Hw.
    destruct (start c) as [[st' toks]|]; simpl; auto.
    now destruct (lex st' r).
Qed.

Lemma closes_comma (s : string) : closes (", " ++ s) = true.
Proof. reflexivity. Qed.

Lemma lex_comma (s : string) :
  lex LDefault (", " ++ s) = emit [TComma] (lex LDefault s).
Proof. simpl. now rewrite emit_nil. Qed.

Lemma lex_colon (s : string) :
  lex LDefault (": " ++ s) = emit [TColon] (lex LDefault s).
Proof. simpl. now rewrite emit_nil. Qed.

(** The text of a sequence of parts separated by commas. *)
Lemma lex_join (parts : list string) (toks : list (list token)) :
  Forall2 (fun p t => forall rest,
               closes rest = true ->
               lex LDefault (p ++ rest) = emit t (lex LDefault rest))
    parts toks ->
  forall tail,
    closes tail = true ->
    lex LDefault (join ", " parts ++ tail)
    = emit (sep_concat toks) (lex LDefault tail).
Proof.
  induction 1 as [|p t parts toks Hp Hrest IH]; intros tail Ht.
  - simpl. now rewrite emit_nil.
  - destruct Hrest as [|p' t' parts' toks' Hp' Hrest'].
    + simpl. now apply Hp.
    + change (join ", " (p :: p' :: parts'))
        with (p ++ ", " ++ join ", " (p' :: parts'))%string.
      change (sep_concat (t :: t' :: toks'))
        with (t ++ TComma :: sep_concat (t' :: toks')).
      rewrite !append_assoc, Hp by apply closes_comma.
      rewrite lex_comma, IH by exact Ht.
      rewrite !emit_emit, <- app_assoc. reflexivity.
Qed.

Lemma lex_list (body rest : string) (toks : list token) :
  (forall tail, closes tail = true ->
                lex LDefault (body ++ tail) = emit toks (lex LDefault tail)) ->
  lex LDefault (("[" ++ body ++ "]") ++ rest)
  = emit (TLBracket :: toks ++ [TRBracket]) (lex LDefault rest).
Proof.
  intros H. simpl. rewrite append_assoc, H by reflexivity.
  simpl. rewrite !emit_emit. reflexivity.
Qed.

Lemma lex_dict (body rest : string) (toks : list token) :
  (forall tail, closes tail = true ->
                lex LDefault (body ++ tail) = emit toks (lex LDefault tail)) ->
  lex LDefault (("{" ++ body ++ "}") ++ rest)
  = emit (TLBrace :: toks ++ [TRBrace]) (lex LDefault rest).
Proof.
  intros H. simpl. rewrite append_assoc, H by reflexivity.
  simpl. rewrite !emit_emit. reflexivity.
Qed.

Lemma to_uint_head (p : positive) :
  match Pos.to_uint p with
  | Decimal.Nil | Decimal.D0 _ => False
  | _ => True
  end.
Proof.
  pose proof (DecimalPos.Unsigned.to_of (Pos.to_uint p)) as H.
  rewrite DecimalPos.Unsigned.of_to in H. simpl in H.
  pose proof (DecimalPos.Unsigned.to_uint_nonzero p) as Hz.
  pose proof (DecimalPos.Unsigned.to_uint_nonnil p) as Hn.
  unfold Decimal.unorm in H.
  pose proof (DecimalFacts.nzhead_nonzero (Pos.to_uint p)) as Hh.
  destruct (Pos.to_uint p) as [|u|u|u|u|u|u|u|u|u|u] eqn:E;
    try exact I; [now apply Hn|].
  destruct (Decimal.nzhead (Decimal.D0 u)) eqn:E'; congruence.
Qed.

Lemma digit_run_uint (us : bool) (d : Decimal.uint) :
  forall acc n,
    digit_run us (NilEmpty.string_of_uint d) (Z.pos acc) n
    = Some (Z.pos (Pos.of_uint_acc d acc), (n + Decimal.nb_digits d)%nat,
            EmptyString).
Proof.
  induction d; intros acc n; cbn [NilEmpty.string_of_uint Pos.of_uint_acc
                                   Decimal.nb_digits];
    [cbn [digit_run]; now rewrite Nat.add_0_r|..];
    (cbn [digit_run];
     match goal with
     | |- context [digit_of ?c] =>
         let r := eval vm_compute in (digit_of c) in
         change (digit_of c) with r
     end;
     cbv beta iota;
     match goal with
     | |- digit_run _ _ ?a _ = _ =>
         match goal with
         | |- _ = Some (Z.pos (Pos.of_uint_acc _ ?b), _, _) =>
             replace a with (Z.pos b) by lia
         end
     end;
     rewrite IHd; now rewrite Nat.add_succ_r).
Qed.

Lemma json_number_pos (p : positive) :
  json_number (NilEmpty.string_of_uint (Pos.to_uint p)) = Some (VInt (Z.pos p))
  /\ json_number (String "-" (NilEmpty.string_of_uint (Pos.to_uint p)))
     = Some (VInt (Z.neg p)).
Proof.
  pose proof (to_uint_head p) as Hh.
  pose proof (DecimalPos.Unsigned.of_to p) as Hv.
  destruct (Pos.to_uint p) as [|u|u|u|u|u|u|u|u|u|u] eqn:E;
    try contradiction; clear Hh;
    cbn [Pos.of_uint] in Hv; inversion Hv as [Hv'];
    unfold json_number; cbn [NilEmpty.string_of_uint];
    cbn [digit_run];
    match goal with
    | |- context [digit_of ?c] =>
        let r := eval vm_compute in (digit_of c) in
        change (digit_of c) with r
    end;
    cbv beta iota;
    match goal with
    | |- context [digit_run false _ ?a 1%nat] =>
        match type of Hv' with
        | Pos.of_uint_acc _ ?b = _ => change a with (Z.pos b)
        end
    end;
    rewrite digit_run_uint, Hv'; split; reflexivity.
Qed.

Lemma word_value_Z (z : Z) : word_value (string_of_Z z) = Some (VInt z).
Proof.
  unfold string_of_Z. destruct z as [|p|p]; [reflexivity|..];
    cbn [Z.to_int NilZero.string_of_int];
    pose proof (to_uint_head p) as Hh;
    destruct (json_number_pos p) as (Hpos & Hneg);
    unfold NilZero.string_of_uint;
    destruct (Pos.to_uint p) as [|u|u|u|u|u|u|u|u|u|u] eqn:E;
    try contradiction; clear Hh;
    unfold word_value;
    cbn [NilEmpty.string_of_uint String.eqb Ascii.eqb Bool.eqb] in *;
    assumption.
Qed.

Lemma word_chars_uint (d : Decimal.uint) :
  forallb is_word_char (list_ascii_of_string (NilEmpty.string_of_uint d))
  = true.
Proof. induction d; simpl; auto. Qed.

Lemma word_chars_Z (z : Z) :
  forallb is_word_char (list_ascii_of_string (string_of_Z z)) = true.
Proof.
  unfold string_of_Z.
  destruct z as [|p|p]; [reflexivity|..];
    cbn [Z.to_int NilZero.string_of_int]; unfold NilZero.string_of_uint;
    pose proof (word_chars_uint (Pos.to_uint p)) as H;
    destruct (Pos.to_uint p); auto.
Qed.

Lemma text_app (acc : list ascii) (w : string) :
  text (rev (list_ascii_of_string w) ++ acc) = (text acc ++ w)%string.
Proof.
  revert acc. induction w as [|c w IH]; intros acc; simpl.
  - now rewrite append_empty.
  - rewrite <- app_assoc. simpl. rewrite IH.
    rewrite <- (text_cons c acc w). reflexivity.
Qed.

Lemma lex_word_run (w : string) :
  forall acc rest,
    forallb is_word_char (list_ascii_of_string w) = true ->
    lex (LWord acc) (w ++ rest)
    = lex (LWord (rev (list_ascii_of_string w) ++ acc)) rest.
Proof.
  induction w as [|c w IH]; intros acc rest H; simpl in *; auto.
  apply andb_true_iff in H. destruct H as (Hc & H).
  rewrite Hc, IH by exact H. now rewrite <- app_assoc.
Qed.

Lemma lex_word (w rest : string) (v : value) :
  forallb is_word_char (list_ascii_of_string w) = true ->
  word_value w = Some v ->
  closes rest = true ->
  lex LDefault (w ++ rest) = emit [TAtom v] (lex LDefault rest).
Proof.
  intros Hw Hv Hc. destruct w as [|c w].
  - discriminate.
  - simpl in Hw. apply andb_true_iff in Hw. destruct Hw as (Hcw & Hw).
    assert (Hs : start c = Some (LWord [c], [])).
    { clear - Hcw. destruct c as [[] [] [] [] [] [] [] []];
        try discriminate; reflexivity. }
    simpl. rewrite Hs, emit_nil, lex_word_run by exact Hw.
    apply lex_word_close; auto.
    rewrite text_app. exact Hv.
Qed.

Lemma lex_int (z : Z) (rest : string) :
  closes rest = true ->
  lex LDefault (string_of_Z z ++ rest)
  = emit [TAtom (VInt z)] (lex LDefault rest).
Proof.
  intros Hc. apply lex_word; auto using word_chars_Z, word_value_Z.
Qed.

Lemma lex_dumps :
  forall v,
    plain v = true ->
    forall rest,
      closes rest = true ->
      lex LDefault (dumps v ++ rest) = emit (tokens v) (lex LDefault rest).
Proof.
  induction v as [|b|z|f|s|l IHl|d IHd] using value_induction;
    intros Hp rest Hc; try discriminate.
  - simpl. rewrite emit_nil. now apply lex_word_close.
  - destruct b; simpl; rewrite emit_nil; now apply lex_word_close.
  - now apply lex_int.
  - apply lex_json_string.
  - cbn [dumps tokens]. apply lex_list. apply lex_join.
    simpl in Hp. clear rest Hc.
    induction IHl as [|x l Hx _ IH]; cbn [map forallb] in *; constructor.
    + apply andb_true_iff in Hp. destruct Hp. auto.
    + apply andb_true_iff in Hp. destruct Hp. auto.
  - cbn [dumps tokens]. apply lex_dict. apply lex_join.
    simpl in Hp. apply andb_true_iff in Hp. destruct Hp as (_ & Hp).
    clear rest Hc.
    induction IHd as [|[k x] d Hx _ IH]; cbn [map forallb snd] in *;
      constructor.
    + apply andb_true_iff in Hp. destruct Hp as (Hpx & _).
      intros rest Hc. rewrite !append_assoc, lex_json_string, lex_colon.
      rewrite (Hx Hpx rest Hc), !emit_emit. reflexivity.
    + apply andb_true_iff in Hp. destruct Hp. auto.
Qed.

Lemma step_open (m : mode) (stack : list frame) (tok : token) :
  m = MValue \/ m = MFirst ->
  tok <> TRBracket ->
  step m stack tok = open_value tok stack.
Proof.
  intros [->| ->] Ht; [reflexivity|].
  destruct tok; try reflexivity. congruence.
Qed.

Lemma tokens_head (v : value) :
  exists tok toks, tokens v = tok :: toks /\ tok <> TRBracket.
Proof.
  destruct v; simpl; eexists; eexists; split; try reflexivity; discriminate.
Qed.

Lemma parse_atom (v : value) :
  tokens v = [TAtom v] -> parses v.
Proof.
  intros Ht m stack rest Hm. rewrite Ht. simpl.
  rewrite step_open by (auto; discriminate). reflexivity.
Qed.

Lemma parse_elements (stack : list frame) (rest : list token) :
  forall l items m,
    Forall parses l ->
    l <> [] ->
    m = MValue \/ m = MFirst ->
    parse m (FList items :: stack)
      (sep_concat (map tokens l) ++ TRBracket :: rest)
    = match push_value (VList (rev items ++ l)) stack with
      | Some (m', stack') => parse m' stack' rest
      | None => None
      end.
Proof.
  induction l as [|x l IH]; intros items m Hl Hne Hm; [congruence|].
  inversion Hl as [|? ? Hx Hl']; subst.
  destruct l as [|y l'].
  - change (sep_concat (map tokens [x])) with (tokens x).
    rewrite (Hx m _ _ Hm). reflexivity.
  - change (sep_concat (map tokens (x :: y :: l')))
      with (tokens x ++ TComma :: sep_concat (map tokens (y :: l'))).
    rewrite <- app_assoc, (Hx m _ _ Hm).
    cbn [push_value].
    change ((TComma :: sep_concat (map tokens (y :: l')))
              ++ TRBracket :: rest)
      with (TComma :: (sep_concat (map tokens (y :: l'))
                         ++ TRBracket :: rest)).
    change (parse MNext (FList (x :: items) :: stack)
              (TComma :: ?t))
      with (parse MValue (FList (x :: items) :: stack) t).
    rewrite (IH (x :: items) MValue Hl') by (auto; discriminate).
    simpl rev. rewrite <- app_assoc. reflexivity.
Qed.

Lemma parse_members (stack : list frame) (rest : list token) :
  forall (d : dict) pairs m,
    Forall (fun kv => parses (snd kv)) d ->
    d <> [] ->
    m = MKeyFirst \/ m = MKey ->
    parse m (FDict pairs None :: stack)
      (sep_concat
         (map (fun '(k, x) => TAtom (VStr k) :: TColon :: tokens x) d)
         ++ TRBrace :: rest)
    = match push_value (VDict (dict_of_pairs (rev pairs ++ d))) stack with
      | Some (m', stack') => parse m' stack' rest
      | None => None
      end.
Proof.
  induction d as [|[k x] d IH]; intros pairs m Hd Hne Hm; [congruence|].
  inversion Hd as [|? ? Hx Hd']; subst. simpl in Hx.
  assert (Hkey : forall t,
             parse m (FDict pairs None :: stack)
               (TAtom (VStr k) :: TColon :: t)
             = parse MValue (FDict pairs (Some k) :: stack) t).
  { intros t. destruct Hm as [->| ->]; reflexivity. }
  destruct d as [|[k' y] d'].
  - cbn [map sep_concat]. cbn [app]. rewrite Hkey.
    rewrite (Hx MValue _ _ (or_introl eq_refl)). reflexivity.
  - change (sep_concat
              (map (fun '(k, x) => TAtom (VStr k) :: TColon :: tokens x)
                 ((k, x) :: (k', y) :: d')))
      with ((TAtom (VStr k) :: TColon :: tokens x)
              ++ TComma
              :: sep_concat
                   (map (fun '(k, x) => TAtom (VStr k) :: TColon :: tokens x)
                      ((k', y) :: d'))).
    rewrite <- app_assoc. cbn [app]. rewrite Hkey.
    rewrite (Hx MValue _ _ (or_introl eq_refl)).
    cbn [push_value].
    change (parse MNext (FDict ((k, x) :: pairs) None :: stack)
              (TComma :: ?t))
      with (parse MKey (FDict ((k, x) :: pairs) None :: stack) t).
    rewrite (IH ((k, x) :: pairs) MKey Hd') by (auto; discriminate).
    simpl rev. rewrite <- app_assoc. reflexivity.
Qed.

Lemma distinct_NoDup (l : list string) : distinct l = true -> NoDup l.
Proof.
  induction l as [|x l IH]; simpl; intros H; constructor.
  - apply andb_true_iff in H. destruct H as (H & _).
    apply negb_true_iff in H. intros Hin.
    apply existsb_eqb_In in Hin. congruence.
  - apply andb_true_iff in H. destruct H. auto.
Qed.

Lemma dict_of_pairs_distinct (d : dict) :
  NoDup (keys d) -> dict_of_pairs d = d.
Proof.
  unfold dict_of_pairs.
  assert (G : forall (d acc : dict),
             NoDup (keys acc ++ keys d) ->
             fold_left (fun a (kv : string * value) =>
                          dict_set (fst kv) (snd kv) a) d acc
             = acc ++ d).
  { clear d. induction d as [|[k v] d IH]; intros acc H; simpl.
    - now rewrite app_nil_r.
    - rewrite dict_set_fresh.
      + rewrite IH; [now rewrite <- app_assoc|].
        rewrite keys_app. simpl in *. now rewrite <- app_assoc.
      + simpl in H. apply NoDup_remove_2 in H. intros Hin. apply H.
        apply in_or_app. now left. }
  intros H. now rewrite (G d []).
Qed.

Lemma parse_tokens : forall v, plain v = true -> parses v.
Proof.
  induction v as [|b|z|f|s|l IHl|d IHd] using value_induction;
    intros Hp; try discriminate; try (now apply parse_atom).
  - intros m stack rest Hm. cbn [tokens].
    change ((TLBracket :: ?a ++ [TRBracket]) ++ rest)
      with (TLBracket :: ((a ++ [TRBracket]) ++ rest)).
    rewrite <- app_assoc. change ([TRBracket] ++ rest) with (TRBracket :: rest).
    cbn [parse]. rewrite step_open by (auto; discriminate).
    cbn [open_value].
    assert (Hl : Forall parses l).
    { simpl in Hp. clear - IHl Hp.
      induction IHl as [|x l Hx _ IH]; constructor;
        simpl in Hp; apply andb_true_iff in Hp; destruct Hp; auto. }
    destruct l as [|x l'].
    + reflexivity.
    + rewrite (parse_elements stack rest (x :: l') [] MFirst Hl)
        by (auto; discriminate).
      reflexivity.
  - intros m stack rest Hm. cbn [tokens].
    change ((TLBrace :: ?a ++ [TRBrace]) ++ rest)
      with (TLBrace :: ((a ++ [TRBrace]) ++ rest)).
    rewrite <- app_assoc. change ([TRBrace] ++ rest) with (TRBrace :: rest).
    cbn [parse]. rewrite step_open by (auto; discriminate).
    cbn [open_value].
    simpl in Hp. apply andb_true_iff in Hp. destruct Hp as (Hk & Hp).
    assert (Hd : Forall (fun kv => parses (snd kv)) d).
    { clear - IHd Hp.
      induction IHd as [|[k x] d Hx _ IH]; constructor;
        simpl in Hp; apply andb_true_iff in Hp; destruct Hp; auto. }
    destruct d as [|kx d'].
    + reflexivity.
    + rewrite (parse_members stack rest (kx :: d') [] MKeyFirst Hd)
        by (auto; discriminate).
      simpl rev. simpl app.
      rewrite dict_of_pairs_distinct by now apply distinct_NoDup.
      reflexivity.
Qed.

(** [json.loads] reads back what [json.dumps] printed. *)
Lemma loads_dumps (v : value) :
  plain v = true -> json_loads (dumps v) = Some v.
Proof.
  intros Hp. unfold json_loads.
  rewrite <- (append_empty (dumps v)), (lex_dumps v Hp) by reflexivity.
  simpl. rewrite <- (app_nil_r (tokens v)) at 1.
  rewrite app_nil_r.
  rewrite (parse_tokens v Hp MValue [] [] (or_introl eq_refl)).
  reflexivity.
Qed.

Lemma plain_dict_set (k : string) (x : value) :
  forall d : dict,
    plain (VDict d) = true -> plain x = true ->
    plain (VDict (dict_set k x d)) = true.
Proof.
  intros d Hd Hx. cbn [plain] in *.
  apply andb_true_iff in Hd. destruct Hd as (Hk & Hv).
  apply andb_true_iff. split.
  - apply distinct_NoDup in Hk.
    assert (Hn : NoDup (keys (dict_set k x d))).
    { rewrite keys_dict_set. destruct (dict_mem k d) eqn:E; auto.
      apply NoDup_app; auto.
      - repeat constructor. intros [].
      - intros y Hy [<-|[]]. rewrite dict_mem_existsb in E.
        apply existsb_eqb_In in Hy. congruence. }
    revert Hn. generalize (keys (dict_set k x d)) as l. clear.
    induction l as [|y l IH]; intros H; simpl; auto.
    inversion H; subst. apply andb_true_iff. split; auto.
    apply negb_true_iff. destruct (existsb (String.eqb y) l) eqn:E; auto.
    apply existsb_eqb_In in E. contradiction.
  - clear Hk. induction d as [|[k' v'] d IH]; simpl in *.
    + now rewrite Hx.
    + apply andb_true_iff in Hv. destruct Hv as (Hv' & Hv).
      destruct (String.eqb k k'); simpl.
      * now rewrite Hx, Hv.
      * now rewrite Hv', IH.
Qed.

Lemma parameter_types_plain (its : list (string * annotation)) :
  forall acc d,
    parameter_types its acc = Ret d ->
    plain (VDict acc) = true -> plain (VDict d) = true.
Proof.
  induction its as [|[p a] its IH]; intros acc d H Hacc; simpl in H.
  - inversion H; subst. exact Hacc.
  - destruct (negb (String.eqb p "return")); [|eauto].
    destruct a as [n|t]; cbv [dunder_name raise bind] in H;
      [|discriminate].
    eapply IH; [exact H|]. now apply plain_dict_set.
Qed.

Lemma metadata_plain (f : callable) (metadata : value) :
  extract_function_metadata f = Ret metadata -> plain metadata = true.
Proof.
  unfold extract_function_metadata.
  destruct (parameter_types (annotations f) []) as [types|e] eqn:E;
    [|discriminate].
  cbn [bind]. intros H. inversion H; subst.
  pose proof (parameter_types_plain _ _ _ E eq_refl) as Hp.
  change (plain (VDict [("name", VStr (fn_name f));
                        ("description",
                          match fn_doc f with
                          | Some d => VStr d
                          | None => VNone
                          end);
                        ("parameters", VDict [("properties", VDict types)])]))
    with (plain match fn_doc f with
                | Some d => VStr d
                | None => VNone
                end
          && (plain (VDict types) && true && true)).
  rewrite Hp. now destruct (fn_doc f).
Qed.

Lemma tool_specification_loads (f : callable) (t : Tool) :
  tool f = Ret t ->
  exists metadata,
    extract_function_metadata f = Ret metadata
    /\ specification t = dumps metadata
    /\ json_loads (specification t) = Some metadata.
Proof.
  unfold tool.
  destruct (extract_function_metadata f) as [metadata|e] eqn:E;
    [|discriminate].
  cbn [bind]. intros H. inversion H; subst. cbn [specification].
  exists metadata. repeat split; auto.
  apply loads_dumps. eapply metadata_plain; eauto.
Qed.

(** X22.  The specification of a decorated tool is a JSON text, and reading it
    gives the metadata of the function back: what [execute_tool] and
    [format_tools_for_prompt] load is what [extract_function_metadata]
    extracted. *)
Theorem decorated_specification_parses_back (f : callable) (t : Tool) :
  tool f = Ret t ->
  loads (specification t) = extract_function_metadata f
  /\ ReAct.tool f = Ret t
  /\ Ret (ToolCalling.tool_json t) = extract_function_metadata f.
Proof.
  intros H. destruct (tool_specification_loads f t H) as (m & Hm & _ & Hl).
  unfold ToolCalling.tool_json, loads. rewrite Hl, Hm. auto.
Qed.

Lemma decorated_specification_parses_back_witness :
  loads (specification Tests.add_tool)
  = extract_function_metadata Tests.add_two_numbers.
Proof.
  exact (proj1 (decorated_specification_parses_back
                  Tests.add_two_numbers Tests.add_tool eq_refl)).
Defined.

Lemma registry_values_incl (ts : list Tool) (t : Tool) :
  In t (values (dict_of_pairs (map (fun t => (name t, t)) ts))) -> In t ts.
Proof.
  intros H.
  assert (G : forall (l : list Tool) (acc : list (string * Tool)),
             Forall (fun kt => In (snd kt) ts) acc ->
             (forall x, In x l -> In x ts) ->
             Forall (fun kt => In (snd kt) ts)
               (fold_left register (map (fun t => (name t, t)) l) acc)).
  { induction l as [|x l IH]; intros acc Ha Hl; simpl; auto.
    apply IH.
    - apply dict_set_keeps; auto. simpl. apply Hl. now left.
    - intros y Hy. apply Hl. now right. }
  specialize (G ts [] (Forall_nil _) (fun x Hx => Hx)).
  rewrite Forall_forall in G.
  unfold values in H. apply in_map_iff in H.
  destruct H as (kt & <- & Hin). exact (G kt Hin).
Qed.

(** X23.  An agent built from decorated tools always has its tools block: the
    specifications in its registry are JSON texts, so that
    [format_tools_for_prompt] of the ReAct agent returns, with the block
    that the tool-calling agent builds from the same tools. *)
Theorem decorated_tools_format (fs : list callable) (ts : list Tool)
  (llm : completion) (prompt : string) (budget : Z) :
  Forall2 (fun f t => tool f = Ret t) fs ts ->
  specs_valid (ReAct.tools (ReAct.init llm prompt ts budget))
  /\ ReAct.format_tools_for_prompt (ReAct.init llm prompt ts budget)
     = Ret (ToolCalling.format_tools_for_prompt
              (ToolCalling.init llm prompt ts)).
Proof.
  intros H.
  assert (Hv : specs_valid (ReAct.tools (ReAct.init llm prompt ts budget))).
  { unfold specs_valid. apply Forall_forall. intros t Hin.
    apply registry_values_incl in Hin.
    assert (exists f, tool f = Ret t) as (f & Hf).
    { clear - H Hin. induction H as [|f t' fs ts Hft _ IH].
      - contradiction.
      - destruct Hin as [<-|Hin]; eauto. }
    destruct (tool_specification_loads f t Hf) as (m & _ & _ & Hl).
    rewrite Hl. discriminate. }
  split; [exact Hv|].
  unfold specs_valid, ReAct.format_tools_for_prompt,
    ToolCalling.format_tools_for_prompt, ReAct.Tool, ToolCalling.Tool in *.
  rewrite (load_specifications_valid _ Hv). reflexivity.
Qed.

Lemma decorated_tools_format_witness :
  ReAct.format_tools_for_prompt
    (ReAct.init (always EmptyString) EmptyString [Tests.add_tool] 10)
  = Ret (ToolCalling.format_tools_for_prompt
           (ToolCalling.init (always EmptyString) EmptyString
              [Tests.add_tool])).
Proof.
  refine (proj2 (decorated_tools_format
                   [Tests.add_two_numbers] [Tests.add_tool]
                   (always EmptyString) EmptyString 10 _)).
  repeat constructor.
Defined.












Lemma skip_right_uint (d : Decimal.uint) :
  skip_right (NilEmpty.string_of_uint d) = NilEmpty.string_of_uint d.
Proof.
  induction d; cbn [NilEmpty.string_of_uint skip_right]; auto;
    rewrite IHd; now destruct (NilEmpty.string_of_uint d).
Qed.

Lemma skip_right_cons (c : ascii) (s : string) :
  is_literal_space c = false -> skip_right s = s ->
  skip_right (String c s) = String c s.
Proof.
  intros Hc Hs. cbn [skip_right]. rewrite Hs, Hc. now destruct s.
Qed.

Lemma skip_left_cons (c : ascii) (s : string) :
  is_literal_space c = false -> skip_left (String c s) = String c s.
Proof. intros Hc. cbn [skip_left]. now rewrite Hc. Qed.

Lemma parse_int_pos (p : positive) :
  parse_int (NilEmpty.string_of_uint (Pos.to_uint p)) = Some (Z.pos p)
  /\ parse_int (String "-" (NilEmpty.string_of_uint (Pos.to_uint p)))
     = Some (Z.neg p).
Proof.
  pose proof (to_uint_head p) as Hh.
  pose proof (DecimalPos.Unsigned.of_to p) as Hv.
  pose proof (skip_right_uint (Pos.to_uint p)) as Hr.
  destruct (Pos.to_uint p) as [|u|u|u|u|u|u|u|u|u|u] eqn:E;
    try contradiction; clear Hh;
    cbn [Pos.of_uint] in Hv; inversion Hv as [Hv'];
    unfold parse_int, literal_text;
    cbn [NilEmpty.string_of_uint] in *;
    (split;
     [rewrite skip_left_cons by reflexivity; rewrite Hr
     |rewrite skip_left_cons by reflexivity;
      rewrite (skip_right_cons "-" _ eq_refl Hr)]);
    cbn [split_sign digit_run];
    match goal with
    | |- context [digit_of ?c] =>
        let r := eval vm_compute in (digit_of c) in
        change (digit_of c) with r
    end;
    cbv beta iota;
    match goal with
    | |- context [digit_run true _ ?a 1%nat] =>
        match type of Hv' with
        | Pos.of_uint_acc _ ?b = _ => change a with (Z.pos b)
        end
    end;
    rewrite digit_run_uint, Hv'; reflexivity.
Qed.

Lemma parse_int_string_of_Z (z : Z) : parse_int (string_of_Z z) = Some z.
Proof.
  unfold string_of_Z. destruct z as [|p|p]; [reflexivity|..];
    cbn [Z.to_int NilZero.string_of_int];
    pose proof (to_uint_head p) as Hh;
    destruct (parse_int_pos p) as (Hpos & Hneg);
    unfold NilZero.string_of_uint;
    destruct (Pos.to_uint p) as [|u|u|u|u|u|u|u|u|u|u] eqn:E;
    try contradiction; assumption.
Qed.

(** X25.  An integer that the model writes as a string is read as that integer:
    for an argument declared with a tag of the integers, the coercion
    turns the decimal text of an integer within the limit of digits, as
    [str] prints it, into the integer itself; and for an argument declared
    with a tag of the strings it turns such an integer into that text. *)
Theorem integer_text_is_coerced_back (props : dict) (k tag : string) (z : Z) :
  declares props k tag = true ->
  within_digit_limit z = true ->
  (ReAct.type_mapping tag = Some TInt ->
   ReAct.convert_item (VDict props) k (VStr (str (VInt z)))
   = Ret (Some (VInt z)))
  /\ (ReAct.type_mapping tag = Some TStr ->
      ReAct.convert_item (VDict props) k (VInt z)
      = Ret (Some (VStr (str (VInt z)))))
  /\ convert TInt (VStr (str (VInt z))) = Ret (VInt z).
Proof.
  intros Hd _.
  assert (Hc : convert TInt (VStr (str (VInt z))) = Ret (VInt z)).
  { cbn [convert str repr]. change (repr (VInt z)) with (string_of_Z z).
    now rewrite parse_int_string_of_Z. }
  split; [|split]; auto.
  - intros Ht. rewrite (convert_item_declared props k tag _ Hd), Ht.
    rewrite try_convert_cases. cbn [isinstance]. now rewrite Hc.
  - intros Ht. rewrite (convert_item_declared props k tag _ Hd), Ht.
    rewrite try_convert_cases. reflexivity.
Qed.

Lemma integer_text_is_coerced_back_witness :
  ReAct.convert_item (VDict [("a", VDict [("type", VStr "integer")])]) "a"
    (VStr (str (VInt (-1234567890123456789012345))))
  = Ret (Some (VInt (-1234567890123456789012345))).
Proof.
  refine (proj1 (integer_text_is_coerced_back
                   [("a", VDict [("type", VStr "integer")])] "a" "integer"
                   (-1234567890123456789012345) eq_refl _) eq_refl).
  vm_compute. reflexivity.
Defined.

End JsonFacts.
